(** * AudioAnalysisCore: onset, tempo and song-structure analysis

    A shallow embedding of [AudioAnalysisCore] (src/lib/media-library.ts,
    lines 150-935), of the media library, and of the analysis worker and
    its client, with the properties the specification states about them.

    Numbers.  A JavaScript [number] is an IEEE double.  The model writes a
    finite double as the rational it denotes ([Q]); [toDouble] rounds a
    rational to the nearest double (ties to even) and [Math_fround] to the
    nearest single-precision float, as a store into a [Float32Array] does.
    The conversions between frames, seconds and samples of the onsets and
    of the sections, the two downmixes and the cosine similarity round
    every arithmetic result, as the code does.  The thresholds, the sums of
    flux, novelty and energy values, the kernel size and the frame indices
    of labelSections are computed without rounding: what is proved of them
    is their order, their shape, or their value on inputs on which no
    rounding occurs.  [NaN] and the infinities are not modelled
    ([-Infinity] and [+Infinity], which the code uses as initial values,
    are modelled by [None]); a result too large for a double is not turned
    into an infinity.  The table of the Hann window, which needs
    [Math.cos], is a field of the [Host] record, and so is [Math.sqrt],
    which [doubleHost] reads as the correctly rounded square root.

    Essentia.  The WebAssembly library is an external collaborator: each of
    its entry points is a field of the [Essentia] record, returning [None]
    where the call throws.

    Promises.  An asynchronous method is modelled from its call to the
    settlement of the promise it returns ([Settled]), with the progress
    values it reports on the way ([Run]); calls do not overlap. *)

From Stdlib Require Import QArith Qround Qabs Qminmax Qpower ZArith List Bool Lia Psatz.
From Stdlib Require Import String Ascii DecimalString Decimal.
From Stdlib Require Import Sorted Permutation.
Import ListNotations.

Local Open Scope Q_scope.

(** ** JavaScript numbers and arrays *)

Definition number := Q.

(** [x < y] and [x > y] on numbers, as booleans. *)
Definition Qltb (x y : Q) : bool := negb (Qle_bool y x).
Definition Qgtb (x y : Q) : bool := Qltb y x.

(** [Math.floor] and [Math.round] ([Math.round] rounds halves up). *)
Definition Math_floor (x : Q) : Z := Qfloor x.
Definition Math_round (x : Q) : Z := Qfloor (x + (1 # 2)).

(** ** Rounding to a floating-point format

    The integer nearest to [x]; of two nearest integers, the even one. *)
Definition roundHalfEven (x : Q) : Z :=
  let f := Qfloor x in
  match Qcompare (x - inject_Z f) (1 # 2) with
  | Lt => f
  | Gt => (f + 1)%Z
  | Eq => if Z.even f then f else (f + 1)%Z
  end.

Definition pow2 (k : Z) : Q := 2 ^ k.

(** The binary exponent of [x <> 0]: the [k] with [2^k <= |x| < 2^(k+1)].
    The difference of the bit lengths of numerator and denominator is [k]
    or [k + 1]. *)
Definition exponentOf (x : Q) : Z :=
  let k := (Z.log2 (Z.abs (Qnum x)) - Z.log2 (Zpos (Qden x)))%Z in
  if Qle_bool (pow2 k) (Qabs x) then k else (k - 1)%Z.

(** The number nearest to [x] among the multiples of [2^q], where [2^q] is
    the unit in the last place of a float with [prec] bits of mantissa at
    the exponent of [x], and at least [2^emin], the spacing of the
    subnormal numbers: IEEE 754 rounding to nearest, ties to even. *)
Definition roundFloat (prec emin : Z) (x : Q) : Q :=
  if Qeq_bool x 0 then 0
  else
    let q := Z.max (exponentOf x - prec + 1) emin in
    inject_Z (roundHalfEven (x / pow2 q)) * pow2 q.

(** The double nearest to [x]: the result of an arithmetic operation whose
    exact value is [x]. *)
Definition toDouble (x : Q) : Q := roundFloat 53 (-1074) x.

(** [Math.fround]: the single-precision float nearest to [x], which a
    store into a [Float32Array] keeps. *)
Definition Math_fround (x : Q) : Q := roundFloat 24 (-149) x.

(** [Math.sqrt] of a double, correctly rounded: the integer square root of
    [x * 4^k], which has more than 60 bits, decides the rounding; [1 # 2]
    stands for the rest of an inexact root. *)
Definition Math_sqrt64 (x : Q) : Q :=
  if Qle_bool x 0 then 0
  else
    let k := (64 - exponentOf x / 2)%Z in
    let scaled := x * pow2 (2 * k) in
    let s := Qfloor scaled in
    let r := Z.sqrt s in
    let exact := (r * r =? s)%Z && Qeq_bool scaled (inject_Z s) in
    toDouble ((inject_Z r + (if exact then 0 else 1 # 2)) * pow2 (- k)).

(** [a[i]] for an index the code keeps inside the array; an index outside
    reads [undefined] in JavaScript, which no path below relies on. *)
Definition get (a : list Q) (i : Z) : Q :=
  if (i <? 0)%Z then 0 else nth (Z.to_nat i) a 0.

(** [for (let i = lo; i < hi; i++)]: the values [i] takes. *)
Definition range (lo hi : Z) : list Z :=
  map (fun k => (lo + Z.of_nat k)%Z) (seq 0 (Z.to_nat (hi - lo))).

Definition len {A} (a : list A) : Z := Z.of_nat (List.length a).

(** [[...values].sort((a, b) => a - b)]: ascending numeric sort. *)
Fixpoint insertSorted (x : Q) (l : list Q) : list Q :=
  match l with
  | [] => [x]
  | y :: l' => if Qle_bool x y then x :: l else y :: insertSorted x l'
  end.

Definition sortNumbers (l : list Q) : list Q :=
  fold_right insertSorted [] l.

(** ** calculateThreshold (lines 906-920)

    The default [multiplier = 1.5] is never used: both callers pass one. *)

Definition median (values : list Q) : Q :=
  let sorted := sortNumbers values in
  get sorted (len sorted / 2).

Definition calculateThreshold (values : list Q) (multiplier : Q) : Q :=
  match values with
  | [] => 0
  | _ =>
      let median := median values in
      let deviations := map (fun v => Qabs (v - median)) values in
      let sortedDeviations := sortNumbers deviations in
      let mad := get sortedDeviations (len sortedDeviations / 2) in
      median + multiplier * mad
  end.

(** ** Peak picking of detectOnsets (lines 408-434) *)

Record OnsetResult := mkOnsetResult {
  timestamps : list Z;   (* in samples *)
  times : list Q         (* in seconds *)
}.

Definition hopSize : Z := 512.
Definition frameSize : Z := 2048.

Record PeakState := mkPeakState {
  onsets : list Z;
  onsetTimes : list Q;
  lastOnsetFrame : option Z   (* [None] is [-Infinity] *)
}.

(** [i - lastOnsetFrame >= minDistanceFrames] *)
Definition farEnough (i : Z) (last : option Z) (minDistanceFrames : Z) : bool :=
  match last with
  | None => true
  | Some l => (minDistanceFrames <=? i - l)%Z
  end.

Definition isPeak (f : list Q) (threshold : Q) (i : Z) : bool :=
  Qgtb (get f i) threshold && Qgtb (get f i) (get f (i - 1))
  && Qgtb (get f i) (get f (i + 1)).

(** One round of the peak loop (lines 415-428).  The product [i * hopSize]
    of a frame index and the hop size is an integer far below [2^53] and
    therefore exact; the quotient by the sample rate, the product with the
    sample rate and [minDistance * sampleRate / hopSize] round. *)
Definition peakStep (onsetFunction : list Q) (threshold : Q)
    (minDistanceFrames : Z) (sampleRate : Q) (st : PeakState) (i : Z) : PeakState :=
  if isPeak onsetFunction threshold i then
    if farEnough i (lastOnsetFrame st) minDistanceFrames then
      let timeInSeconds := toDouble (inject_Z (i * hopSize) / sampleRate) in
      let sampleIndex := Math_floor (toDouble (timeInSeconds * sampleRate)) in
      mkPeakState (onsets st ++ [sampleIndex]) (onsetTimes st ++ [timeInSeconds])
                  (Some i)
    else st
  else st.

Definition pickOnsets (onsetFunction : list Q) (sensitivity minDistance sampleRate : Q)
    : OnsetResult :=
  let threshold := calculateThreshold onsetFunction sensitivity in
  let minDistanceFrames :=
    Math_floor (toDouble (toDouble (minDistance * sampleRate) / inject_Z hopSize)) in
  let st := fold_left (peakStep onsetFunction threshold minDistanceFrames sampleRate)
                      (range 1 (len onsetFunction - 1))
                      (mkPeakState [] [] None) in
  mkOnsetResult (onsets st) (onsetTimes st).

(** ** Outcomes of calls

    A promise settles: it resolves with a value or rejects with an error.
    A run also records the values passed to the [onProgress] callback, in
    order. *)

Inductive Settled (A : Type) : Type :=
| Resolved (a : A)
| Rejected (message : string).
Arguments Resolved {A} a.
Arguments Rejected {A} message.

Record Run (A : Type) := mkRun {
  emitted : list Q;
  settled : Settled A
}.
Arguments mkRun {A} emitted settled.
Arguments emitted {A} r.
Arguments settled {A} r.

(** [if (onProgress) onProgress(p)] *)
Definition report (onProgress : bool) (p : Q) : list Q :=
  if onProgress then [p] else [].

(** [x || d] on an optional number: [undefined] and [0] are falsy. *)
Definition orElse (x : option Q) (d : Q) : Q :=
  match x with
  | Some q => if Qeq_bool q 0 then d else q
  | None => d
  end.

(** ** The collaborators *)

Definition VectorFloat := list Q.

(** The object returned by the rhythm extractors. *)
Record Rhythm := mkRhythm {
  rhythm_bpm : option Q;
  rhythm_tempo : option Q;
  rhythm_confidence : option Q
}.

(** Essentia.js; a field returns [None] where the call throws, and [thrown]
    is the message of the error thrown.  The field selections on results
    ([spectrum.spectrum || spectrum.vector || spectrum] and the like) are
    part of the entry point. *)
Record Essentia := mkEssentia {
  arrayToVector : list Q -> option VectorFloat;
  vectorToArray : VectorFloat -> option (list Q);
  Spectrum : VectorFloat -> option VectorFloat;
  Windowing : VectorFloat -> option (list Q);
  Chromagram : VectorFloat -> Q -> option VectorFloat;
  MFCC : VectorFloat -> Q -> option VectorFloat;
  RMS : VectorFloat -> option (option Q);
  RhythmExtractor2013 : VectorFloat -> option Rhythm;
  RhythmExtractor : VectorFloat -> Q -> option Rhythm;
  thrown : string
}.

(** What the host computes in floating point and [Q] cannot: [Math.sqrt],
    and the table [0.5 * (1 - Math.cos(2 * Math.PI * n / (size - 1)))] that
    [getHannWindow] fills for a window of [size] coefficients. *)
Record Host := mkHost {
  Math_sqrt : Q -> Q;
  hannCoefficients : Z -> list Q
}.

Record AudioBuffer := mkAudioBuffer {
  sampleRate : Q;
  duration : Q;
  channels : list (list Q)
}.

Definition numberOfChannels (b : AudioBuffer) : Z := len (channels b).
Definition getChannelData (b : AudioBuffer) (i : Z) : list Q :=
  nth (Z.to_nat i) (channels b) [].
Definition bufferLength (b : AudioBuffer) : Z := len (getChannelData b 0).

(** The fields of the class (lines 185-188).  [initializationPromise] is
    read between two calls of [initialize], when the promise it holds, if
    any, has settled. *)
Record Core := mkCore {
  essentia : option Essentia;
  isInitialized : bool;
  initializationPromise : option (Settled unit);
  windowCache : list (Z * list Q)
}.

(** ensureInitialized (lines 275-282): the live engine, or the error. *)
Definition ensureInitialized (c : Core) : Settled Essentia :=
  match isInitialized c, essentia c with
  | true, Some e => Resolved e
  | _, _ =>
      Rejected ("Essentia.js is not initialized. Call initialize() first. "
                ++ "If initialization failed, the app will use fallback detection methods.")
  end.

Definition isAvailable (c : Core) : bool :=
  isInitialized c && match essentia c with Some _ => true | None => false end.

(** cleanup (lines 294-312): nothing is reset on a core without an engine. *)
Definition cleanup (c : Core) : Core :=
  match essentia c with
  | None => c
  | Some _ => mkCore None false None (windowCache c)
  end.

(** audioBufferToMono (lines 317-335).  [mono] is a Float32Array: the
    quotient and the sum of [mono[j] += channel[j] / numberOfChannels] are
    doubles, and the store rounds the sum to single precision. *)
Definition audioBufferToMono (b : AudioBuffer) : list Q :=
  let channelData := getChannelData b 0 in
  if (numberOfChannels b =? 1)%Z then channelData
  else
    fold_left
      (fun mono i =>
         let channel := getChannelData b i in
         map (fun j =>
                Math_fround
                  (toDouble (get mono j
                             + toDouble (get channel j / inject_Z (numberOfChannels b)))))
             (range 0 (bufferLength b)))
      (range 0 (numberOfChannels b))
      (map (fun _ => 0) (range 0 (bufferLength b))).

(** getHannWindow (lines 922-934) *)
Fixpoint cacheGet (cache : list (Z * list Q)) (size : Z) : option (list Q) :=
  match cache with
  | [] => None
  | (k, w) :: cache' => if (k =? size)%Z then Some w else cacheGet cache' size
  end.

Definition getHannWindow (h : Host) (c : Core) (size : Z) : list Q * Core :=
  match cacheGet (windowCache c) size with
  | Some cached => (cached, c)
  | None =>
      let window := hannCoefficients h size in
      (window, mkCore (essentia c) (isInitialized c) (initializationPromise c)
                      ((size, window) :: windowCache c))
  end.

(** ** detectOnsets (lines 340-439) *)

Record OnsetOptions := mkOnsetOptions {
  sensitivity : option Q;
  minDistance : option Q;
  onsetProgress : bool     (* whether [onProgress] is supplied *)
}.

Definition orDefault (x : option Q) (d : Q) : Q :=
  match x with Some q => q | None => d end.

(** The spectral flux of one frame (lines 389-398). *)
Definition spectralFlux (previousSpectrum : option (list Q)) (magnitudeArray : list Q) : Q :=
  match previousSpectrum with
  | None => 0
  | Some previous =>
      fold_left
        (fun fluxValue j =>
           let diff := get magnitudeArray j - get previous j in
           if Qgtb diff 0 then fluxValue + diff else fluxValue)
        (range 0 (Z.min (len previous) (len magnitudeArray)))
        0
  end.

(** The magnitude spectrum of the frame at offset [i] (lines 378-387). *)
Definition frameMagnitudes (e : Essentia) (hannWindow audioVector : list Q) (i : Z)
    : option (list Q) :=
  let frameSlice := firstn (Z.to_nat frameSize) (skipn (Z.to_nat i) audioVector) in
  let windowedFrame :=
    map (fun j => get frameSlice j * get hannWindow j) (range 0 frameSize) in
  match arrayToVector e windowedFrame with
  | None => None
  | Some frameVector =>
      match Spectrum e frameVector with
      | None => None
      | Some spectrumVector => vectorToArray e spectrumVector
      end
  end.

Record OnsetPass := mkOnsetPass {
  onsetFunction : list Q;
  previousSpectrum : option (list Q);
  passProgress : list Q
}.

(** The frame loop (lines 364-402),
    [for (i = 0, frameIndex = 0; i <= audioVector.length - frameSize;
          i += hopSize, frameIndex++)].
    [fuel] bounds the number of iterations; [detectOnsets] passes more than
    the loop can use. *)
Fixpoint onsetLoop (fuel : nat) (e : Essentia) (hannWindow audioVector : list Q)
    (onProgress : bool) (totalFrames : Z) (i frameIndex : Z) (st : OnsetPass)
    : list Q * option OnsetPass :=
  match fuel with
  | O => (passProgress st, Some st)
  | S fuel' =>
      if (i <=? len audioVector - frameSize)%Z then
        let p :=
          if ((0 <? frameIndex) && (frameIndex mod 10 =? 0))%Z
          then report onProgress
                 (Qmin 1 (inject_Z frameIndex / inject_Z totalFrames))
          else [] in
        match frameMagnitudes e hannWindow audioVector i with
        | None => (passProgress st ++ p, None)
        | Some magnitudeArray =>
            let fluxValue := spectralFlux (previousSpectrum st) magnitudeArray in
            onsetLoop fuel' e hannWindow audioVector onProgress totalFrames
              (i + hopSize) (frameIndex + 1)
              (mkOnsetPass (onsetFunction st ++ [fluxValue]) (Some magnitudeArray)
                           (passProgress st ++ p))
        end
      else (passProgress st, Some st)
  end.

Definition detectOnsets (h : Host) (c : Core) (audioBuffer : AudioBuffer)
    (options : OnsetOptions) : Core * Run OnsetResult :=
  match ensureInitialized c with
  | Rejected m => (c, mkRun [] (Rejected m))
  | Resolved e =>
      let sensitivity := orDefault (sensitivity options) (1 # 2) in
      let minDistance := orDefault (minDistance options) (toDouble (1 # 20)) in
      let onProgress := onsetProgress options in
      let audioVector := audioBufferToMono audioBuffer in
      let sampleRate := sampleRate audioBuffer in
      let '(hannWindow, c') := getHannWindow h c frameSize in
      let totalFrames := Z.max 1 ((len audioVector - frameSize) / hopSize) in
      match onsetLoop (S (List.length audioVector)) e hannWindow audioVector
                      onProgress totalFrames 0 0 (mkOnsetPass [] None []) with
      | (progress, None) =>
          (c', mkRun progress (Rejected (thrown e)))
      | (progress, Some st) =>
          (c', mkRun (progress ++ report onProgress 1)
                     (Resolved (pickOnsets (onsetFunction st) sensitivity minDistance
                                           sampleRate)))
      end
  end.

(** ** detectBPM (lines 444-503) *)

Record BPMResult := mkBPMResult {
  bpm : Z;
  confidence : Q
}.

(** The estimate before rounding (lines 472-490). *)
Definition rhythmEstimate (e : Essentia) (audioVectorEssentia : VectorFloat)
    (sampleRate : Q) : Q * Q :=
  match RhythmExtractor2013 e audioVectorEssentia with
  | Some rhythm =>
      (orElse (rhythm_bpm rhythm) (orElse (rhythm_tempo rhythm) 120),
       orElse (rhythm_confidence rhythm) 0)
  | None =>
      match RhythmExtractor e audioVectorEssentia sampleRate with
      | Some rhythm =>
          (orElse (rhythm_bpm rhythm) (orElse (rhythm_tempo rhythm) 120),
           orElse (rhythm_confidence rhythm) 0)
      | None => (120, 0)
      end
  end.

Definition detectBPM (c : Core) (audioBuffer : AudioBuffer) : Settled BPMResult :=
  match ensureInitialized c with
  | Rejected m => Rejected m
  | Resolved e =>
      let audioVector := audioBufferToMono audioBuffer in
      match arrayToVector e audioVector with
      | None => Resolved (mkBPMResult 120 0)
      | Some audioVectorEssentia =>
          let '(bpm, confidence) :=
            rhythmEstimate e audioVectorEssentia (sampleRate audioBuffer) in
          Resolved (mkBPMResult (Math_round bpm) confidence)
      end
  end.

(** ** cosineSimilarity and buildSimilarityMatrix (lines 702-736)

    Written over the operations of the number type; the pipeline reads them
    with the operations of doubles and the host's [Math.sqrt]. *)

Section Similarity.
Context {T : Type}.
Variables (zero : T) (add mul div : T -> T -> T) (sqrt : T -> T).
Variable isZero : T -> bool.   (* [x === 0] *)

(** The accumulation loop (lines 728-732), on [a] and [b] of one length:
    [dotProduct], [normA] and [normB]. *)
Fixpoint cosineSums (a b : list T) (acc : T * T * T) : T * T * T :=
  match a, b with
  | x :: a', y :: b' =>
      let '(dotProduct, normA, normB) := acc in
      cosineSums a' b' (add dotProduct (mul x y), add normA (mul x x),
                        add normB (mul y y))
  | _, _ => acc
  end.

Definition cosineSimilarity (a b : list T) : T :=
  if negb (List.length a =? List.length b)%nat then zero
  else
    let '(dotProduct, normA, normB) := cosineSums a b (zero, zero, zero) in
    let denominator := mul (sqrt normA) (sqrt normB) in
    if isZero denominator then zero else div dotProduct denominator.

Definition buildSimilarityMatrix (features : list (list T)) : list (list T) :=
  map (fun fi => map (fun fj => cosineSimilarity fi fj) features) features.
End Similarity.

(** [x + y], [x * y] and [x / y] of two doubles. *)
Definition addDouble (x y : Q) : Q := toDouble (x + y).
Definition mulDouble (x y : Q) : Q := toDouble (x * y).
Definition divDouble (x y : Q) : Q := toDouble (x / y).


Definition buildSimilarityMatrixQ (h : Host) : list (list Q) -> list (list Q) :=
  buildSimilarityMatrix 0 addDouble mulDouble divDouble (Math_sqrt h)
                        (fun x => Qeq_bool x 0).

(** ** detectBoundaries (lines 741-830) *)

Record SectionBoundary := mkSectionBoundary {
  startSample : Z;
  endSample : Z;
  startTime : Q;
  endTime : Q;
  label : string;
  sectionConfidence : option Q
}.

Definition getZ (a : list Z) (i : Z) : Z :=
  if (i <? 0)%Z then 0%Z else nth (Z.to_nat i) a 0%Z.

Definition getRow (m : list (list Q)) (i : Z) : list Q :=
  if (i <? 0)%Z then [] else nth (Z.to_nat i) m [].

(** The checkerboard novelty at frame [i] (lines 756-762). *)
Definition noveltyAt (similarityMatrix : list (list Q)) (kernelSize i : Z) : Q :=
  fold_left
    (fun novelty k =>
       fold_left
         (fun novelty l =>
            let sign := if (0 <=? k * l)%Z then 1 else -1 in
            novelty + sign * get (getRow similarityMatrix (i + k)) (i + l))
         (range (- kernelSize) (kernelSize + 1)) novelty)
    (range (- kernelSize) (kernelSize + 1)) 0.

Definition noveltyFunction (similarityMatrix : list (list Q)) (kernelSize : Z) : list Q :=
  map (noveltyAt similarityMatrix kernelSize)
      (range kernelSize (len similarityMatrix - kernelSize)).

Definition lastZ (a : list Z) : Z := getZ a (len a - 1).

(** One iteration of the peak loop (lines 770-785). *)
Definition boundaryStep (novelty : list Q) (threshold : Q) (kernelSize : Z)
    (hopSize : Z) (sampleRate duration minSectionDuration : Q) (boundaries : list Z) (i : Z) : list Z :=
  if isPeak novelty threshold i then
    let timeInSeconds := inject_Z ((i + kernelSize) * hopSize) / sampleRate in
    let minTime :=
      if (0 <? len boundaries)%Z
      then inject_Z (lastZ boundaries * hopSize) / sampleRate + minSectionDuration
      else 0 in
    if Qle_bool minTime timeInSeconds
       && Qltb timeInSeconds (duration - minSectionDuration)
    then boundaries ++ [(i + kernelSize)%Z]
    else boundaries
  else boundaries.

(** The candidate boundaries, in frames (lines 766-788). *)
Definition candidateBoundaries (similarityMatrix : list (list Q))
    (sampleRate : Q) (hopSize : Z) (duration minSectionDuration : Q) : list Z :=
  let n := len similarityMatrix in
  let kernelSize := Math_floor (3 * sampleRate / inject_Z hopSize) in
  let novelty := noveltyFunction similarityMatrix kernelSize in
  let threshold := calculateThreshold novelty (3 # 10) in
  let boundaries :=
    fold_left (boundaryStep novelty threshold kernelSize hopSize sampleRate
                            duration minSectionDuration)
              (range 1 (len novelty - 1)) [0%Z] in
  boundaries ++ [(n - 1)%Z].

(** The search for the shortest gap (lines 792-801): [minDistance]
    ([None] is [+Infinity]) and [minIndex]. *)
Definition gapStep (boundaries : list Z) (st : option Z * Z) (i : Z) : option Z * Z :=
  let distance := (getZ boundaries (i + 1) - getZ boundaries i)%Z in
  match fst st with
  | None => (Some distance, i)
  | Some minDistance =>
      if (distance <? minDistance)%Z then (Some distance, i) else st
  end.

Definition shortestGap (boundaries : list Z) : Z :=
  snd (fold_left (gapStep boundaries) (range 0 (len boundaries - 1)) (None, (-1)%Z)).

(** [boundaries.splice(index, 1)] *)
Definition splice1 (boundaries : list Z) (index : Z) : list Z :=
  firstn (Z.to_nat index) boundaries ++ skipn (S (Z.to_nat index)) boundaries.

(** The budget loop (lines 791-808); every iteration that does not break
    removes one boundary, so [fuel = boundaries.length] is never used up. *)
Fixpoint mergeLoop (fuel : nat) (boundaries : list Z) (maxSections : Z) : list Z :=
  match fuel with
  | O => boundaries
  | S fuel' =>
      if (maxSections + 1 <? len boundaries)%Z then
        let minIndex := shortestGap boundaries in
        if (0 <=? minIndex)%Z
        then mergeLoop fuel' (splice1 boundaries (minIndex + 1)) maxSections
        else boundaries
      else boundaries
  end.

Definition mergeBoundaries (boundaries : list Z) (maxSections : Z) : list Z :=
  mergeLoop (List.length boundaries) boundaries maxSections.

(** The section between boundaries [i] and [i + 1] (lines 812-826); the
    quotients and the products with the sample rate round, as in the peak
    loop of detectOnsets. *)
Definition sectionAt (boundaries : list Z) (sampleRate : Q) (hopSize : Z) (i : Z)
    : SectionBoundary :=
  let startFrame := getZ boundaries i in
  let endFrame := getZ boundaries (i + 1) in
  let startTime := toDouble (inject_Z (startFrame * hopSize) / sampleRate) in
  let endTime := toDouble (inject_Z (endFrame * hopSize) / sampleRate) in
  let startSample := Math_floor (toDouble (startTime * sampleRate)) in
  let endSample := Math_floor (toDouble (endTime * sampleRate)) in
  mkSectionBoundary startSample endSample startTime endTime "" None.

Definition toSections (boundaries : list Z) (sampleRate : Q) (hopSize : Z)
    : list SectionBoundary :=
  map (sectionAt boundaries sampleRate hopSize) (range 0 (len boundaries - 1)).

Definition detectBoundaries (similarityMatrix : list (list Q)) (energyProfile : list Q)
    (sampleRate : Q) (hopSize : Z) (duration : Q) (maxSections : Z)
    (minSectionDuration : Q) : list SectionBoundary :=
  let boundaries :=
    candidateBoundaries similarityMatrix sampleRate hopSize duration
                        minSectionDuration in
  toSections (mergeBoundaries boundaries maxSections) sampleRate hopSize.

(** ** labelSections (lines 835-901) *)

(** The average energy of one section (lines 845-855). *)
Definition sectionEnergy (energyProfile : list Q) (boundary : SectionBoundary) : Q :=
  let startFrame := Math_floor (startTime boundary * (441 # 10)) in
  let endFrame := Math_floor (endTime boundary * (441 # 10)) in
  let '(sum, count) :=
    fold_left (fun '(sum, count) i => (sum + get energyProfile i, (count + 1)%Z))
              (range startFrame (Z.min endFrame (len energyProfile)))
              (0, 0%Z) in
  if (0 <? count)%Z then sum / inject_Z count else 0.

(** [Math.max(...values)]; [None] is [-Infinity]. *)
Definition Math_max (values : list Q) : option Q :=
  fold_left (fun m v => match m with
                        | None => Some v
                        | Some x => Some (if Qltb x v then v else x)
                        end)
            values None.

Definition normalizeEnergy (maxEnergy : option Q) (e : Q) : Q :=
  match maxEnergy with
  | Some m => if Qgtb m 0 then e / m else 0
  | None => 0
  end.

(** The decision chain (lines 866-891). *)
Definition sectionLabel (index count : Z) (energy position : Q) : string :=
  if (index =? 0)%Z && Qltb position (1 # 10) then "Intro"
  else if (index =? count - 1)%Z && Qgtb position (8 # 10) then "Outro"
  else if Qgtb energy (7 # 10) then "Chorus"
  else if Qgtb energy (4 # 10) then "Verse"
  else if Qltb energy (3 # 10) then
    (if Qgtb position (1 # 2) then "Bridge" else "Break")
  else "Verse".

(** The decimal text of an index, as a template literal prints it. *)
Definition decimal (n : Z) : string := NilZero.string_of_int (Z.to_int n).

Definition labelSections (boundaries : list SectionBoundary) (energyProfile : list Q)
    (duration : Q) : list SectionBoundary :=
  match boundaries with
  | [] => boundaries
  | _ =>
      let sectionEnergies := map (sectionEnergy energyProfile) boundaries in
      let maxEnergy := Math_max sectionEnergies in
      let normalizedEnergies := map (normalizeEnergy maxEnergy) sectionEnergies in
      map (fun index =>
             let boundary := nth (Z.to_nat index) boundaries
                                 (mkSectionBoundary 0 0 0 0 "" None) in
             let energy := get normalizedEnergies index in
             let position := startTime boundary / duration in
             let label := sectionLabel index (len boundaries) energy position in
             mkSectionBoundary (startSample boundary) (endSample boundary)
               (startTime boundary) (endTime boundary)
               (label ++ " " ++ decimal (index + 1))
               (Some energy))
          (range 0 (len boundaries))
  end.

(** ** detectSongStructure (lines 508-697) *)

Record StructureOptions := mkStructureOptions {
  maxSections : option Z;
  minSectionDuration : option Q;
  structureProgress : bool     (* whether [onProgress] is supplied *)
}.

Record SongStructureResult := mkSongStructureResult {
  boundaries : list SectionBoundary;
  structureBpm : Z
}.

Record Features := mkFeatures {
  chromaFeatures : list (list Q);
  mfccFeatures : list (list Q);
  energyProfile : list Q;
  featureProgress : list Q
}.

Definition zeros (n : nat) : list Q := repeat 0 n.

(** [Math.sqrt(sumSquared / frame.length)] (lines 574-580 and 633-637). *)
Definition frameRms (h : Host) (frame : list Q) : Q :=
  let sumSquared := fold_left (fun s x => s + x * x) frame 0 in
  Math_sqrt h (sumSquared / inject_Z (len frame)).

(** The chroma vector of a converted frame (lines 586-597). *)
Definition frameChroma (e : Essentia) (frameVector : VectorFloat) (sampleRate : Q)
    : list Q :=
  match Chromagram e frameVector sampleRate with
  | None => zeros 12
  | Some chromaResult =>
      match vectorToArray e chromaResult with
      | None => zeros 12
      | Some chroma => if (List.length chroma =? 12)%nat then chroma else zeros 12
      end
  end.

(** The MFCC vector of a converted frame (lines 602-630). *)
Definition frameMfcc (e : Essentia) (frameVector : VectorFloat) (sampleRate : Q)
    : list Q :=
  let pipeline :=
    match Windowing e frameVector with
    | None => None
    | Some windowed =>
        match arrayToVector e windowed with
        | None => None
        | Some windowedVector =>
            match Spectrum e windowedVector with
            | None => None
            | Some spectrum =>
                match arrayToVector e spectrum with
                | None => None
                | Some spectrumVector =>
                    match MFCC e spectrumVector sampleRate with
                    | None => None
                    | Some mfccResult => vectorToArray e mfccResult
                    end
                end
            end
        end
    end in
  let mfcc :=
    match pipeline with
    | Some mfcc => if (List.length mfcc =? 0)%nat then zeros 13 else mfcc
    | None =>
        match RMS e frameVector with
        | Some rms => [orElse rms 0]
        | None => zeros 13
        end
    end in
  if (0 <? List.length mfcc)%nat then mfcc else zeros 13.

(** One iteration of the feature loop (lines 538-638). *)
Definition featureStep (h : Host) (e : Essentia) (audioVector : list Q)
    (sampleRate : Q) (onProgress : bool) (numFrames : Z) (st : Features) (i : Z)
    : Features :=
  let p :=
    if ((0 <? i) && (i mod 5 =? 0))%Z
    then (if (0 <? numFrames)%Z
          then report onProgress ((6 # 10) * (inject_Z i / inject_Z numFrames))
          else [])
    else [] in
  let start := (i * hopSize)%Z in
  let end_ := Z.min (start + frameSize) (len audioVector) in
  let frame := firstn (Z.to_nat (end_ - start)) (skipn (Z.to_nat start) audioVector) in
  match arrayToVector e frame with
  | None =>
      let chroma :=
        map (fun j => if (j <? Z.min (len frame) 12)%Z then Qabs (get frame j) else 0)
            (range 0 12) in
      let rms := frameRms h frame in
      let mfcc := 0 :: rms :: zeros 11 in
      mkFeatures (chromaFeatures st ++ [chroma]) (mfccFeatures st ++ [mfcc])
                 (energyProfile st ++ [rms]) (featureProgress st ++ p)
  | Some frameVector =>
      mkFeatures (chromaFeatures st ++ [frameChroma e frameVector sampleRate])
                 (mfccFeatures st ++ [frameMfcc e frameVector sampleRate])
                 (energyProfile st ++ [frameRms h frame])
                 (featureProgress st ++ p)
  end.

Definition extractFeatures (h : Host) (e : Essentia) (audioVector : list Q)
    (sampleRate : Q) (onProgress : bool) : Features :=
  let numFrames := ((len audioVector - frameSize) / hopSize)%Z in
  fold_left (featureStep h e audioVector sampleRate onProgress numFrames)
            (range 0 numFrames) (mkFeatures [] [] [] []).

(** [cAtTempo] is the core as the tempo stage finds it: the feature loop
    awaits between chunks of frames, and a [cleanup] served in between
    (the worker handles messages while an analysis is suspended) leaves the
    core uninitialized.  An engine that is gone during the feature loop
    shows as feature calls that throw, that is, as [None] results of [e]. *)
Definition detectSongStructure (h : Host) (c cAtTempo : Core) (audioBuffer : AudioBuffer)
    (options : StructureOptions) : Run SongStructureResult :=
  match ensureInitialized c with
  | Rejected m => mkRun [] (Rejected m)
  | Resolved e =>
      let maxSections := match maxSections options with Some m => m | None => 8%Z end in
      let minSectionDuration := orDefault (minSectionDuration options) 5 in
      let onProgress := structureProgress options in
      let audioVector := audioBufferToMono audioBuffer in
      let sampleRate := sampleRate audioBuffer in
      let duration := duration audioBuffer in
      let features := extractFeatures h e audioVector sampleRate onProgress in
      let p1 := featureProgress features ++ report onProgress (6 # 10) in
      let similarityMatrix := buildSimilarityMatrixQ h (chromaFeatures features) in
      let p2 := p1 ++ report onProgress (8 # 10) in
      let boundaries :=
        detectBoundaries similarityMatrix (energyProfile features) sampleRate hopSize
                         duration maxSections minSectionDuration in
      let p3 := p2 ++ report onProgress (9 # 10) in
      let labeledBoundaries :=
        labelSections boundaries (energyProfile features) duration in
      let p4 := p3 ++ report onProgress (95 # 100) in
      match detectBPM cAtTempo audioBuffer with
      | Resolved bpmResult =>
          mkRun (p4 ++ report onProgress 1)
                (Resolved (mkSongStructureResult labeledBoundaries (bpm bpmResult)))
      | Rejected m =>
          mkRun (p4 ++ report onProgress 1) (Rejected m)
      end
  end.

(** ** A concrete host and engine, for runs on concrete buffers *)

(** The Hann table through the rational approximation
    [sin (pi t) ~ 16 t (1 - t) / (5 - 4 t (1 - t))] on [0 <= t <= 1]:
    [0.5 * (1 - cos (2 pi t))] is [sin (pi t)] squared. *)
Definition hannApprox (size : Z) : list Q :=
  map (fun n =>
         let t := inject_Z n / inject_Z (size - 1) in
         let s := 16 * t * (1 - t) / (5 - 4 * t * (1 - t)) in
         s * s)
      (range 0 size).

(** The host whose [Math.sqrt] is the correctly rounded square root. *)
Definition doubleHost : Host := mkHost Math_sqrt64 hannApprox.

(** An engine whose every call throws. *)
Definition failingEssentia : Essentia :=
  mkEssentia (fun _ => None) (fun _ => None) (fun _ => None) (fun _ => None)
             (fun _ _ => None) (fun _ _ => None) (fun _ => None)
             (fun _ => None) (fun _ _ => None) "not implemented".

Definition failingCore : Core :=
  mkCore (Some failingEssentia) true (Some (Resolved tt)) [].

Definition monoBuffer (samples : list Q) (sampleRate : Q) : AudioBuffer :=
  mkAudioBuffer sampleRate (toDouble (inject_Z (len samples) / sampleRate)) [samples].

(** ** Ghost definitions of the proofs *)

(** [S[i][j]] *)
Definition entry (m : list (list Q)) (i j : nat) : Q :=
  nth j (nth i m []) 0.


(** The last entry of an array, if any. *)
Fixpoint lastOpt {A : Type} (l : list A) : option A :=
  match l with
  | [] => None
  | [x] => Some x
  | _ :: l' => lastOpt l'
  end.

(** The time of frame [k], in seconds (line 422), and the sample index
    computed from it (line 423). *)
Definition frameTime (sr : Q) (k : Z) : Q := toDouble (inject_Z (k * hopSize) / sr).

Definition frameSample (sr : Q) (k : Z) : Z :=
  Math_floor (toDouble (frameTime sr k * sr)).

(** [2^-53], the relative error of one rounding to a double. *)
Definition ulp53 : Q := 1 # 9007199254740992.

(** Accepted frames are at least [minDistanceFrames] apart. *)
Definition apart (minDistanceFrames : Z) (a b : Z) : Prop :=
  (a < b /\ minDistanceFrames <= b - a)%Z.

(** What the peak loop of detectOnsets keeps true when it reaches frame [i]. *)
Definition peakInv (minDistanceFrames : Z) (sr : Q) (i : Z) (st : PeakState) : Prop :=
  exists frames : list Z,
    onsets st = map (frameSample sr) frames /\
    onsetTimes st = map (frameTime sr) frames /\
    lastOnsetFrame st = lastOpt frames /\
    Forall (fun k => (k < i)%Z) frames /\
    Sorted (apart minDistanceFrames) frames.

(** An engine with a one-band spectrum (the sum of the magnitudes of the
    frame) and a fixed tempo estimate; its other calls throw. *)
Definition bandEssentia : Essentia :=
  mkEssentia (fun a => Some a) (fun v => Some v)
             (fun v => Some [fold_left (fun s x => Qred (s + Qabs x)) v 0])
             (fun _ => None) (fun _ _ => None) (fun _ _ => None) (fun _ => None)
             (fun _ => Some (mkRhythm (Some (2411 # 20)) None (Some (3 # 1))))
             (fun _ _ => None) "not implemented".

Definition bandCore : Core := mkCore (Some bandEssentia) true (Some (Resolved tt)) [].

(** The gap that starts at boundary [i] (line 796). *)
Definition gap (boundaries : list Z) (i : Z) : Z :=
  (getZ boundaries (i + 1) - getZ boundaries i)%Z.

(** The stages of detectSongStructure on an engine [e], named for the
    statements below: the features, the similarity matrix, the candidate
    boundaries before the budget loop, and the sections before labelling. *)
Definition structureFeatures (h : Host) (e : Essentia) (audioBuffer : AudioBuffer)
    (options : StructureOptions) : Features :=
  extractFeatures h e (audioBufferToMono audioBuffer) (sampleRate audioBuffer)
                  (structureProgress options).

Definition structureMatrix (h : Host) (e : Essentia) (audioBuffer : AudioBuffer)
    (options : StructureOptions) : list (list Q) :=
  buildSimilarityMatrixQ h (chromaFeatures (structureFeatures h e audioBuffer options)).

Definition maxSectionsOf (options : StructureOptions) : Z :=
  match maxSections options with Some m => m | None => 8%Z end.

Definition structureCandidates (h : Host) (e : Essentia) (audioBuffer : AudioBuffer)
    (options : StructureOptions) : list Z :=
  candidateBoundaries (structureMatrix h e audioBuffer options) (sampleRate audioBuffer)
                      hopSize (duration audioBuffer)
                      (orDefault (minSectionDuration options) 5).

Definition structureSections (h : Host) (e : Essentia) (audioBuffer : AudioBuffer)
    (options : StructureOptions) : list SectionBoundary :=
  toSections (mergeBoundaries (structureCandidates h e audioBuffer options)
                              (maxSectionsOf options))
             (sampleRate audioBuffer) hopSize.

(** The normalized energy of section [k] (lines 843-860). *)
Definition normalizedEnergy (boundaries : list SectionBoundary) (energyProfile : list Q)
    (k : Z) : Q :=
  let sectionEnergies := map (sectionEnergy energyProfile) boundaries in
  get (map (normalizeEnergy (Math_max sectionEnergies)) sectionEnergies) k.

(** The similarity matrix of [n] frames of which the frames before [t]
    share one chroma vector, the frames after [t] share another, orthogonal
    to the first, and frame [t] is silent (its cosine similarities are 0). *)
Definition twoBlocks (n t : Z) : list (list Q) :=
  map (fun i =>
         map (fun j =>
                if ((i =? t) || (j =? t))%Z then 0
                else if Bool.eqb (i <? t)%Z (j <? t)%Z then 1 else 0)
             (range 0 n))
      (range 0 n).

(** Following the spec's words, for comparison with [sectionEnergy]: the
    mean energy over the frame range of a section, the frames from
    [startSample / hopSize] up to [endSample / hopSize]. *)
Definition specSectionEnergy (energyProfile : list Q) (hopSize : Z)
    (boundary : SectionBoundary) : Q :=
  let startFrame := (startSample boundary / hopSize)%Z in
  let endFrame := (endSample boundary / hopSize)%Z in
  let frames := range startFrame (Z.min endFrame (len energyProfile)) in
  if (0 <? len frames)%Z
  then fold_left (fun sum i => sum + get energyProfile i) frames 0 / inject_Z (len frames)
  else 0.

(** Following the spec's words: that mean, normalized by the maximum over
    all sections. *)
Definition specConfidence (boundaries : list SectionBoundary) (energyProfile : list Q)
    (hopSize : Z) (k : Z) : Q :=
  let sectionEnergies := map (specSectionEnergy energyProfile hopSize) boundaries in
  get (map (normalizeEnergy (Math_max sectionEnergies)) sectionEnergies) k.

(** ** initialize (lines 193-270)

    What [initialize] finds when it runs: a browser-like global scope,
    WebAssembly, the module variables [Essentia] and [EssentiaWASM] (lines
    156-157) as earlier calls left them, and what the dynamic imports of
    lines 219-233 come to.  A module is one of three things: one with an
    [init] function, whose call throws, returns a promise that rejects, or
    gives the engine; a class to be constructed on [EssentiaWASM], which
    throws or gives the engine; or neither.  A message is the [message] of
    the error thrown. *)
Inductive InitOutcome :=
| initThrows (message : string)
| initRejects (message : string)
| initGives (e : Essentia).

Inductive EssentiaModule :=
| initApi (init : InitOutcome)
| constructorApi (construct : Settled Essentia)
| noApi.

Record Environment := mkEnvironment {
  hasGlobalScope : bool;
  hasWebAssembly : bool;
  loadedModule : option EssentiaModule;
  importModule : Settled EssentiaModule
}.

(** Lines 246-262: whether the engine comes out of an [await], and the
    engine or the error of the catch block. *)
Definition startEngine (api : EssentiaModule) : bool * Settled Essentia :=
  match api with
  | initApi (initThrows m) =>
      (false, Rejected ("Essentia.js initialization failed: " ++ m))
  | initApi (initRejects m) =>
      (true, Rejected ("Essentia.js initialization failed: " ++ m))
  | initApi (initGives e) => (true, Resolved e)
  | constructorApi (Rejected m) =>
      (false, Rejected ("Essentia.js initialization failed: " ++ m))
  | constructorApi (Resolved e) => (false, Resolved e)
  | noApi =>
      (false, Rejected ("Essentia.js initialization failed: "
                        ++ "Essentia.js init method not found"))
  end.

(** The try block of lines 203-262: whether something was awaited before it
    ended, and the engine or the error it ends with. *)
Definition loadEngine (env : Environment) : bool * Settled Essentia :=
  if negb (hasGlobalScope env) then
    (false, Rejected "Essentia.js can only be initialized in browser-like environments")
  else if negb (hasWebAssembly env) then
    (false, Rejected "WebAssembly is not supported in this browser")
  else
    match loadedModule env with
    | Some api => startEngine api
    | None =>
        match importModule env with
        | Rejected m => (true, Rejected ("Failed to import Essentia.js: " ++ m))
        | Resolved api => (true, snd (startEngine api))
        end
    end.

(** initialize, from the call to the settlement of the promise it returns.
    The catch block of line 263 resets [initializationPromise]; line 202
    stores the promise of the body once the body has run to its first
    [await].  An error thrown before any [await] is therefore caught before
    line 202 stores the promise, which then stays, rejected; an error after
    an [await] leaves [null]. *)
Definition initialize (env : Environment) (c : Core) : Core * Settled unit :=
  if isInitialized c then (c, Resolved tt)
  else
    match initializationPromise c with
    | Some promise => (c, promise)
    | None =>
        match loadEngine env with
        | (_, Resolved e) =>
            (mkCore (Some e) true (Some (Resolved tt)) (windowCache c), Resolved tt)
        | (true, Rejected m) =>
            (mkCore (essentia c) (isInitialized c) None (windowCache c), Rejected m)
        | (false, Rejected m) =>
            (mkCore (essentia c) (isInitialized c) (Some (Rejected m)) (windowCache c),
             Rejected m)
        end
    end.

(** [new AudioAnalysisCore()] (lines 185-188) *)
Definition newCore : Core := mkCore None false None [].

(** A browser in which Essentia.js is yet to be imported and its [init]
    gives the engine [e], and one without WebAssembly. *)
Definition loadingBrowser (e : Essentia) : Environment :=
  mkEnvironment true true None (Resolved (initApi (initGives e))).

Definition browserWithoutWebAssembly : Environment :=
  mkEnvironment true false None (Rejected "Cannot find module").

(** An engine that only looks at the first four samples of the frame it is
    given and returns their magnitudes as the spectrum; its other calls
    throw. *)
Definition headEssentia : Essentia :=
  mkEssentia (fun a => Some (firstn 4 a)) (fun v => Some v)
             (fun v => Some (map Qabs v))
             (fun _ => None) (fun _ _ => None) (fun _ _ => None) (fun _ => None)
             (fun _ => None) (fun _ _ => None) "not implemented".

Definition headCore : Core := mkCore (Some headEssentia) true (Some (Resolved tt)) [].

(** Silence of [n] samples with the pulse [a[k]] at sample [512 k + 1]. *)
Definition pulses (a : list Q) (n : Z) : list Q :=
  map (fun i => if (i mod 512 =? 1)%Z then get a (i / 512) else 0) (range 0 n).

(** Three frames' worth of silence at 44100 Hz, and what detectSongStructure
    returns for it on an engine whose calls throw. *)
Definition silence3072 : AudioBuffer := monoBuffer (repeat 0 3072) 44100.

Definition silence3072Result : SongStructureResult :=
  mkSongStructureResult
    [mkSectionBoundary 0 512 0 (toDouble (512 # 44100)) "Intro 1" (Some 0)] 120.

Definition defaultStructureOptions : StructureOptions :=
  mkStructureOptions None None true.

(** * MediaLibrary (src/lib/media-library.ts, lines 16-148) *)

Module MediaLibrary.

Inductive MediaType := video | image.

(** Of a [File] the class reads the name only. *)
Record File := mkFile { file_name : string }.

Record MediaItem := mkMediaItem {
  id : string;
  type : MediaType;
  file : File;
  url : string;
  thumbnail : string;
  duration : option Q;
  sliceId : option Z;
  name : string
}.

(** A JavaScript [Map]: its entries in insertion order, one per key.
    [set] on a present key replaces the value where it stands, on an absent
    key appends the entry; [delete] removes the entry of the key. *)
Section JsMap.
Context {K V : Type}.
Variable eqb : K -> K -> bool.

Fixpoint mapGet (m : list (K * V)) (k : K) : option V :=
  match m with
  | [] => None
  | (k', v) :: m' => if eqb k' k then Some v else mapGet m' k
  end.

Fixpoint mapSet (m : list (K * V)) (k : K) (v : V) : list (K * V) :=
  match m with
  | [] => [(k, v)]
  | (k', v') :: m' => if eqb k' k then (k', v) :: m' else (k', v') :: mapSet m' k v
  end.

Fixpoint mapDelete (m : list (K * V)) (k : K) : list (K * V) :=
  match m with
  | [] => []
  | (k', v') :: m' => if eqb k' k then m' else (k', v') :: mapDelete m' k
  end.

End JsMap.

(** The two maps of the class, and the object URLs that the class has
    revoked so far (the calls of [URL.revokeObjectURL], in order).  An item
    is one object, held by [items] under its id: writing its [sliceId]
    changes what every later lookup returns. *)
Record State := mkState {
  items : list (string * MediaItem);
  sliceMediaMap : list (Z * string);
  revoked : list string
}.

(** [new MediaLibrary()] *)
Definition empty : State := mkState [] [] [].

(** What the browser supplies to one [addMedia]: the clock and the random
    suffix of the id, the two object URLs ([addMedia] and [generateThumbnail]
    create one each), the outcome of loading the video for its first frame
    ([None]: the events never fire and the promise stays pending;
    [Some None]: no 2d context; [Some (Some dataUrl)]: the JPEG of the
    frame), and the duration once the metadata is loaded ([None]: never). *)
Record Browser := mkBrowser {
  now : string;
  randomSuffix : string;
  objectUrl : string;
  thumbnailObjectUrl : string;
  firstFrame : option (option string);
  videoDuration : option Q
}.

(** generateThumbnail (lines 48-85); [None] is a promise that never settles. *)
Definition generateThumbnail (env : Browser) (type : MediaType) : option string :=
  match type with
  | image => Some (thumbnailObjectUrl env)
  | video =>
      match firstFrame env with
      | None => None
      | Some (Some thumbnailUrl) => Some thumbnailUrl
      | Some None => Some (thumbnailObjectUrl env)
      end
  end.

(** getVideoDuration (lines 88-98) *)
Definition getVideoDuration (env : Browser) : option Q := videoDuration env.

(** addMedia (lines 21-45); the item is [None] when the call never
    returns, and then nothing was stored. *)
Definition addMedia (env : Browser) (lib : State) (file : File) (type : MediaType)
    : State * option MediaItem :=
  let id := ("media-" ++ now env ++ "-" ++ randomSuffix env)%string in
  let url := objectUrl env in
  match generateThumbnail env type with
  | None => (lib, None)
  | Some thumbnail =>
      let duration :=
        match type with
        | video => match getVideoDuration env with
                   | Some d => Some (Some d)
                   | None => None
                   end
        | image => Some None
        end in
      match duration with
      | None => (lib, None)
      | Some duration =>
          let mediaItem :=
            mkMediaItem id type file url thumbnail duration None (file_name file) in
          (mkState (mapSet String.eqb (items lib) id mediaItem) (sliceMediaMap lib)
                   (revoked lib),
           Some mediaItem)
      end
  end.

(** assignToSlice (lines 101-107) *)
Definition assignToSlice (lib : State) (mediaId : string) (sliceId : Z) : State :=
  match mapGet String.eqb (items lib) mediaId with
  | Some media =>
      let media' :=
        mkMediaItem (id media) (type media) (file media) (url media) (thumbnail media)
                    (duration media) (Some sliceId) (name media) in
      mkState (mapSet String.eqb (items lib) mediaId media')
              (mapSet Z.eqb (sliceMediaMap lib) sliceId mediaId)
              (revoked lib)
  | None => lib
  end.

(** getMediaForSlice (lines 110-113); the empty string is falsy. *)
Definition getMediaForSlice (lib : State) (sliceId : Z) : option MediaItem :=
  match mapGet Z.eqb (sliceMediaMap lib) sliceId with
  | Some mediaId =>
      if String.eqb mediaId "" then None else mapGet String.eqb (items lib) mediaId
  | None => None
  end.

(** getAllMedia (lines 116-118) *)
Definition getAllMedia (lib : State) : list MediaItem := map snd (items lib).

(** getMedia (lines 121-123) *)
Definition getMedia (lib : State) (id : string) : option MediaItem :=
  mapGet String.eqb (items lib) id.

(** removeMedia (lines 126-135) *)
Definition removeMedia (lib : State) (id : string) : State :=
  match mapGet String.eqb (items lib) id with
  | Some media =>
      mkState (mapDelete String.eqb (items lib) id)
              (match sliceId media with
               | Some s => mapDelete Z.eqb (sliceMediaMap lib) s
               | None => sliceMediaMap lib
               end)
              (revoked lib ++ [url media])
  | None => lib
  end.

(** clear (lines 138-144) *)
Definition clear (lib : State) : State :=
  mkState [] [] (revoked lib ++ map (fun media => url media) (map snd (items lib))).

(** What every library built by the methods satisfies: [items] and
    [sliceMediaMap] hold one entry per key, and an item is held under its
    own id, which starts with "media-". *)
Definition wellFormed (lib : State) : Prop :=
  NoDup (map fst (items lib)) /\
  NoDup (map fst (sliceMediaMap lib)) /\
  Forall (fun entry => id (snd entry) = fst entry /\ fst entry <> ""%string) (items lib).

(** The calls of the class. *)
Inductive Call :=
| callAdd (env : Browser) (file : File) (type : MediaType)
| callAssign (mediaId : string) (sliceId : Z)
| callRemove (id : string)
| callClear.

Definition perform (lib : State) (call : Call) : State :=
  match call with
  | callAdd env file type => fst (addMedia env lib file type)
  | callAssign mediaId sliceId => assignToSlice lib mediaId sliceId
  | callRemove id => removeMedia lib id
  | callClear => clear lib
  end.

(** A browser in which a video loads, and two items added in it. *)
Definition browser (stamp suffix : string) : Browser :=
  mkBrowser stamp suffix ("blob:" ++ suffix)%string ("blob:thumb-" ++ suffix)%string
            (Some (Some "data:image/jpeg;base64,"%string)) (Some 12).

Definition twoItems : State :=
  perform (perform empty (callAdd (browser "1700000000000"%string "a1"%string)
                                  (mkFile "clip.mp4"%string) video))
          (callAdd (browser "1700000000001"%string "b2"%string)
                   (mkFile "still.png"%string) image).

End MediaLibrary.

(** The item [media] as assignToSlice leaves it (line 104). *)
Definition assigned (media : MediaLibrary.MediaItem) (sliceId : Z) : MediaLibrary.MediaItem :=
  MediaLibrary.mkMediaItem (MediaLibrary.id media) (MediaLibrary.type media)
    (MediaLibrary.file media) (MediaLibrary.url media) (MediaLibrary.thumbnail media)
    (MediaLibrary.duration media) (Some sliceId) (MediaLibrary.name media).

(** * The analysis worker and its client

    The messages that the worker posts (src/QUEUE_SLICE_SYSTEM.md, lines
    301-367) and the client reads (src/lib/media-library.ts, lines 981-1003). *)

Inductive WorkerEvent := evResult | evError | evProgress | evInitialized.

Inductive Payload :=
| noPayload
| onsetPayload (result : OnsetResult)
| bpmPayload (result : BPMResult)
| structurePayload (result : SongStructureResult)
| emptyObject
| progressPayload (progress : Q).

Record WorkerResponse := mkWorkerResponse {
  responseId : Z;
  responseEvent : WorkerEvent;
  responsePayload : Payload;
  responseError : option string     (* [error.message] *)
}.

(** A command with the payload that the client sends along. *)
Inductive WorkerCommand :=
| INIT
| DETECT_ONSETS (samples : list Q) (sampleRate : Q) (sensitivity minDistance : option Q)
| DETECT_BPM (samples : list Q) (sampleRate : Q)
| DETECT_STRUCTURE (samples : list Q) (sampleRate : Q) (duration : option Q)
                   (maxSections : option Z) (minSectionDuration : option Q)
| CLEANUP
| otherCommand (command : string).

Record WorkerRequest := mkWorkerRequest {
  requestId : Z;
  requestCommand : WorkerCommand
}.

(** ** The worker (src/QUEUE_SLICE_SYSTEM.md, lines 253-367)

    The state is the variable [core]; a request is handled to its end before
    the next one is looked at, so the core of the tempo stage of
    detectSongStructure is the one of its start. *)
Module EssentiaWorker.

(** ensureCore (lines 274-280): [core] is set before [initialize] is awaited,
    and stays set when it rejects. *)
Definition ensureCore (env : Environment) (core : option Core) : option Core * Settled Core :=
  match core with
  | Some c => (Some c, Resolved c)
  | None =>
      let '(c, r) := initialize env newCore in
      (Some c, match r with
               | Resolved _ => Resolved c
               | Rejected m => Rejected m
               end)
  end.

(** createMonoBuffer (lines 286-299); its [getChannelData] throws for a
    channel other than 0, which the core never asks of a one-channel buffer. *)
Definition createMonoBuffer (samples : list Q) (sampleRate : Q) (duration : option Q)
    : AudioBuffer :=
  mkAudioBuffer sampleRate
                (match duration with
                 | Some d => d
                 | None => toDouble (inject_Z (len samples) / sampleRate)
                 end)
                [samples].

Definition postResult (id : Z) (result : Payload) : WorkerResponse :=
  mkWorkerResponse id evResult result None.

(** [error?.message || String(error)] of an [Error]: an empty message gives
    the text "Error". *)
Definition postError (id : Z) (message : string) : WorkerResponse :=
  mkWorkerResponse id evError noPayload
                   (Some (if String.eqb message "" then "Error"%string else message)).

Definition postProgress (id : Z) (progress : Q) : WorkerResponse :=
  mkWorkerResponse id evProgress (progressPayload progress) None.

(** The messages of a run of the core: its progress values, then its
    result or its error. *)
Definition postRun {A : Type} (id : Z) (payload : A -> Payload) (run : Run A)
    : list WorkerResponse :=
  map (postProgress id) (emitted run)
  ++ [match settled run with
      | Resolved result => postResult id (payload result)
      | Rejected m => postError id m
      end].

(** ctx.onmessage (lines 301-365): the new value of [core] and the messages
    posted, in order. *)
Definition onmessage (h : Host) (env : Environment) (core : option Core)
    (request : WorkerRequest) : option Core * list WorkerResponse :=
  let id := requestId request in
  match requestCommand request with
  | INIT =>
      match ensureCore env core with
      | (core', Resolved _) => (core', [mkWorkerResponse id evInitialized noPayload None])
      | (core', Rejected m) => (core', [postError id m])
      end
  | DETECT_ONSETS samples sampleRate sensitivity minDistance =>
      match ensureCore env core with
      | (core', Rejected m) => (core', [postError id m])
      | (_, Resolved instance) =>
          let buffer := createMonoBuffer samples sampleRate None in
          let '(instance', run) :=
            detectOnsets h instance buffer (mkOnsetOptions sensitivity minDistance true) in
          (Some instance', postRun id onsetPayload run)
      end
  | DETECT_BPM samples sampleRate =>
      match ensureCore env core with
      | (core', Rejected m) => (core', [postError id m])
      | (core', Resolved instance) =>
          let buffer := createMonoBuffer samples sampleRate None in
          (core', postRun id bpmPayload (mkRun [] (detectBPM instance buffer)))
      end
  | DETECT_STRUCTURE samples sampleRate duration maxSections minSectionDuration =>
      match ensureCore env core with
      | (core', Rejected m) => (core', [postError id m])
      | (core', Resolved instance) =>
          let buffer := createMonoBuffer samples sampleRate duration in
          (core',
           postRun id structurePayload
                   (detectSongStructure h instance instance buffer
                      (mkStructureOptions maxSections minSectionDuration true)))
      end
  | CLEANUP => (None, [postResult id emptyObject])
  | otherCommand command =>
      (core, [postError id ("Unknown worker command: " ++ command)%string])
  end.

(** The worker on a sequence of requests. *)
Fixpoint serve (h : Host) (env : Environment) (core : option Core)
    (requests : list WorkerRequest) : option Core * list WorkerResponse :=
  match requests with
  | [] => (core, [])
  | request :: requests' =>
      let '(core', posted) := onmessage h env core request in
      let '(core'', later) := serve h env core' requests' in
      (core'', posted ++ later)
  end.

Definition isTerminal (response : WorkerResponse) : bool :=
  match responseEvent response with
  | evProgress => false
  | _ => true
  end.

End EssentiaWorker.

(** ** The client (src/lib/media-library.ts, lines 968-1127) *)
Module WorkerClient.

(** What the client has done so far: the requests posted to the worker,
    the calls of [onProgress] callbacks, and the settlements of the
    promises of [sendRequest], each named by the id of its request. *)
Inductive Notice :=
| posted (id : Z) (command : WorkerCommand)
| progressed (id : Z) (progress : Q)
| resolved (id : Z) (payload : Payload)
| rejected (id : Z) (message : string).

(** The fields of the class (lines 969-979); an entry of [pending] records
    whether the request has an [onProgress], its [resolve] and [reject]
    being those of the promise of its id. *)
Record Client := mkClient {
  worker : bool;
  initialized : bool;
  nextId : Z;
  pending : list (Z * bool);
  history : list Notice
}.

Definition newClient : Client := mkClient false false 0 [] [].

(** sendRequest (lines 1005-1021), with ensureWorker (lines 981-1003). *)
Definition sendRequest (c : Client) (command : WorkerCommand) (onProgress : bool)
    : Client * Z :=
  let id := (nextId c + 1)%Z in
  (mkClient true (initialized c) id
            (MediaLibrary.mapSet Z.eqb (pending c) id onProgress)
            (history c ++ [posted id command]),
   id).

(** [payload?.progress ?? 0] *)
Definition progressOf (payload : Payload) : Q :=
  match payload with
  | progressPayload progress => progress
  | _ => 0
  end.

(** The handler of the worker's messages (lines 984-1000). *)
Definition onmessage (c : Client) (response : WorkerResponse) : Client :=
  let id := responseId response in
  match MediaLibrary.mapGet Z.eqb (pending c) id with
  | None => c
  | Some onProgress =>
      match responseEvent response with
      | evProgress =>
          if onProgress
          then mkClient (worker c) (initialized c) (nextId c) (pending c)
                        (history c ++ [progressed id (progressOf (responsePayload response))])
          else c
      | evError =>
          let message :=
            match responseError response with
            | Some m => if String.eqb m "" then "Worker error"%string else m
            | None => "Worker error"%string
            end in
          mkClient (worker c) (initialized c) (nextId c)
                   (MediaLibrary.mapDelete Z.eqb (pending c) id)
                   (history c ++ [rejected id message])
      | _ =>
          mkClient (worker c) (initialized c) (nextId c)
                   (MediaLibrary.mapDelete Z.eqb (pending c) id)
                   (history c ++ [resolved id (responsePayload response)])
      end
  end.

(** What initialize does once its INIT request has resolved (line 1026). *)
Definition finishInitialize (c : Client) : Client :=
  mkClient (worker c) true (nextId c) (pending c) (history c).

(** The [finally] block of cleanup (lines 1037-1042), run once its CLEANUP
    request has settled. *)
Definition finishCleanup (c : Client) : Client :=
  mkClient false false (nextId c) [] (history c).

(** The steps that the methods of the class are made of.  Which step comes
    when is up to the callers and the worker. *)
Inductive Step :=
| stepSend (command : WorkerCommand) (onProgress : bool)
| stepReceive (response : WorkerResponse)
| stepFinishInitialize
| stepFinishCleanup.

Definition step (c : Client) (s : Step) : Client :=
  match s with
  | stepSend command onProgress => fst (sendRequest c command onProgress)
  | stepReceive response => onmessage c response
  | stepFinishInitialize => finishInitialize c
  | stepFinishCleanup => finishCleanup c
  end.

Definition settledId (n : Notice) : option Z :=
  match n with
  | resolved id _ => Some id
  | rejected id _ => Some id
  | _ => None
  end.

(** The ids of the settled promises, in the order of their settlement. *)
Definition settledIds (history : list Notice) : list Z :=
  flat_map (fun n => match settledId n with Some id => [id] | None => [] end) history.

Definition postedIds (history : list Notice) : list Z :=
  flat_map (fun n => match n with posted id _ => [id] | _ => [] end) history.

(** audioBufferToMono of the client (lines 1045-1063): the samples sent to
    the worker.  [samples] is a Float32Array: the sum and its half are
    doubles, and the store rounds the half to single precision. *)
Definition audioBufferToMono (audioBuffer : AudioBuffer) : list Q :=
  if (numberOfChannels audioBuffer =? 1)%Z then getChannelData audioBuffer 0
  else
    let left := getChannelData audioBuffer 0 in
    let right := getChannelData audioBuffer 1 in
    map (fun i => Math_fround (toDouble (toDouble (get left i + get right i) / 2)))
        (range 0 (bufferLength audioBuffer)).

(** The request of detectOnsets (lines 1065-1088) and whether it has an
    [onProgress]. *)
Definition detectOnsetsCommand (audioBuffer : AudioBuffer) (options : OnsetOptions)
    : WorkerCommand :=
  DETECT_ONSETS (audioBufferToMono audioBuffer) (sampleRate audioBuffer)
                (Some (orDefault (sensitivity options) (1 # 2)))
                (Some (orDefault (minDistance options) (toDouble (1 # 20)))).

(** The request of detectBPM (lines 1090-1100). *)
Definition detectBPMCommand (audioBuffer : AudioBuffer) : WorkerCommand :=
  DETECT_BPM (audioBufferToMono audioBuffer) (sampleRate audioBuffer).

(** The request of detectSongStructure (lines 1102-1126). *)
Definition detectSongStructureCommand (audioBuffer : AudioBuffer)
    (options : StructureOptions) : WorkerCommand :=
  DETECT_STRUCTURE (audioBufferToMono audioBuffer) (sampleRate audioBuffer)
                   (Some (duration audioBuffer))
                   (Some (match maxSections options with Some m => m | None => 8%Z end))
                   (Some (orDefault (minSectionDuration options) 5)).

End WorkerClient.

(** The request that a notice of the client is about. *)
Definition noticeId (n : WorkerClient.Notice) : Z :=
  match n with
  | WorkerClient.posted id _ => id
  | WorkerClient.progressed id _ => id
  | WorkerClient.resolved id _ => id
  | WorkerClient.rejected id _ => id
  end.

(** No notice about a request follows the settlement of its promise. *)
Definition silentOnceSettled (history : list WorkerClient.Notice) : Prop :=
  forall before n after id,
    history = before ++ n :: after ->
    WorkerClient.settledId n = Some id ->
    Forall (fun later => noticeId later <> id) after.

(** What the client keeps true: the ids handed out are 1 to [nextId], a
    pending request is one of them and is not settled, and so on. *)
Definition clientInvariant (c : WorkerClient.Client) : Prop :=
  (0 <= WorkerClient.nextId c)%Z /\
  WorkerClient.postedIds (WorkerClient.history c) = range 1 (WorkerClient.nextId c + 1) /\
  NoDup (map fst (WorkerClient.pending c)) /\
  (forall k, In k (map fst (WorkerClient.pending c)) ->
             (1 <= k <= WorkerClient.nextId c)%Z /\
             ~ In k (WorkerClient.settledIds (WorkerClient.history c))) /\
  (forall k, In k (WorkerClient.settledIds (WorkerClient.history c)) ->
             (1 <= k <= WorkerClient.nextId c)%Z) /\
  NoDup (WorkerClient.settledIds (WorkerClient.history c)) /\
  silentOnceSettled (WorkerClient.history c) /\
  (WorkerClient.pending c <> [] -> WorkerClient.worker c = true).

(** What holds after the [finally] block of a cleanup that ran when the
    last id was [N] and the settled ids were [S]. *)
Definition afterCleanup (N : Z) (S : list Z) (c : WorkerClient.Client) : Prop :=
  (N <= WorkerClient.nextId c)%Z /\
  (forall k, In k (map fst (WorkerClient.pending c)) -> (N < k)%Z) /\
  (forall k, In k (WorkerClient.settledIds (WorkerClient.history c)) -> In k S \/ (N < k)%Z).

(** * Properties *)

(** ** Rounding *)

Lemma roundHalfEven_close (x : Q) :
  Qabs (inject_Z (roundHalfEven x) - x) <= 1 # 2.
Proof.
  unfold roundHalfEven.
  pose proof (Qfloor_le x) as Hlo. pose proof (Qlt_floor x) as Hhi.
  rewrite inject_Z_plus in Hhi. change (inject_Z 1) with 1 in Hhi.
  destruct (Qcompare_spec (x - inject_Z (Qfloor x)) (1 # 2)) as [He|Hl|Hg].
  - destruct (Z.even (Qfloor x)).
    + apply Qabs_case; intros _; lra.
    + rewrite inject_Z_plus. change (inject_Z 1) with 1. apply Qabs_case; intros _; lra.
  - apply Qabs_case; intros _; lra.
  - rewrite inject_Z_plus. change (inject_Z 1) with 1. apply Qabs_case; intros _; lra.
Qed.

Lemma roundHalfEven_nonneg (x : Q) : 0 <= x -> (0 <= roundHalfEven x)%Z.
Proof.
  intro Hx. assert (H0 : (0 <= Qfloor x)%Z).
  { change 0%Z with (Qfloor 0). now apply Qfloor_resp_le. }
  unfold roundHalfEven.
  destruct (Qcompare _ _); [destruct (Z.even _)| |]; lia.
Qed.

Lemma pow2_pos (k : Z) : 0 < pow2 k.
Proof. unfold pow2. now apply Qpower_0_lt. Qed.

Lemma pow2_plus (a b : Z) : pow2 (a + b) == pow2 a * pow2 b.
Proof. unfold pow2. apply Qpower_plus. discriminate. Qed.

Lemma pow2_le (a b : Z) : (a <= b)%Z -> pow2 a <= pow2 b.
Proof. intro H. unfold pow2. apply Qpower_le_compat_l; [exact H|discriminate]. Qed.

Lemma pow2_nat (k : Z) : (0 <= k)%Z -> pow2 k == inject_Z (2 ^ k).
Proof. intro H. unfold pow2. now rewrite Zpower_Qpower. Qed.

Lemma exponentOf_lower (x : Q) : ~ x == 0 -> pow2 (exponentOf x) <= Qabs x.
Proof.
  intro Hx. unfold exponentOf.
  set (n := Z.abs (Qnum x)). set (d := Zpos (Qden x)).
  set (k := (Z.log2 n - Z.log2 d)%Z).
  destruct (Qle_bool (pow2 k) (Qabs x)) eqn:E; [now apply Qle_bool_iff|].
  assert (Hn : (0 < n)%Z).
  { subst n. destruct x as [xn xd]. unfold Qeq in Hx. simpl in *. lia. }
  assert (Hd : (0 < d)%Z) by (subst d; lia).
  pose proof (Z.log2_spec n Hn) as [Hn1 _].
  pose proof (Z.log2_spec d Hd) as [_ Hd2].
  pose proof (Z.log2_nonneg n) as Ha. pose proof (Z.log2_nonneg d) as Hb.
  assert (Habs : Qabs x == inject_Z n / inject_Z d).
  { subst n d. destruct x as [xn xd]. unfold Qabs. simpl.
    rewrite (Qmake_Qdiv (Z.abs xn) xd). reflexivity. }
  rewrite Habs.
  apply Qle_shift_div_l; [now rewrite <- (Zlt_Qlt 0)|].
  (* pow2 (k - 1) * d <= n, from 2^a <= n and d < 2^(b+1) *)
  apply Qle_trans with (pow2 (k - 1) * pow2 (Z.log2 d + 1)).
  - apply Qmult_le_l; [apply pow2_pos|].
    rewrite pow2_nat by lia. rewrite <- Zle_Qle. replace (Z.log2 d + 1)%Z with (Z.succ (Z.log2 d)) by lia. lia.
  - rewrite <- pow2_plus. replace (k - 1 + (Z.log2 d + 1))%Z with (Z.log2 n) by (subst k; lia).
    rewrite pow2_nat by lia. now rewrite <- Zle_Qle.
Qed.

Lemma roundFloat_zero (prec emin : Z) (x : Q) : x == 0 -> roundFloat prec emin x = 0.
Proof.
  intro H. unfold roundFloat. now replace (Qeq_bool x 0) with true by (symmetry; now apply Qeq_bool_iff).
Qed.

Lemma roundFloat_nonneg (prec emin : Z) (x : Q) : 0 <= x -> 0 <= roundFloat prec emin x.
Proof.
  intro H. unfold roundFloat. destruct (Qeq_bool x 0); [apply Qle_refl|].
  apply Qmult_le_0_compat.
  - rewrite <- (Zle_Qle 0). apply roundHalfEven_nonneg.
    apply Qle_shift_div_l; [apply pow2_pos|]. now rewrite Qmult_0_l.
  - apply Qlt_le_weak, pow2_pos.
Qed.

(** The rounding error is at most half a unit in the last place. *)
Lemma roundFloat_error (prec emin : Z) (x : Q) :
  pow2 (emin + prec - 1) <= Qabs x ->
  Qabs (roundFloat prec emin x - x) <= pow2 (- prec) * Qabs x.
Proof.
  intro Hnormal. unfold roundFloat.
  destruct (Qeq_bool x 0) eqn:E.
  { apply Qeq_bool_iff in E. rewrite E. 
    setoid_replace (0 - 0) with 0 by ring. simpl. rewrite Qmult_0_r. apply Qle_refl. }
  assert (Hx : ~ x == 0) by (intro H; apply Qeq_bool_iff in H; congruence).
  set (q := Z.max (exponentOf x - prec + 1) emin).
  pose proof (pow2_pos q) as Hq.
  assert (Hhalf : Qabs (inject_Z (roundHalfEven (x / pow2 q)) * pow2 q - x)
                  <= (1 # 2) * pow2 q).
  { setoid_replace (inject_Z (roundHalfEven (x / pow2 q)) * pow2 q - x)
      with ((inject_Z (roundHalfEven (x / pow2 q)) - x / pow2 q) * pow2 q)
      by (field; intro H; rewrite H in Hq; discriminate).
    rewrite Qabs_Qmult. rewrite (Qabs_pos (pow2 q)) by now apply Qlt_le_weak.
    apply Qmult_le_compat_r; [apply roundHalfEven_close|now apply Qlt_le_weak]. }
  eapply Qle_trans; [exact Hhalf|].
  assert (Hq2 : (1 # 2) * pow2 q == pow2 (- prec) * pow2 (q + prec - 1)).
  { rewrite <- pow2_plus. replace (- prec + (q + prec - 1))%Z with (-1 + q)%Z by lia.
    rewrite pow2_plus. reflexivity. }
  rewrite Hq2. apply Qmult_le_l; [apply pow2_pos|].
  subst q. destruct (Z.max_spec (exponentOf x - prec + 1) emin) as [[_ ->]|[_ ->]].
  - replace (emin + prec - 1)%Z with (emin + prec - 1)%Z by lia. exact Hnormal.
  - replace (exponentOf x - prec + 1 + prec - 1)%Z with (exponentOf x) by lia.
    now apply exponentOf_lower.
Qed.

Lemma toDouble_error (x : Q) :
  pow2 (-1022) <= Qabs x -> Qabs (toDouble x - x) <= pow2 (-53) * Qabs x.
Proof. intro H. apply roundFloat_error. exact H. Qed.

Lemma Qabs_bound (x b : Q) : Qabs x <= b -> - b <= x /\ x <= b.
Proof. intro H. apply Qabs_Qle_condition in H. exact H. Qed.

Lemma ulp53_pow2 : pow2 (-53) == ulp53.
Proof. reflexivity. Qed.

Lemma offset_in_range (A : Z) :
  (4 <= A <= 2 ^ 51)%Z -> 4 <= inject_Z A /\ inject_Z A * ulp53 <= 1 # 4.
Proof.
  intro HA.
  assert (H1 : inject_Z 4 <= inject_Z A) by (rewrite <- Zle_Qle; lia).
  assert (H2 : inject_Z A <= inject_Z (2 ^ 51)) by (rewrite <- Zle_Qle; lia).
  change (inject_Z 4) with 4 in H1.
  change (inject_Z (2 ^ 51)) with (2251799813685248 # 1) in H2.
  unfold ulp53. revert H1 H2. generalize (inject_Z A). intros z H1 H2. split; lra.
Qed.

(** An offset of [A] samples, converted to seconds and back (lines 422-423
    and 815-818): the time is within one rounding of [A / sr], and the
    product with the sample rate is less than 1 away from [A]. *)
Lemma offsetTime_near (sr : Q) (A : Z) :
  0 < sr -> sr < pow2 1024 ->
  (4 <= A <= 2 ^ 51)%Z ->
  let a := inject_Z A / sr in
  let T := toDouble a in
  Qabs (T - a) <= ulp53 * a /\
  Qabs (toDouble (T * sr) - inject_Z A) < 1.
Proof.
  intros sr_pos sr_finite HA a T.
  destruct (offset_in_range A HA) as [HA1 HAu].
  assert (Hsr0 : ~ sr == 0) by (intro E; rewrite E in sr_pos; discriminate).
  assert (Ha : 0 < a).
  { subst a. apply Qlt_shift_div_l; [exact sr_pos|]. rewrite Qmult_0_l.
    apply Qlt_le_trans with 4; [reflexivity|exact HA1]. }
  assert (Hnorm : pow2 (-1022) <= Qabs a).
  { rewrite Qabs_pos by now apply Qlt_le_weak.
    subst a. apply Qle_shift_div_l; [exact sr_pos|].
    apply Qle_trans with (pow2 (-1022) * pow2 1024).
    - apply Qmult_le_l; [apply pow2_pos|]. now apply Qlt_le_weak.
    - rewrite <- pow2_plus. change (pow2 (-1022 + 1024)) with 4.
      exact HA1. }
  clear sr_finite.
  pose proof (toDouble_error a Hnorm) as He1. fold T in He1.
  rewrite (Qabs_pos a) in He1 by now apply Qlt_le_weak.
  rewrite ulp53_pow2 in He1.
  split; [exact He1|].
  assert (Hasr : a * sr == inject_Z A) by (subst a; field; exact Hsr0).
  assert (H2 : Qabs (T * sr - inject_Z A) <= 1 # 4).
  { setoid_replace (T * sr - inject_Z A) with ((T - a) * sr) by (rewrite <- Hasr; ring).
    rewrite Qabs_Qmult, (Qabs_pos sr) by now apply Qlt_le_weak.
    apply Qle_trans with (ulp53 * a * sr).
    - apply Qmult_le_compat_r; [exact He1|now apply Qlt_le_weak].
    - setoid_replace (ulp53 * a * sr) with (inject_Z A * ulp53) by (rewrite <- Hasr; ring).
      exact HAu. }
  apply Qabs_bound in H2. destruct H2 as [H2a H2b].
  set (x2 := T * sr) in *.
  assert (Hx2 : 3 # 4 <= x2) by lra.
  assert (Hnorm2 : pow2 (-1022) <= Qabs x2).
  { rewrite Qabs_pos by lra. apply Qle_trans with (3 # 4); [|exact Hx2].
    apply Qle_trans with (pow2 (-1)); [apply pow2_le; lia|]. discriminate. }
  pose proof (toDouble_error x2 Hnorm2) as He2. rewrite (Qabs_pos x2) in He2 by lra.
  rewrite ulp53_pow2 in He2.
  apply Qabs_bound in He2. destruct He2 as [He2a He2b].
  assert (Hux : ulp53 * x2 <= (1 # 4) + (1 # 4) * ulp53).
  { setoid_replace (ulp53 * x2)
      with (inject_Z A * ulp53 + ulp53 * (x2 - inject_Z A)) by ring.
    assert (ulp53 * (x2 - inject_Z A) <= ulp53 * (1 # 4)).
    { apply Qmult_le_l; [reflexivity|]. lra. }
    lra. }
  assert (Hu1 : ulp53 <= 1 # 4) by discriminate.
  apply Qabs_Qlt_condition. split; lra.
Qed.

Section SampleTimes.
Variable sr : Q.
Hypothesis sr_pos : 0 < sr.
Hypothesis sr_finite : sr < pow2 1024.

Lemma frameSample_near (k : Z) :
  (0 <= k)%Z -> (k * hopSize <= 2 ^ 51)%Z ->
  (k * hopSize - 1 <= frameSample sr k <= k * hopSize)%Z.
Proof.
  intros Hk Hb. unfold frameSample, frameTime, Math_floor.
  destruct (Z.eq_dec k 0) as [->|Hne].
  - change (0 * hopSize)%Z with 0%Z.
    assert (H0 : toDouble (inject_Z 0 / sr) = 0).
    { apply roundFloat_zero. unfold Qdiv. apply Qmult_0_l. }
    rewrite H0.
    assert (H1 : toDouble (0 * sr) = 0) by (apply roundFloat_zero; apply Qmult_0_l).
    rewrite H1. clear. vm_compute. split; discriminate.
  - destruct (offsetTime_near sr (k * hopSize) sr_pos sr_finite) as (_ & H);
      [unfold hopSize in *; lia|].
    cbv zeta in H. apply Qabs_Qlt_condition in H. destruct H as [Hlo Hhi].
    set (P := toDouble (toDouble (inject_Z (k * hopSize) / sr) * sr)) in *.
    clearbody P. clear sr_finite.
    split.
    + assert (H : inject_Z (k * hopSize - 1) <= P).
      { unfold Z.sub. rewrite inject_Z_plus, inject_Z_opp. change (inject_Z 1) with 1.
        revert Hlo. generalize (inject_Z (k * hopSize)). intros a Hlo. lra. }
      apply Qfloor_resp_le in H. rewrite Qfloor_Z in H. exact H.
    + assert (Hf : inject_Z (Qfloor P) <= P) by apply Qfloor_le.
      assert (H : inject_Z (Qfloor P) < inject_Z (k * hopSize + 1)).
      { rewrite inject_Z_plus. change (inject_Z 1) with 1.
        revert Hhi Hf. generalize (inject_Z (k * hopSize)) (inject_Z (Qfloor P)).
        intros a b Hhi Hf. lra. }
      rewrite <- Zlt_Qlt in H. clear -H. lia.
Qed.

Lemma frameTime_increasing (j k : Z) :
  (0 <= j < k)%Z -> (k * hopSize <= 2 ^ 51)%Z ->
  frameTime sr j < frameTime sr k.
Proof.
  intros Hjk Hb. unfold frameTime.
  assert (Hinv : 0 < / sr) by now apply Qinv_lt_0_compat.
  destruct (offsetTime_near sr (k * hopSize) sr_pos sr_finite) as (Hk1 & _);
    [unfold hopSize in *; lia|].
  destruct (offset_in_range (k * hopSize)) as [HK1 HKu]; [unfold hopSize in *; lia|].
  cbv zeta in Hk1. apply Qabs_bound in Hk1. destruct Hk1 as [Hk1 _].
  destruct (Z.eq_dec j 0) as [->|Hne].
  - change (0 * hopSize)%Z with 0%Z.
    assert (H0 : toDouble (inject_Z 0 / sr) = 0).
    { apply roundFloat_zero. unfold Qdiv. apply Qmult_0_l. }
    rewrite H0. clear sr_finite.
    assert (Hpos : 0 < (inject_Z (k * hopSize) - inject_Z (k * hopSize) * ulp53) * / sr).
    { apply Qmult_lt_0_compat; [lra|exact Hinv]. }
    unfold Qdiv in *.
    setoid_replace (ulp53 * (inject_Z (k * hopSize) * / sr))
      with (inject_Z (k * hopSize) * ulp53 * / sr) in Hk1 by ring.
    revert Hk1 HK1 HKu Hpos. generalize (inject_Z (k * hopSize)). intros K Hk1 HK1 HKu Hpos.
    set (T := toDouble (K * / sr)) in *. clearbody T.
    setoid_replace ((K - K * ulp53) * / sr) with (K * / sr - K * ulp53 * / sr) in Hpos by ring.
    lra.
  - destruct (offsetTime_near sr (j * hopSize) sr_pos sr_finite) as (Hj1 & _);
      [unfold hopSize in *; lia|].
    destruct (offset_in_range (j * hopSize)) as [HJ1 HJu]; [unfold hopSize in *; lia|].
    cbv zeta in Hj1. apply Qabs_bound in Hj1. destruct Hj1 as [_ Hj1].
    clear sr_finite.
    assert (Hgap : inject_Z (j * hopSize) + 1 <= inject_Z (k * hopSize)).
    { change 1 with (inject_Z 1). rewrite <- inject_Z_plus, <- Zle_Qle. unfold hopSize. lia. }
    assert (Hpos : 0 < (inject_Z (k * hopSize) - inject_Z (k * hopSize) * ulp53
                        - inject_Z (j * hopSize) - inject_Z (j * hopSize) * ulp53) * / sr).
    { apply Qmult_lt_0_compat; [lra|exact Hinv]. }
    unfold Qdiv in *.
    setoid_replace (ulp53 * (inject_Z (k * hopSize) * / sr))
      with (inject_Z (k * hopSize) * ulp53 * / sr) in Hk1 by ring.
    setoid_replace (ulp53 * (inject_Z (j * hopSize) * / sr))
      with (inject_Z (j * hopSize) * ulp53 * / sr) in Hj1 by ring.
    lra.
Qed.
End SampleTimes.

Lemma frameTime_zero (sr : Q) : frameTime sr 0 = 0.
Proof.
  unfold frameTime, toDouble. change (0 * hopSize)%Z with 0%Z.
  apply roundFloat_zero. unfold Qdiv. apply Qmult_0_l.
Qed.

Lemma frameSample_zero (sr : Q) : frameSample sr 0 = 0%Z.
Proof.
  unfold frameSample. rewrite frameTime_zero. unfold toDouble.
  rewrite (roundFloat_zero 53 (-1074) (0 * sr)) by apply Qmult_0_l. reflexivity.
Qed.

(** ** Arithmetic and list facts *)

Lemma Qltb_lt (x y : Q) : Qltb x y = true <-> x < y.
Proof.
  unfold Qltb. rewrite negb_true_iff. split; intro H.
  - apply Qnot_le_lt. intro Hle. apply Qle_bool_iff in Hle. congruence.
  - destruct (Qle_bool y x) eqn:E; [|reflexivity].
    apply Qle_bool_iff in E. exfalso. apply (Qlt_not_le _ _ H E).
Qed.

Lemma Qgtb_gt (x y : Q) : Qgtb x y = true <-> y < x.
Proof. unfold Qgtb. apply Qltb_lt. Qed.

Lemma range_length (lo hi : Z) : List.length (range lo hi) = Z.to_nat (hi - lo).
Proof. unfold range. now rewrite length_map, length_seq. Qed.

Lemma range_nil (lo hi : Z) : (hi <= lo)%Z -> range lo hi = [].
Proof.
  intro H. unfold range. replace (Z.to_nat (hi - lo)) with 0%nat by lia. reflexivity.
Qed.

Lemma range_snoc (lo hi : Z) :
  (lo <= hi)%Z -> range lo (hi + 1) = range lo hi ++ [hi].
Proof.
  intro H. unfold range.
  replace (Z.to_nat (hi + 1 - lo)) with (S (Z.to_nat (hi - lo))) by lia.
  rewrite seq_S, map_app. simpl. do 2 f_equal. lia.
Qed.

Lemma range_In (lo hi x : Z) : In x (range lo hi) <-> (lo <= x < hi)%Z.
Proof.
  unfold range. rewrite in_map_iff. split.
  - intros [k [<- Hk]]. apply in_seq in Hk. lia.
  - intro H. exists (Z.to_nat (x - lo)). split; [lia|]. apply in_seq. lia.
Qed.

(** A loop [for (i = lo; i < hi; i++)] keeps an invariant indexed by [i]. *)
Lemma fold_range_inv {St : Type} (P : Z -> St -> Prop) (f : St -> Z -> St)
    (lo hi : Z) (s : St) :
  (lo <= hi)%Z ->
  P lo s ->
  (forall i t, (lo <= i < hi)%Z -> P i t -> P (i + 1)%Z (f t i)) ->
  P hi (fold_left f (range lo hi) s).
Proof.
  intros Hle H0 Hstep.
  assert (G : forall n : nat,
             (lo + Z.of_nat n <= hi)%Z ->
             P (lo + Z.of_nat n)%Z (fold_left f (range lo (lo + Z.of_nat n)) s)).
  { induction n as [|n IH]; intro Hn.
    - rewrite Z.add_0_r, range_nil by lia. exact H0.
    - replace (lo + Z.of_nat (S n))%Z with (lo + Z.of_nat n + 1)%Z by lia.
      rewrite range_snoc by lia. rewrite fold_left_app. simpl.
      apply Hstep; [lia|]. apply IH. lia. }
  specialize (G (Z.to_nat (hi - lo))).
  replace (lo + Z.of_nat (Z.to_nat (hi - lo)))%Z with hi in G by lia.
  apply G. lia.
Qed.

(** The same when the loop does not run. *)
Lemma fold_range_inv' {St : Type} (P : Z -> St -> Prop) (f : St -> Z -> St)
    (lo hi : Z) (s : St) :
  P lo s ->
  (forall i t, (lo <= i < hi)%Z -> P i t -> P (i + 1)%Z (f t i)) ->
  P (Z.max lo hi) (fold_left f (range lo hi) s).
Proof.
  intros H0 Hstep. destruct (Z_le_gt_dec lo hi) as [Hle|Hgt].
  - rewrite Z.max_r by lia. now apply fold_range_inv.
  - rewrite Z.max_l by lia. rewrite range_nil by lia. exact H0.
Qed.

Lemma Qfloor_mul_div (m : Z) (r : Q) :
  0 < r -> Math_floor (inject_Z m / r * r) = m.
Proof.
  intro Hr. unfold Math_floor.
  assert (E : inject_Z m / r * r == inject_Z m).
  { field. intro H0. rewrite H0 in Hr. discriminate. }
  rewrite E. apply Qfloor_Z.
Qed.

(** ** Arrays grown by [push] *)

Lemma lastOpt_snoc {A : Type} (l : list A) (x : A) : lastOpt (l ++ [x]) = Some x.
Proof.
  induction l as [|a l IH]; [reflexivity|].
  simpl. destruct (l ++ [x]) eqn:E; [destruct l; discriminate|]. exact IH.
Qed.

Lemma Sorted_snoc {A : Type} (R : A -> A -> Prop) (l : list A) (x : A) :
  Sorted R l ->
  (forall y, lastOpt l = Some y -> R y x) ->
  Sorted R (l ++ [x]).
Proof.
  induction l as [|a l IH]; intros Hs Hlast.
  - repeat constructor.
  - simpl. inversion Hs as [|? ? Hs' Hhd]; subst. constructor.
    + apply IH; [exact Hs'|]. intros y Hy. apply Hlast.
      destruct l; [discriminate|exact Hy].
    + destruct l as [|b l]; simpl.
      * constructor. apply Hlast. reflexivity.
      * inversion Hhd; subst. now constructor.
Qed.

Lemma Sorted_map {A B : Type} (R : A -> A -> Prop) (R' : B -> B -> Prop) (f : A -> B)
    (l : list A) :
  (forall a b, R a b -> R' (f a) (f b)) -> Sorted R l -> Sorted R' (map f l).
Proof.
  intros Hf. induction 1 as [|a l Hs IH Hhd]; simpl; constructor; auto.
  destruct Hhd; simpl; constructor; auto.
Qed.

Lemma Sorted_weaken {A : Type} (R R' : A -> A -> Prop) (l : list A) :
  (forall a b, R a b -> R' a b) -> Sorted R l -> Sorted R' l.
Proof.
  intro H. rewrite <- (map_id l) at 2. now apply Sorted_map.
Qed.

(** Adjacent entries of a sorted array are related. *)
Lemma Sorted_adjacent {A : Type} (R : A -> A -> Prop) (l : list A) (d : A) (k : nat) :
  Sorted R l -> (S k < List.length l)%nat -> R (nth k l d) (nth (S k) l d).
Proof.
  intro Hs. revert k. induction Hs as [|a l Hs IH Hhd]; intros k Hk.
  - simpl in Hk. lia.
  - destruct k as [|k].
    + destruct Hhd; simpl in *; [lia|assumption].
    + simpl in Hk. change (R (nth k l d) (nth (S k) l d)). apply IH. lia.
Qed.

(** ** Onset times (lines 408-434) *)

Section PeakPicking.
Variables (f : list Q) (threshold : Q) (minDistanceFrames : Z) (sr : Q).

Lemma peakStep_inv (i : Z) (st : PeakState) :
  peakInv minDistanceFrames sr i st -> peakInv minDistanceFrames sr (i + 1) (peakStep f threshold minDistanceFrames sr st i).
Proof.
  intros (frames & Ho & Ht & Hl & Hb & Hs).
  assert (Hb' : Forall (fun k => (k < i + 1)%Z) frames).
  { eapply Forall_impl; [|exact Hb]. simpl. intros. lia. }
  unfold peakStep. destruct (isPeak f threshold i).
  2:{ exists frames. auto. }
  destruct (farEnough i (lastOnsetFrame st) minDistanceFrames) eqn:Hfar.
  2:{ exists frames. auto. }
  exists (frames ++ [i]). simpl. repeat split.
  - rewrite map_app, Ho. reflexivity.
  - rewrite map_app, Ht. reflexivity.
  - now rewrite lastOpt_snoc.
  - apply Forall_app. split; [exact Hb'|]. constructor; [lia|constructor].
  - apply Sorted_snoc; [exact Hs|]. intros y Hy.
    rewrite Hl, Hy in Hfar. simpl in Hfar. apply Z.leb_le in Hfar.
    assert (Hyi : (y < i)%Z).
    { rewrite Forall_forall in Hb. apply Hb.
      clear -Hy. induction frames as [|a l IH]; [discriminate|].
      destruct l; [injection Hy as ->; now left|right; now apply IH]. }
    split; [exact Hyi|exact Hfar].
Qed.

Lemma peakLoop_inv (hi : Z) :
  peakInv minDistanceFrames sr (Z.max 1 hi)
    (fold_left (peakStep f threshold minDistanceFrames sr) (range 1 hi)
               (mkPeakState [] [] None)).
Proof.
  apply fold_range_inv'.
  - exists []. simpl. repeat split; constructor.
  - intros i t _. apply peakStep_inv.
Qed.
End PeakPicking.

(** The onsets are the times and sample indices of frames that are at
    least [minDistanceFrames] frames apart, in increasing order. *)
Lemma pickOnsets_frames (f : list Q) (sens md sr : Q) :
  exists frames : list Z,
    timestamps (pickOnsets f sens md sr) = map (frameSample sr) frames /\
    times (pickOnsets f sens md sr) = map (frameTime sr) frames /\
    Sorted (apart (Math_floor (toDouble (toDouble (md * sr) / inject_Z hopSize)))) frames.
Proof.
  unfold pickOnsets.
  destruct (peakLoop_inv f (calculateThreshold f sens)
              (Math_floor (toDouble (toDouble (md * sr) / inject_Z hopSize))) sr (len f - 1))
    as (frames & Ho & Ht & _ & _ & Hs).
  exists frames. simpl. auto.
Qed.

(** C1 at the failing input: at 44100 Hz with the default options
    (sensitivity 0.5, [minDistance] the double 0.05), a buffer whose
    spectral flux peaks at the frames 1, 3 and 5, and, for the peak-picking
    stage alone, a flux with two equal peaks at the frames 1 and 5.  The
    distance is enforced in whole frames: [minDistanceFrames] is
    [floor(0.05 * 44100 / 512) = 4], so the peaks of frames 1 and 5 are both
    reported, at the samples 512 and 2560 and at the times that are the
    doubles nearest to 512/44100 and 2560/44100.  These differ by less than
    0.0465 s, that is, by less than [minDistance], which the option comment
    (line 344) calls the minimum time between onsets.  The two arrays have
    one length and one order, and the times increase. *)
Theorem onsets_closer_than_minDistance :
  let minDistance := toDouble (1 # 20) in
  let r := pickOnsets [0; 5; 0; 0; 0; 5; 0] (1 # 2) minDistance 44100 in
  settled (snd (detectOnsets doubleHost headCore
                  (monoBuffer (pulses [0; 5; 1; 9; 2; 5; 3] 5120) 44100)
                  (mkOnsetOptions None None false)))
  = Resolved (mkOnsetResult [512; 2560]%Z
                [toDouble (512 # 44100); toDouble (2560 # 44100)]) /\
  Math_floor (toDouble (toDouble (minDistance * 44100) / inject_Z hopSize)) = 4%Z /\
  timestamps r = [512; 2560]%Z /\
  times r = [toDouble (512 # 44100); toDouble (2560 # 44100)] /\
  toDouble (512 # 44100) < toDouble (2560 # 44100) /\
  toDouble (2560 # 44100) - toDouble (512 # 44100) < 465 # 10000 /\
  465 # 10000 < minDistance.
Proof.
  cbv zeta. split; [vm_compute; reflexivity|]. split; [vm_compute; reflexivity|].
  split; [vm_compute; reflexivity|]. split; [vm_compute; reflexivity|].
  split; [vm_compute; reflexivity|]. split; vm_compute; reflexivity.
Qed.

(** ** The adaptive threshold (lines 906-920) *)

Lemma insertSorted_Forall (P : Q -> Prop) (x : Q) (l : list Q) :
  P x -> Forall P l -> Forall P (insertSorted x l).
Proof.
  intros Hx Hl. induction Hl as [|y l Hy Hl IH]; simpl.
  - now constructor.
  - destruct (Qle_bool x y); repeat constructor; auto.
Qed.

Lemma sortNumbers_Forall (P : Q -> Prop) (l : list Q) :
  Forall P l -> Forall P (sortNumbers l).
Proof.
  induction 1 as [|x l Hx Hl IH]; simpl; [constructor|].
  now apply insertSorted_Forall.
Qed.

Lemma get_Forall (P : Q -> Prop) (l : list Q) (i : Z) :
  P 0 -> Forall P l -> P (get l i).
Proof.
  intros H0 Hl. unfold get. destruct (i <? 0)%Z; [exact H0|].
  destruct (nth_in_or_default (Z.to_nat i) l 0) as [Hin|Hd]; [|rewrite Hd; exact H0].
  rewrite Forall_forall in Hl. now apply Hl.
Qed.

(** The median absolute deviation is not negative. *)
Lemma mad_nonneg (values : list Q) (m : Q) (i : Z) :
  0 <= get (sortNumbers (map (fun v => Qabs (v - m)) values)) i.
Proof.
  apply get_Forall; [apply Qle_refl|]. apply sortNumbers_Forall.
  rewrite Forall_forall. intros x Hx. apply in_map_iff in Hx.
  destruct Hx as [v [<- _]]. apply Qabs_nonneg.
Qed.

(** The threshold grows with the multiplier, which detectOnsets sets to the
    sensitivity itself (line 412). *)
Lemma calculateThreshold_monotone (values : list Q) (s1 s2 : Q) :
  s1 <= s2 -> calculateThreshold values s1 <= calculateThreshold values s2.
Proof.
  intro H. unfold calculateThreshold. destruct values as [|v values].
  - apply Qle_refl.
  - apply Qplus_le_r. apply Qmult_le_compat_r; [exact H|]. apply mad_nonneg.
Qed.

(** C2 at the failing input: on the flux sequence below, with minDistance
    0.01 s at 44100 Hz, sensitivity 0.2 gives the threshold 4.4 and four
    onsets, the higher sensitivity 0.9 gives the higher threshold 5.8 and
    two onsets only. *)
Theorem higher_sensitivity_fewer_onsets :
  let flux := [0; 5; 1; 9; 2; 5; 3; 9; 4] in
  calculateThreshold flux (2 # 10) == 44 # 10 /\
  calculateThreshold flux (9 # 10) == 58 # 10 /\
  timestamps (pickOnsets flux (2 # 10) (1 # 100) 44100) = [512; 1536; 2560; 3584]%Z /\
  timestamps (pickOnsets flux (9 # 10) (1 # 100) 44100) = [1536; 3584]%Z.
Proof.
  repeat split; vm_compute; reflexivity.
Qed.

(** ** The frame loop of detectOnsets (lines 364-402) *)

Lemma len_nonneg {A : Type} (a : list A) : (0 <= len a)%Z.
Proof. unfold len. lia. Qed.

(** The number of iterations left when the loop variable is [i]. *)
Lemma onsetLoop_count (e : Essentia) (w av : list Q) (onp : bool) (total : Z) :
  forall (fuel : nat) (i fi : Z) (st st' : OnsetPass) (p : list Q),
    (0 <= i)%Z ->
    (len av - frameSize - i < Z.of_nat fuel * hopSize)%Z ->
    onsetLoop fuel e w av onp total i fi st = (p, Some st') ->
    len (onsetFunction st')
    = (len (onsetFunction st)
       + (if (i <=? len av - frameSize)%Z
          then (len av - frameSize - i) / hopSize + 1 else 0))%Z.
Proof.
  unfold hopSize, frameSize.
  induction fuel as [|fuel IH]; intros i fi st st' p Hi Hfuel Hrun.
  - simpl in Hrun. injection Hrun as _ <-.
    destruct (i <=? len av - 2048)%Z eqn:E; [apply Z.leb_le in E; lia|lia].
  - simpl in Hrun. unfold frameSize, hopSize in Hrun.
    destruct (i <=? len av - 2048)%Z eqn:E.
    + destruct (frameMagnitudes e w av i) as [m|]; [|discriminate].
      apply IH in Hrun; [|lia|lia].
      rewrite Hrun. simpl onsetFunction.
      assert (Hl : len (onsetFunction st ++ [spectralFlux (previousSpectrum st) m])
                   = (len (onsetFunction st) + 1)%Z).
      { unfold len. rewrite length_app. simpl. lia. }
      rewrite Hl. apply Z.leb_le in E.
      destruct (i + 512 <=? len av - 2048)%Z eqn:E'.
      * apply Z.leb_le in E'.
        replace (len av - 2048 - i)%Z with (len av - 2048 - (i + 512) + 1 * 512)%Z by lia.
        rewrite Z.div_add by lia. lia.
      * apply Z.leb_gt in E'. rewrite (Z.div_small (len av - 2048 - i)) by lia. lia.
    + injection Hrun as _ <-. lia.
Qed.

(** The fuel detectOnsets passes is never used up: past what the loop
    needs, more fuel changes nothing. *)
Lemma onsetLoop_fuel (e : Essentia) (w av : list Q) (onp : bool) (total : Z) :
  forall (fuel : nat) (i fi : Z) (st : OnsetPass),
    (0 <= i)%Z ->
    (len av - frameSize - i < Z.of_nat fuel * hopSize)%Z ->
    onsetLoop (S fuel) e w av onp total i fi st = onsetLoop fuel e w av onp total i fi st.
Proof.
  induction fuel as [|fuel IH]; intros i fi st Hi Hfuel.
  - cbn [onsetLoop].
    replace (i <=? len av - frameSize)%Z with false; [reflexivity|].
    symmetry. apply Z.leb_gt. lia.
  - change (onsetLoop (S (S fuel)) e w av onp total i fi st)
      with (if (i <=? len av - frameSize)%Z then
              match frameMagnitudes e w av i with
              | None =>
                  (passProgress st
                   ++ (if ((0 <? fi) && (fi mod 10 =? 0))%Z
                       then report onp (Qmin 1 (inject_Z fi / inject_Z total))
                       else []), None)
              | Some m =>
                  onsetLoop (S fuel) e w av onp total (i + hopSize) (fi + 1)
                    (mkOnsetPass (onsetFunction st ++ [spectralFlux (previousSpectrum st) m])
                       (Some m)
                       (passProgress st
                        ++ (if ((0 <? fi) && (fi mod 10 =? 0))%Z
                            then report onp (Qmin 1 (inject_Z fi / inject_Z total))
                            else [])))
              end
            else (passProgress st, Some st)).
    cbn [onsetLoop].
    destruct (i <=? len av - frameSize)%Z eqn:E; [|reflexivity].
    destruct (frameMagnitudes e w av i) as [m|]; [|reflexivity].
    apply Z.leb_le in E. apply IH; unfold hopSize in *; lia.
Qed.

(** The onset pass of a buffer of [N >= frameSize] samples that completes
    has processed [floor((N - frameSize) / hopSize) + 1] frames. *)
Lemma onset_pass_frame_count (e : Essentia) (w av : list Q) (onp : bool) (total : Z)
    (p : list Q) (st : OnsetPass) :
  (frameSize <= len av)%Z ->
  onsetLoop (S (List.length av)) e w av onp total 0 0 (mkOnsetPass [] None []) = (p, Some st) ->
  len (onsetFunction st) = ((len av - frameSize) / hopSize + 1)%Z.
Proof.
  intros HN Hrun.
  apply onsetLoop_count in Hrun.
  - rewrite Hrun. simpl onsetFunction.
    replace (0 <=? len av - frameSize)%Z with true by (symmetry; apply Z.leb_le; lia).
    rewrite Z.sub_0_r. reflexivity.
  - lia.
  - unfold len, hopSize, frameSize in *. lia.
Qed.

(** An engine whose spectrum calls return lets the pass complete. *)
Lemma onsetLoop_completes (e : Essentia) (w av : list Q) (onp : bool) (total : Z) :
  (forall i, exists m, frameMagnitudes e w av i = Some m) ->
  forall (fuel : nat) (i fi : Z) (st : OnsetPass),
    exists p st', onsetLoop fuel e w av onp total i fi st = (p, Some st').
Proof.
  intros He. induction fuel as [|fuel IH]; intros i fi st; simpl.
  - eauto.
  - destruct (i <=? len av - frameSize)%Z; [|eauto].
    destruct (He i) as [m ->]. apply IH.
Qed.

(** A buffer shorter than one frame: the loop does not run. *)
Lemma onsetLoop_short (e : Essentia) (w av : list Q) (onp : bool) (total : Z)
    (fuel : nat) (st : OnsetPass) :
  (len av < frameSize)%Z ->
  onsetLoop fuel e w av onp total 0 0 st = (passProgress st, Some st).
Proof.
  intro H. destruct fuel; simpl; [reflexivity|].
  replace (0 <=? len av - frameSize)%Z with false; [reflexivity|].
  symmetry. apply Z.leb_gt. lia.
Qed.

Lemma ensureInitialized_available (c : Core) :
  isAvailable c = true -> exists e, ensureInitialized c = Resolved e /\ essentia c = Some e.
Proof.
  unfold isAvailable, ensureInitialized.
  destruct (isInitialized c), (essentia c) as [e|]; simpl; try discriminate.
  intros _. now exists e.
Qed.

(** C10: on an initialized core, a buffer whose mono sample count is below
    frameSize makes detectOnsets resolve with empty timestamps and times:
    the frame loop processes no frame, the threshold of the empty flux
    sequence is 0, and the peak loop accepts nothing. *)
Theorem detectOnsets_short_buffer
    (h : Host) (c : Core) (audioBuffer : AudioBuffer) (options : OnsetOptions) :
  isAvailable c = true ->
  (len (audioBufferToMono audioBuffer) < frameSize)%Z ->
  settled (snd (detectOnsets h c audioBuffer options)) = Resolved (mkOnsetResult [] []) /\
  (forall e w total fuel,
     snd (onsetLoop fuel e w (audioBufferToMono audioBuffer) (onsetProgress options)
                    total 0 0 (mkOnsetPass [] None []))
     = Some (mkOnsetPass [] None [])) /\
  (forall multiplier, calculateThreshold [] multiplier = 0) /\
  (forall s md sr, pickOnsets [] s md sr = mkOnsetResult [] []).
Proof.
  intros Hc HN. repeat split.
  - destruct (ensureInitialized_available c Hc) as (e & He & _).
    unfold detectOnsets. rewrite He.
    destruct (getHannWindow h c frameSize) as [w c'].
    rewrite onsetLoop_short by exact HN. reflexivity.
  - intros e w total fuel. now rewrite onsetLoop_short.
Qed.

Lemma detectOnsets_short_buffer_witness :
  let audioBuffer := monoBuffer (repeat 0 100) 44100 in
  let options := mkOnsetOptions None None true in
  settled (snd (detectOnsets doubleHost failingCore audioBuffer options))
  = Resolved (mkOnsetResult [] []) /\
  (forall e w total fuel,
     snd (onsetLoop fuel e w (audioBufferToMono audioBuffer) (onsetProgress options)
                    total 0 0 (mkOnsetPass [] None []))
     = Some (mkOnsetPass [] None [])) /\
  (forall multiplier, calculateThreshold [] multiplier = 0) /\
  (forall s md sr, pickOnsets [] s md sr = mkOnsetResult [] []).
Proof.
  apply (detectOnsets_short_buffer doubleHost failingCore
           (monoBuffer (repeat 0 100) 44100) (mkOnsetOptions None None true)).
  - reflexivity.
  - vm_compute. reflexivity.
Defined.

Lemma bandEssentia_returns (w av : list Q) (i : Z) :
  exists m, frameMagnitudes bandEssentia w av i = Some m.
Proof.
  unfold frameMagnitudes, bandEssentia.
  cbn [arrayToVector Spectrum vectorToArray]. eauto.
Qed.

(** The onset pass keeps the last whole frame: 192 frames for 100000
    samples, whatever the samples are. *)
Lemma onset_pass_100000 (w av : list Q) (onp : bool) (total : Z) :
  len av = 100000%Z ->
  exists p st,
    onsetLoop (S (List.length av)) bandEssentia w av onp total 0 0 (mkOnsetPass [] None [])
    = (p, Some st)
    /\ len (onsetFunction st) = 192%Z.
Proof.
  intro HN.
  destruct (onsetLoop_completes bandEssentia w av onp total
              (bandEssentia_returns w av) (S (List.length av)) 0 0
              (mkOnsetPass [] None [])) as (p & st & Hrun).
  exists p, st. split; [exact Hrun|].
  apply onset_pass_frame_count in Hrun.
  - rewrite Hrun, HN. reflexivity.
  - rewrite HN. unfold frameSize. lia.
Qed.

(** ** The feature loop of detectSongStructure (lines 533-638) *)

Lemma featureStep_lengths (h : Host) (e : Essentia) (av : list Q) (sr : Q)
    (onp : bool) (nf : Z) (st : Features) (i : Z) :
  let st' := featureStep h e av sr onp nf st i in
  List.length (chromaFeatures st') = S (List.length (chromaFeatures st)) /\
  List.length (mfccFeatures st') = S (List.length (mfccFeatures st)) /\
  List.length (energyProfile st') = S (List.length (energyProfile st)).
Proof.
  unfold featureStep. destruct (arrayToVector e _); simpl;
    rewrite !length_app; simpl; lia.
Qed.

Lemma featureLoop_lengths (h : Host) (e : Essentia) (av : list Q) (sr : Q)
    (onp : bool) (nf : Z) (l : list Z) :
  forall st : Features,
    let st' := fold_left (featureStep h e av sr onp nf) l st in
    List.length (chromaFeatures st') = (List.length (chromaFeatures st) + List.length l)%nat /\
    List.length (mfccFeatures st') = (List.length (mfccFeatures st) + List.length l)%nat /\
    List.length (energyProfile st') = (List.length (energyProfile st) + List.length l)%nat.
Proof.
  induction l as [|i l IH]; intro st; simpl.
  - lia.
  - destruct (IH (featureStep h e av sr onp nf st i)) as (H1 & H2 & H3).
    destruct (featureStep_lengths h e av sr onp nf st i) as (G1 & G2 & G3).
    simpl in *. lia.
Qed.

(** The structure pass processes [floor((N - frameSize) / hopSize)] frames:
    its loop runs while [i < numFrames] (line 538), one frame less than the
    onset pass. *)
Lemma extractFeatures_count (h : Host) (e : Essentia) (av : list Q) (sr : Q) (onp : bool) :
  let F := extractFeatures h e av sr onp in
  let numFrames := Z.to_nat ((len av - frameSize) / hopSize) in
  List.length (chromaFeatures F) = numFrames /\
  List.length (mfccFeatures F) = numFrames /\
  List.length (energyProfile F) = numFrames.
Proof.
  unfold extractFeatures.
  destruct (featureLoop_lengths h e av sr onp ((len av - frameSize) / hopSize)
              (range 0 ((len av - frameSize) / hopSize)) (mkFeatures [] [] [] []))
    as (H1 & H2 & H3).
  simpl in *. rewrite range_length, Z.sub_0_r in *. auto.
Qed.

Lemma len_repeat (x : Q) (n : Z) : (0 <= n)%Z -> len (repeat x (Z.to_nat n)) = n.
Proof. intro H. unfold len. rewrite repeat_length. lia. Qed.

(** C8 at the failing input: for a buffer of 100000 samples (here silence;
    the count depends on the length only), with frameSize 2048 and hopSize
    512, the feature pass of detectSongStructure processes 191 frames, not
    the [floor((100000 - 2048) / 512) + 1 = 192] frames the onset pass
    processes ([onset_pass_100000]). *)
Theorem structure_pass_drops_last_frame (h : Host) (e : Essentia) (sr : Q) (onp : bool) :
  let F := extractFeatures h e (repeat 0 (Z.to_nat 100000)) sr onp in
  List.length (chromaFeatures F) = 191%nat /\
  List.length (mfccFeatures F) = 191%nat /\
  List.length (energyProfile F) = 191%nat /\
  ((100000 - frameSize) / hopSize + 1 = 192)%Z.
Proof.
  destruct (extractFeatures_count h e (repeat 0 (Z.to_nat 100000)) sr onp)
    as (H1 & H2 & H3).
  rewrite len_repeat in * by lia.
  change (Z.to_nat ((100000 - frameSize) / hopSize)) with 191%nat in *.
  split; [exact H1|]. split; [exact H2|]. split; [exact H3|]. reflexivity.
Qed.

(** ** detectBPM (lines 444-503) *)

(** [Math.round] returns a nearest integer. *)
Lemma Math_round_nearest (x : Q) :
  x - (1 # 2) < inject_Z (Math_round x) /\ inject_Z (Math_round x) <= x + (1 # 2).
Proof.
  unfold Math_round. split.
  - pose proof (Qlt_floor (x + (1 # 2))) as H. rewrite inject_Z_plus in H.
    apply Qplus_lt_l with (z := 1).
    setoid_replace (x - (1 # 2) + 1) with (x + (1 # 2)) by ring. exact H.
  - apply Qfloor_le.
Qed.

(** C5: on an initialized core, when the conversion of the samples to the
    engine's vector throws, detectBPM resolves with bpm 120 and confidence
    0; and whenever detectBPM resolves, the bpm is the default 120 of that
    fallback or [Math.round] of the estimate of the rhythm extractor (its
    [bpm], else its [tempo], else 120), an integer nearest to it. *)
Theorem detectBPM_fallback_and_rounding (c : Core) (e : Essentia) (audioBuffer : AudioBuffer) :
  ensureInitialized c = Resolved e ->
  let audioVector := audioBufferToMono audioBuffer in
  (arrayToVector e audioVector = None ->
   detectBPM c audioBuffer = Resolved (mkBPMResult 120 0)) /\
  (exists r, detectBPM c audioBuffer = Resolved r) /\
  (forall r v,
     detectBPM c audioBuffer = Resolved r ->
     arrayToVector e audioVector = Some v ->
     let estimate := fst (rhythmEstimate e v (sampleRate audioBuffer)) in
     bpm r = Math_round estimate /\
     estimate - (1 # 2) < inject_Z (bpm r) <= estimate + (1 # 2)).
Proof.
  intros He audioVector. unfold detectBPM. rewrite He. fold audioVector.
  repeat split.
  - intros ->. reflexivity.
  - destruct (arrayToVector e audioVector) as [v|]; [|eauto].
    destruct (rhythmEstimate e v (sampleRate audioBuffer)). eauto.
  - rewrite H0 in H.
    destruct (rhythmEstimate e v (sampleRate audioBuffer)) as [b cf].
    injection H as <-. reflexivity.
  - rewrite H0 in H.
    destruct (rhythmEstimate e v (sampleRate audioBuffer)) as [b cf].
    injection H as <-. apply Math_round_nearest.
  - rewrite H0 in H.
    destruct (rhythmEstimate e v (sampleRate audioBuffer)) as [b cf].
    injection H as <-. apply Math_round_nearest.
Qed.

Lemma detectBPM_fallback_and_rounding_witness :
  let audioBuffer := monoBuffer [0; 1; 0] 44100 in
  let audioVector := audioBufferToMono audioBuffer in
  (arrayToVector bandEssentia audioVector = None ->
   detectBPM bandCore audioBuffer = Resolved (mkBPMResult 120 0)) /\
  (exists r, detectBPM bandCore audioBuffer = Resolved r) /\
  (forall r v,
     detectBPM bandCore audioBuffer = Resolved r ->
     arrayToVector bandEssentia audioVector = Some v ->
     let estimate := fst (rhythmEstimate bandEssentia v (sampleRate audioBuffer)) in
     bpm r = Math_round estimate /\
     estimate - (1 # 2) < inject_Z (bpm r) <= estimate + (1 # 2)).
Proof.
  apply (detectBPM_fallback_and_rounding bandCore bandEssentia
           (monoBuffer [0; 1; 0] 44100)).
  reflexivity.
Defined.

(** Two runs: an estimate of 120.55 is returned as 121, and an engine whose
    conversion throws gives the default. *)
Example detectBPM_runs :
  detectBPM bandCore (monoBuffer [0; 1; 0] 44100) = Resolved (mkBPMResult 121 3) /\
  detectBPM failingCore (monoBuffer [0; 1; 0] 44100) = Resolved (mkBPMResult 120 0).
Proof. split; reflexivity. Qed.

(** ** Progress of detectSongStructure (lines 538-696) *)

Lemma lastOpt_In {A : Type} (l : list A) (y : A) : lastOpt l = Some y -> In y l.
Proof.
  induction l as [|a l IH]; [discriminate|].
  intro H. destruct l; [injection H as ->; now left|right; now apply IH].
Qed.

Lemma Sorted_Qle_snoc (l : list Q) (x : Q) :
  Sorted Qle l -> Forall (fun p => p <= x) l -> Sorted Qle (l ++ [x]).
Proof.
  intros Hs Hb. apply Sorted_snoc; [exact Hs|].
  intros y Hy. rewrite Forall_forall in Hb. apply Hb. now apply lastOpt_In.
Qed.

Lemma Forall_le_snoc (l : list Q) (x y : Q) :
  Forall (fun p => p <= x) l -> x <= y -> Forall (fun p => p <= y) (l ++ [x]).
Proof.
  intros Hb Hxy. apply Forall_app. split.
  - eapply Forall_impl; [|exact Hb]. simpl. intros p Hp. now apply Qle_trans with x.
  - now repeat constructor.
Qed.

(** The fraction reported at frame [i] of [nf] (line 552). *)
Lemma fraction_mono (nf i j : Z) :
  (0 < nf)%Z -> (i <= j)%Z ->
  (6 # 10) * (inject_Z i / inject_Z nf) <= (6 # 10) * (inject_Z j / inject_Z nf).
Proof.
  intros Hnf Hij.
  setoid_replace ((6 # 10) * (inject_Z i / inject_Z nf))
    with (inject_Z i * ((6 # 10) / inject_Z nf)) by (unfold Qdiv; ring).
  setoid_replace ((6 # 10) * (inject_Z j / inject_Z nf))
    with (inject_Z j * ((6 # 10) / inject_Z nf)) by (unfold Qdiv; ring).
  apply Qmult_le_compat_r; [now rewrite <- Zle_Qle|].
  apply Qlt_le_weak. apply Qlt_shift_div_l; [now rewrite <- (Zlt_Qlt 0)|reflexivity].
Qed.

Lemma featureStep_progress (h : Host) (e : Essentia) (av : list Q) (sr : Q)
    (onp : bool) (nf i : Z) (st : Features) :
  (0 <= i < nf)%Z ->
  let bound k := (6 # 10) * (inject_Z k / inject_Z nf) in
  Sorted Qle (featureProgress st) /\ Forall (fun p => p <= bound i) (featureProgress st) ->
  let st' := featureStep h e av sr onp nf st i in
  Sorted Qle (featureProgress st') /\ Forall (fun p => p <= bound (i + 1)%Z) (featureProgress st').
Proof.
  intros Hi bound [Hs Hb] st'.
  assert (Hmono : bound i <= bound (i + 1)%Z) by (apply fraction_mono; lia).
  assert (Hb' : Forall (fun p => p <= bound (i + 1)%Z) (featureProgress st)).
  { eapply Forall_impl; [|exact Hb]. simpl. intros p Hp. now apply Qle_trans with (bound i). }
  assert (E : featureProgress st' = featureProgress st
              \/ featureProgress st' = featureProgress st ++ [bound i]).
  { subst st'. unfold featureStep.
    destruct ((0 <? i)%Z && (i mod 5 =? 0)%Z);
      [destruct (0 <? nf)%Z; [destruct onp|]|];
      destruct (arrayToVector e _); simpl; rewrite ?app_nil_r; auto. }
  destruct E as [-> | ->]; [now split|]. split.
  - now apply Sorted_Qle_snoc.
  - now apply Forall_le_snoc.
Qed.

Lemma extractFeatures_progress (h : Host) (e : Essentia) (av : list Q) (sr : Q) (onp : bool) :
  let F := extractFeatures h e av sr onp in
  Sorted Qle (featureProgress F) /\ Forall (fun p => p <= 6 # 10) (featureProgress F).
Proof.
  unfold extractFeatures. set (nf := ((len av - frameSize) / hopSize)%Z).
  destruct (Z_le_gt_dec nf 0) as [Hle|Hgt].
  - rewrite range_nil by lia. simpl. split; constructor.
  - pose (bound := fun k : Z => (6 # 10) * (inject_Z k / inject_Z nf)).
    assert (G : Sorted Qle (featureProgress
                  (fold_left (featureStep h e av sr onp nf) (range 0 nf)
                             (mkFeatures [] [] [] [])))
                /\ Forall (fun p => p <= bound nf)
                     (featureProgress
                        (fold_left (featureStep h e av sr onp nf) (range 0 nf)
                                   (mkFeatures [] [] [] [])))).
    { apply (fold_range_inv
               (fun i st => Sorted Qle (featureProgress st)
                            /\ Forall (fun p => p <= bound i) (featureProgress st))).
      - lia.
      - simpl. split; constructor.
      - intros i t Hi Ht. now apply featureStep_progress. }
    destruct G as [Hs Hb]. split; [exact Hs|].
    eapply Forall_impl; [|exact Hb]. simpl. intros p Hp.
    apply Qle_trans with (bound nf); [exact Hp|].
    unfold bound. setoid_replace (inject_Z nf / inject_Z nf) with 1.
    + apply Qle_refl.
    + field. intro E. apply (Qlt_irrefl 0). rewrite <- E at 2.
      rewrite <- (Zlt_Qlt 0). lia.
Qed.

(** C6: when an onProgress callback is supplied, the values it receives
    are non-decreasing; and whenever the call resolves, or rejects after the
    core passed the initialization check (so that the rejection comes from a
    stage inside the [try] block), the last value is 1.  A call on a core
    that is not initialized rejects before the [try] block and reports
    nothing. *)
Theorem structure_progress_terminates
    (h : Host) (c cAtTempo : Core) (audioBuffer : AudioBuffer) (options : StructureOptions) :
  structureProgress options = true ->
  let run := detectSongStructure h c cAtTempo audioBuffer options in
  Sorted Qle (emitted run) /\
  (isAvailable c = true -> exists before, emitted run = before ++ [1]) /\
  (forall r, settled run = Resolved r -> exists before, emitted run = before ++ [1]).
Proof.
  intros Hp run. subst run. unfold detectSongStructure.
  destruct (ensureInitialized c) as [e|m] eqn:He.
  - cbv zeta. rewrite Hp. unfold report. cbv iota.
    set (F := extractFeatures h e (audioBufferToMono audioBuffer)
                (sampleRate audioBuffer) true).
    destruct (extractFeatures_progress h e (audioBufferToMono audioBuffer)
                (sampleRate audioBuffer) true) as [Hs Hb]. fold F in Hs, Hb.
    assert (Hsorted : Sorted Qle
              (((((featureProgress F ++ [6 # 10]) ++ [8 # 10]) ++ [9 # 10])
                ++ [95 # 100]) ++ [1])).
    { repeat (apply Sorted_Qle_snoc; [|repeat (apply Forall_le_snoc; [|discriminate])]);
        assumption. }
    destruct (detectBPM cAtTempo audioBuffer); cbn [emitted settled];
      (split; [exact Hsorted|split; intros; eexists; reflexivity]).
  - cbn [emitted settled]. split; [constructor|]. split.
    + intro Ha. destruct (ensureInitialized_available c Ha) as (e & He' & _). congruence.
    + discriminate.
Qed.

Lemma structure_progress_terminates_witness :
  let run := detectSongStructure doubleHost failingCore (cleanup failingCore)
               (monoBuffer (repeat 0 100) 44100) (mkStructureOptions None None true) in
  Sorted Qle (emitted run) /\
  (isAvailable failingCore = true -> exists before, emitted run = before ++ [1]) /\
  (forall r, settled run = Resolved r -> exists before, emitted run = before ++ [1]).
Proof.
  apply (structure_progress_terminates doubleHost failingCore (cleanup failingCore)
           (monoBuffer (repeat 0 100) 44100) (mkStructureOptions None None true)).
  reflexivity.
Defined.

(** Three runs on a buffer shorter than one frame: a call that resolves, a
    call that rejects in the tempo stage because the core was cleaned up
    while the analysis was suspended, and a call on a core that is not
    initialized. *)
Example structure_progress_runs :
  let audioBuffer := monoBuffer (repeat 0 100) 44100 in
  let options := mkStructureOptions None None true in
  emitted (detectSongStructure doubleHost failingCore failingCore audioBuffer options)
  = [6 # 10; 8 # 10; 9 # 10; 95 # 100; 1] /\
  detectSongStructure doubleHost failingCore (cleanup failingCore) audioBuffer options
  = mkRun [6 # 10; 8 # 10; 9 # 10; 95 # 100; 1]
          (Rejected ("Essentia.js is not initialized. Call initialize() first. "
                     ++ "If initialization failed, the app will use fallback detection methods.")) /\
  detectSongStructure doubleHost (cleanup failingCore) failingCore audioBuffer options
  = mkRun [] (Rejected ("Essentia.js is not initialized. Call initialize() first. "
                        ++ "If initialization failed, the app will use fallback detection methods.")).
Proof. repeat split; vm_compute; reflexivity. Qed.

(** ** The similarity matrix (lines 702-736) *)

Section SimilarityFacts.
Context {T : Type}.
Variables (zero : T) (add mul div : T -> T -> T) (sqrt : T -> T).
Variable isZero : T -> bool.
Hypothesis mul_comm : forall x y : T, mul x y = mul y x.






End SimilarityFacts.








(** ** Budget merging (lines 790-808) *)

(** The search returns the lowest index of a shortest gap. *)
Lemma shortestGap_spec (bs : list Z) :
  (2 <= len bs)%Z ->
  let m := shortestGap bs in
  (0 <= m < len bs - 1)%Z /\
  (forall j, (0 <= j < len bs - 1)%Z -> (gap bs m <= gap bs j)%Z) /\
  (forall j, (0 <= j < m)%Z -> (gap bs m < gap bs j)%Z).
Proof.
  intros Hlen m. subst m. unfold shortestGap.
  pose (I := fun (i : Z) (st : option Z * Z) =>
               (i = 0%Z /\ st = (None, (-1)%Z)) \/
               ((0 <= snd st < i)%Z /\ fst st = Some (gap bs (snd st)) /\
                (forall j, (0 <= j < i)%Z -> (gap bs (snd st) <= gap bs j)%Z) /\
                (forall j, (0 <= j < snd st)%Z -> (gap bs (snd st) < gap bs j)%Z))).
  assert (G : I (len bs - 1)%Z
                (fold_left (gapStep bs) (range 0 (len bs - 1)) (None, (-1)%Z))).
  { apply fold_range_inv.
    - lia.
    - left. auto.
    - intros i [d k] Hi [[Hi0 Hst]|(Hk & Hd & Hmin & Hlow)]; right.
      + injection Hst as -> ->. unfold gapStep. simpl. subst i.
        repeat split; try lia.
        intros j Hj. replace j with 0%Z by lia. unfold gap. lia.
      + simpl in Hk, Hd, Hmin, Hlow. subst d. unfold gapStep. simpl.
        fold (gap bs i).
        destruct (gap bs i <? gap bs k)%Z eqn:E; simpl.
        * apply Z.ltb_lt in E. repeat split; try lia.
          -- intros j Hj. destruct (Z.eq_dec j i) as [->|Hne]; [lia|].
             specialize (Hmin j). lia.
          -- intros j Hj. specialize (Hmin j). lia.
        * apply Z.ltb_ge in E. repeat split; try lia.
          -- intros j Hj. destruct (Z.eq_dec j i) as [->|Hne]; [lia|].
             apply Hmin. lia.
          -- exact Hlow. }
  destruct G as [[H0 _]|(Hk & _ & Hmin & Hlow)]; [lia|].
  repeat split; try lia; assumption.
Qed.

Lemma splice1_cons (a : Z) (l : list Z) (k : Z) :
  (0 <= k)%Z -> splice1 (a :: l) (k + 1) = a :: splice1 l k.
Proof.
  intro Hk. unfold splice1.
  replace (Z.to_nat (k + 1)) with (S (Z.to_nat k)) by lia. reflexivity.
Qed.

Lemma splice1_Forall (P : Z -> Prop) (l : list Z) (k : Z) :
  Forall P l -> Forall P (splice1 l k).
Proof.
  intro H. unfold splice1.
  rewrite <- (firstn_skipn (Z.to_nat k) l) in H. apply Forall_app in H.
  destruct H as [H1 H2]. apply Forall_app. split; [exact H1|].
  destruct (skipn (Z.to_nat k) l) as [|x t] eqn:E.
  - replace (skipn (S (Z.to_nat k)) l) with (@nil Z); [constructor|].
    symmetry. apply skipn_all_iff. apply skipn_all_iff in E. lia.
  - replace (skipn (S (Z.to_nat k)) l) with t; [now inversion H2|].
    change (S (Z.to_nat k)) with (1 + Z.to_nat k)%nat.
    rewrite <- skipn_skipn, E. reflexivity.
Qed.

Lemma splice1_length (l : list Z) (k : Z) :
  (0 <= k < len l)%Z -> len (splice1 l k) = (len l - 1)%Z.
Proof.
  intro Hk. unfold splice1, len in *.
  rewrite length_app, length_firstn, length_skipn. lia.
Qed.

(** The loop never removes the first boundary, and only removes. *)
Lemma mergeLoop_shape (P : Z -> Prop) (maxS : Z) :
  forall (fuel : nat) (rest : list Z),
    Forall P rest ->
    exists rest', mergeLoop fuel (0%Z :: rest) maxS = 0%Z :: rest' /\ Forall P rest'.
Proof.
  induction fuel as [|fuel IH]; intros rest HP; simpl; [eauto|].
  destruct (maxS + 1 <? len (0%Z :: rest))%Z; [|eauto].
  destruct (0 <=? shortestGap (0%Z :: rest))%Z eqn:E; [|eauto].
  apply Z.leb_le in E. rewrite splice1_cons by exact E.
  apply IH. now apply splice1_Forall.
Qed.

(** The budget: at most [maxSections + 1] boundaries are left. *)
Lemma mergeLoop_budget (maxS : Z) :
  (0 <= maxS)%Z ->
  forall (fuel : nat) (bs : list Z),
    (List.length bs <= fuel)%nat ->
    (len (mergeLoop fuel bs maxS) <= Z.max (maxS + 1) 0)%Z /\
    (len (mergeLoop fuel bs maxS) <= len bs)%Z.
Proof.
  intros HmaxS. induction fuel as [|fuel IH]; intros bs Hfuel.
  - destruct bs; [|simpl in Hfuel; lia]. simpl. unfold len. simpl. lia.
  - simpl. destruct (maxS + 1 <? len bs)%Z eqn:E.
    + apply Z.ltb_lt in E.
      destruct (shortestGap_spec bs) as (Hm & _); [lia|].
      replace (0 <=? shortestGap bs)%Z with true by (symmetry; apply Z.leb_le; lia).
      assert (Hl : len (splice1 bs (shortestGap bs + 1)) = (len bs - 1)%Z)
        by (apply splice1_length; lia).
      destruct (IH (splice1 bs (shortestGap bs + 1))) as [H1 H2].
      { unfold len in Hl. lia. }
      split; lia.
    + apply Z.ltb_ge in E. lia.
Qed.

Lemma mergeBoundaries_fits (bs : list Z) (maxS : Z) :
  (len bs <= maxS + 1)%Z -> mergeBoundaries bs maxS = bs.
Proof.
  intro H. unfold mergeBoundaries. destruct (List.length bs); simpl; [reflexivity|].
  replace (maxS + 1 <? len bs)%Z with false; [reflexivity|].
  symmetry. apply Z.ltb_ge. exact H.
Qed.

(** One round of the loop removes the boundary that ends the shortest gap
    (the lowest such gap on ties). *)
Lemma mergeLoop_step (fuel : nat) (bs : list Z) (maxS : Z) :
  (maxS + 1 < len bs)%Z -> (2 <= len bs)%Z ->
  mergeLoop (S fuel) bs maxS = mergeLoop fuel (splice1 bs (shortestGap bs + 1)) maxS.
Proof.
  intros H H2. simpl.
  replace (maxS + 1 <? len bs)%Z with true by (symmetry; apply Z.ltb_lt; lia).
  destruct (shortestGap_spec bs H2) as (Hm & _).
  replace (0 <=? shortestGap bs)%Z with true by (symmetry; apply Z.leb_le; lia).
  reflexivity.
Qed.

(** ** Candidate boundaries and sections (lines 750-829) *)

Lemma Math_floor_nonneg (x : Q) : 0 <= x -> (0 <= Math_floor x)%Z.
Proof.
  intro H. unfold Math_floor. change 0%Z with (Qfloor 0).
  now apply Qfloor_resp_le.
Qed.

Lemma kernelSize_nonneg (sr : Q) (hop : Z) :
  0 < sr -> (0 < hop)%Z -> (0 <= Math_floor (3 * sr / inject_Z hop))%Z.
Proof.
  intros Hsr Hhop. apply Math_floor_nonneg.
  apply Qle_shift_div_l; [now rewrite <- (Zlt_Qlt 0)|].
  rewrite Qmult_0_l. apply Qlt_le_weak.
  setoid_replace 0 with (3 * 0) by ring.
  now apply Qmult_lt_l.
Qed.

Lemma noveltyFunction_length (S : list (list Q)) (K : Z) :
  len (noveltyFunction S K) = Z.max 0 (len S - K - K).
Proof.
  unfold noveltyFunction, len. rewrite length_map, range_length. lia.
Qed.

(** The candidates start with frame 0, end with the last frame index
    [n - 1], and none of the others exceeds [n - 1]. *)
Lemma candidateBoundaries_shape (S : list (list Q)) (sr : Q) (hop : Z) (dur ms : Q) :
  0 < sr -> (0 < hop)%Z ->
  exists rest,
    candidateBoundaries S sr hop dur ms = 0%Z :: rest /\
    Forall (fun x => (x <= len S - 1)%Z) rest /\
    lastOpt (0%Z :: rest) = Some (len S - 1)%Z.
Proof.
  intros Hsr Hhop. unfold candidateBoundaries.
  set (K := Math_floor (3 * sr / inject_Z hop)).
  assert (HK : (0 <= K)%Z) by now apply kernelSize_nonneg.
  set (nov := noveltyFunction S K).
  assert (Hnov : len nov = Z.max 0 (len S - K - K)) by apply noveltyFunction_length.
  set (step := boundaryStep nov (calculateThreshold nov (3 # 10)) K hop sr dur ms).
  assert (G : exists r, fold_left step (range 1 (len nov - 1)) [0%Z] = 0%Z :: r
                        /\ Forall (fun x => (x <= len S - 1)%Z) r).
  { apply (fold_range_inv'
             (fun (_ : Z) bs => exists r, bs = 0%Z :: r
                                          /\ Forall (fun x => (x <= len S - 1)%Z) r)).
    - exists []. split; [reflexivity|constructor].
    - intros i bs Hi (r & -> & Hr). unfold step, boundaryStep.
      destruct (isPeak _ _ _); [|eauto].
      destruct (_ && _); [|eauto].
      exists (r ++ [(i + K)%Z]). split; [reflexivity|].
      apply Forall_app. split; [exact Hr|]. constructor; [lia|constructor]. }
  destruct G as (r & -> & Hr).
  exists (r ++ [(len S - 1)%Z]). split; [reflexivity|]. split.
  - apply Forall_app. split; [exact Hr|]. constructor; [lia|constructor].
  - change (0%Z :: r ++ [(len S - 1)%Z]) with ((0%Z :: r) ++ [(len S - 1)%Z]).
    apply lastOpt_snoc.
Qed.

(** No candidate inside when the matrix is too small for the kernel. *)
Lemma candidateBoundaries_short (S : list (list Q)) (sr : Q) (hop : Z) (dur ms : Q) :
  (len S <= 2 * Math_floor (3 * sr / inject_Z hop) + 2)%Z ->
  candidateBoundaries S sr hop dur ms = [0; len S - 1]%Z.
Proof.
  intro H. unfold candidateBoundaries.
  rewrite range_nil; [reflexivity|].
  rewrite noveltyFunction_length. lia.
Qed.

Lemma nth_error_range (lo hi : Z) (k : nat) (x : Z) :
  nth_error (range lo hi) k = Some x ->
  x = (lo + Z.of_nat k)%Z /\ (x < hi)%Z.
Proof.
  intro H. unfold range in H. rewrite nth_error_map in H.
  destruct (nth_error (seq 0 (Z.to_nat (hi - lo))) k) as [j|] eqn:E; [|discriminate].
  injection H as <-.
  assert (Hk : (k < List.length (seq 0 (Z.to_nat (hi - lo))))%nat)
    by (apply nth_error_Some; congruence).
  rewrite length_seq in Hk.
  apply nth_error_nth with (d := 0%nat) in E. rewrite seq_nth in E by exact Hk.
  subst j. simpl. lia.
Qed.

Lemma toSections_nth (bs : list Z) (sr : Q) (k : nat) (b : SectionBoundary) :
  nth_error (toSections bs sr hopSize) k = Some b ->
  (Z.of_nat k + 1 < len bs)%Z /\
  startSample b = frameSample sr (getZ bs (Z.of_nat k)) /\
  endSample b = frameSample sr (getZ bs (Z.of_nat k + 1)) /\
  startTime b = frameTime sr (getZ bs (Z.of_nat k)) /\
  endTime b = frameTime sr (getZ bs (Z.of_nat k + 1)).
Proof.
  intros H. unfold toSections in H. rewrite nth_error_map in H.
  destruct (nth_error (range 0 (len bs - 1)) k) as [i|] eqn:E; [|discriminate].
  apply nth_error_range in E. destruct E as [Hi Hlt]. simpl in Hi. subst i.
  injection H as <-. unfold sectionAt.
  cbn [startSample endSample startTime endTime].
  split; [lia|]. repeat split.
Qed.

Lemma getZ_cons (a : Z) (l : list Z) (i : Z) :
  (0 <= i)%Z -> getZ (a :: l) (i + 1) = getZ l i.
Proof.
  intro H. unfold getZ.
  replace (i + 1 <? 0)%Z with false by (symmetry; apply Z.ltb_ge; lia).
  replace (i <? 0)%Z with false by (symmetry; apply Z.ltb_ge; lia).
  replace (Z.to_nat (i + 1)) with (S (Z.to_nat i)) by lia. reflexivity.
Qed.

Lemma getZ_Forall (P : Z -> Prop) (l : list Z) (i : Z) :
  (0 <= i < len l)%Z -> Forall P l -> P (getZ l i).
Proof.
  intros Hi HP. unfold getZ.
  replace (i <? 0)%Z with false by (symmetry; apply Z.ltb_ge; lia).
  rewrite Forall_forall in HP. apply HP. apply nth_In. unfold len in Hi. lia.
Qed.

Lemma lastOpt_getZ (l : list Z) (x : Z) :
  lastOpt l = Some x -> getZ l (len l - 1) = x.
Proof.
  induction l as [|a l IH]; [discriminate|].
  intro H. destruct l as [|b l].
  - injection H as ->. reflexivity.
  - replace (len (a :: b :: l) - 1)%Z with (len (b :: l) - 1 + 1)%Z
      by (unfold len; simpl List.length; lia).
    rewrite getZ_cons by (unfold len; simpl List.length; lia).
    apply IH. exact H.
Qed.

Lemma lastOpt_nth_error {A : Type} (l : list A) (x : A) :
  lastOpt l = Some x -> nth_error l (List.length l - 1) = Some x.
Proof.
  induction l as [|a l IH]; [discriminate|].
  intro H. destruct l as [|b l].
  - injection H as ->. reflexivity.
  - simpl List.length. replace (S (S (List.length l)) - 1)%nat with (S (List.length l)) by lia.
    simpl nth_error. specialize (IH H). simpl List.length in IH.
    replace (S (List.length l) - 1)%nat with (List.length l) in IH by lia. exact IH.
Qed.

(** ** labelSections (lines 835-901) *)

Lemma labelSections_length (bs : list SectionBoundary) (energy : list Q) (dur : Q) :
  List.length (labelSections bs energy dur) = List.length bs.
Proof.
  unfold labelSections. destruct bs as [|b bs]; [reflexivity|].
  rewrite length_map, range_length. unfold len. lia.
Qed.

(** Section [k] keeps its samples and times, and gets its confidence (the
    normalized energy) and its label, the decision of [sectionLabel]
    followed by the 1-based index. *)
Lemma labelSections_nth (bs : list SectionBoundary) (energy : list Q) (dur : Q)
    (k : nat) (lb : SectionBoundary) :
  nth_error (labelSections bs energy dur) k = Some lb ->
  exists b,
    nth_error bs k = Some b /\
    startSample lb = startSample b /\ endSample lb = endSample b /\
    startTime lb = startTime b /\ endTime lb = endTime b /\
    sectionConfidence lb = Some (normalizedEnergy bs energy (Z.of_nat k)) /\
    label lb
    = (sectionLabel (Z.of_nat k) (len bs) (normalizedEnergy bs energy (Z.of_nat k))
                    (startTime b / dur)
       ++ " " ++ decimal (Z.of_nat k + 1))%string.
Proof.
  intro H.
  assert (Hk : (k < List.length bs)%nat).
  { rewrite <- (labelSections_length bs energy dur). apply nth_error_Some. congruence. }
  unfold labelSections in H. destruct bs as [|b0 bs]; [simpl in Hk; lia|].
  rewrite nth_error_map in H.
  destruct (nth_error (range 0 (len (b0 :: bs))) k) as [i|] eqn:E; [|discriminate].
  apply nth_error_range in E. destruct E as [Hi _]. simpl in Hi. subst i.
  injection H as <-. rewrite Nat2Z.id.
  exists (nth k (b0 :: bs) (mkSectionBoundary 0 0 0 0 "" None)).
  split; [now apply nth_error_nth'|].
  cbn [startSample endSample startTime endTime sectionConfidence label].
  repeat split; reflexivity.
Qed.

(** ** The whole call (lines 508-697) *)

Lemma audioBufferToMono_length (b : AudioBuffer) :
  len (audioBufferToMono b) = bufferLength b.
Proof.
  unfold audioBufferToMono. destruct (numberOfChannels b =? 1)%Z; [reflexivity|].
  assert (G : forall (l : list Z) (init : list Q),
             len init = bufferLength b ->
             len (fold_left
                    (fun mono i =>
                       map (fun j =>
                              Math_fround
                                (toDouble (get mono j
                                           + toDouble (get (getChannelData b i) j
                                                       / inject_Z (numberOfChannels b)))))
                           (range 0 (bufferLength b))) l init)
             = bufferLength b).
  { induction l as [|i l IH]; intros init Hinit; simpl; [exact Hinit|].
    apply IH. unfold len. rewrite length_map, range_length.
    unfold bufferLength, len. lia. }
  apply G. unfold len. rewrite length_map, range_length.
  unfold bufferLength, len. lia.
Qed.

Lemma Resolved_inj {A : Type} (a b : A) : Resolved a = Resolved b -> a = b.
Proof. intro H. now injection H. Qed.

(** What a call that resolves returns. *)
Lemma detectSongStructure_resolved (h : Host) (c cAtTempo : Core)
    (audioBuffer : AudioBuffer) (options : StructureOptions) (r : SongStructureResult) :
  settled (detectSongStructure h c cAtTempo audioBuffer options) = Resolved r ->
  exists e,
    ensureInitialized c = Resolved e /\
    boundaries r
    = labelSections (structureSections h e audioBuffer options)
                    (energyProfile (structureFeatures h e audioBuffer options))
                    (duration audioBuffer).
Proof.
  unfold detectSongStructure. destruct (ensureInitialized c) as [e|m]; [|discriminate].
  cbv zeta. destruct (detectBPM cAtTempo audioBuffer) as [b|m];
    cbn [settled]; [|discriminate].
  intro H. apply Resolved_inj in H. rewrite <- H.
  exists e. split; [reflexivity|].
  unfold structureSections, structureCandidates, structureMatrix, structureFeatures,
    maxSectionsOf, detectBoundaries.
  cbn [boundaries]. reflexivity.
Qed.

(** A call on an initialized core resolves when the tempo stage does. *)
Lemma detectSongStructure_resolves (h : Host) (c cAtTempo : Core) (e : Essentia)
    (audioBuffer : AudioBuffer) (options : StructureOptions) (b : BPMResult) :
  ensureInitialized c = Resolved e ->
  detectBPM cAtTempo audioBuffer = Resolved b ->
  settled (detectSongStructure h c cAtTempo audioBuffer options)
  = Resolved (mkSongStructureResult
                (labelSections (structureSections h e audioBuffer options)
                               (energyProfile (structureFeatures h e audioBuffer options))
                               (duration audioBuffer))
                (bpm b)).
Proof.
  intros He Hb. unfold detectSongStructure. rewrite He. cbv zeta. rewrite Hb.
  unfold structureSections, structureCandidates, structureMatrix, structureFeatures,
    maxSectionsOf, detectBoundaries.
  cbn [settled]. reflexivity.
Qed.

Lemma structureMatrix_length (h : Host) (e : Essentia) (audioBuffer : AudioBuffer)
    (options : StructureOptions) :
  len (structureMatrix h e audioBuffer options)
  = Z.max 0 ((bufferLength audioBuffer - frameSize) / hopSize).
Proof.
  unfold structureMatrix, buildSimilarityMatrixQ, buildSimilarityMatrix, len.
  rewrite length_map.
  destruct (extractFeatures_count h e (audioBufferToMono audioBuffer)
              (sampleRate audioBuffer) (structureProgress options)) as (H & _).
  unfold structureFeatures. rewrite H, audioBufferToMono_length. lia.
Qed.

(** The boundaries the sections are cut at: frame 0 first, then frames up
    to the last frame index. *)
Lemma merged_shape (h : Host) (e : Essentia) (audioBuffer : AudioBuffer)
    (options : StructureOptions) :
  0 < sampleRate audioBuffer ->
  exists rest,
    mergeBoundaries (structureCandidates h e audioBuffer options) (maxSectionsOf options)
    = 0%Z :: rest /\
    Forall (fun x => (x <= Z.max 0 ((bufferLength audioBuffer - frameSize) / hopSize) - 1)%Z)
           rest.
Proof.
  intro Hsr. unfold structureCandidates.
  destruct (candidateBoundaries_shape (structureMatrix h e audioBuffer options)
              (sampleRate audioBuffer) hopSize (duration audioBuffer)
              (orDefault (minSectionDuration options) 5) Hsr eq_refl)
    as (rest & -> & Hrest & _).
  rewrite structureMatrix_length in Hrest.
  unfold mergeBoundaries.
  destruct (mergeLoop_shape _ (maxSectionsOf options) (List.length (0%Z :: rest)) rest Hrest)
    as (rest' & -> & Hrest').
  now exists rest'.
Qed.

Lemma last_frame_offset_below_length (N : Z) :
  (0 <= N)%Z -> ((Z.max 0 ((N - frameSize) / hopSize) - 1) * hopSize < N)%Z.
Proof.
  intro HN. unfold hopSize, frameSize.
  destruct (Z.max_spec 0 ((N - 2048) / 512)) as [[_ Hmax]|[_ Hmax]]; rewrite Hmax; [|lia].
  pose proof (Z.mul_div_le (N - 2048) 512). lia.
Qed.

Lemma map_range_nth {A B : Type} (f : A -> B) (d : A) (l : list A) :
  map (fun i => f (nth (Z.to_nat i) l d)) (range 0 (len l)) = map f l.
Proof.
  induction l as [|x l IH] using rev_ind; [reflexivity|].
  replace (len (l ++ [x])) with (len l + 1)%Z
    by (unfold len; rewrite length_app; simpl; lia).
  rewrite range_snoc by apply len_nonneg.
  rewrite !map_app. f_equal.
  - rewrite <- IH. apply map_ext_in. intros i Hi. apply range_In in Hi.
    rewrite app_nth1 by (unfold len in Hi; lia). reflexivity.
  - simpl. unfold len. rewrite Nat2Z.id, nth_middle. reflexivity.
Qed.

(** Labelling changes neither the samples nor the order of the sections. *)
Lemma labelSections_samples (bs : list SectionBoundary) (energy : list Q) (dur : Q) :
  map (fun b => (startSample b, endSample b)) (labelSections bs energy dur)
  = map (fun b => (startSample b, endSample b)) bs.
Proof.
  unfold labelSections. destruct bs as [|b0 bs]; [reflexivity|].
  rewrite map_map. cbn [startSample endSample].
  apply (map_range_nth (fun b => (startSample b, endSample b))).
Qed.

Lemma silent_structure (n N : Z) :
  (0 < N)%Z -> ((N - frameSize) / hopSize = n + 1)%Z -> (1 <= n < 258)%Z ->
  let audioBuffer := monoBuffer (repeat 0 (Z.to_nat N)) 44100 in
  exists r,
    settled (detectSongStructure doubleHost failingCore failingCore audioBuffer
               (mkStructureOptions None None true)) = Resolved r /\
    map (fun b => (startSample b, endSample b)) (boundaries r)
    = [(frameSample 44100 0, frameSample 44100 n)] /\
    bufferLength audioBuffer = N.
Proof.
  intros HN0 Hframes Hn audioBuffer. set (options := mkStructureOptions None None true).
  assert (HN : bufferLength audioBuffer = N).
  { change (bufferLength audioBuffer) with (len (repeat 0 (Z.to_nat N))).
    apply len_repeat. lia. }
  assert (HS : len (structureMatrix doubleHost failingEssentia audioBuffer options)
               = (n + 1)%Z).
  { rewrite structureMatrix_length, HN, Hframes. lia. }
  assert (Hc : structureCandidates doubleHost failingEssentia audioBuffer options
               = [0; n]%Z).
  { unfold structureCandidates. rewrite candidateBoundaries_short; rewrite HS.
    - do 2 f_equal. lia.
    - change (sampleRate audioBuffer) with 44100.
      change (Math_floor (3 * 44100 / inject_Z hopSize)) with 258%Z. lia. }
  eexists. split; [|split; [|exact HN]].
  - apply (detectSongStructure_resolves doubleHost failingCore failingCore failingEssentia);
      reflexivity.
  - cbn [boundaries]. rewrite labelSections_samples.
    unfold structureSections. rewrite Hc.
    change (sampleRate audioBuffer) with 44100.
    unfold mergeBoundaries, maxSectionsOf. cbn [maxSections options List.length mergeLoop].
    replace (8 + 1 <? len [0%Z; n])%Z with false by reflexivity.
    reflexivity.
Qed.

(** C3 at the failing input: 100000 samples of silence at 44100 Hz with the
    default options.  The feature pass analyses 191 frames, the forced
    final boundary is the frame 190 (line 788, under the comment "Always
    end at the end"), and the result is the single section from sample 0
    to sample 97280 = 190 * 512, the offset of the last analysed frame: the
    last [endSample] is not the buffer length 100000.  Moreover the sample
    is the floor of a time in seconds multiplied back by the sample rate,
    which can fall one short of the frame offset: for 10240 samples the
    single section ends at 7679, neither the length nor 15 * 512 = 7680. *)
Theorem last_section_ends_short_of_buffer :
  (exists r,
     settled (detectSongStructure doubleHost failingCore failingCore
                (monoBuffer (repeat 0 (Z.to_nat 100000)) 44100)
                (mkStructureOptions None None true)) = Resolved r /\
     map (fun b => (startSample b, endSample b)) (boundaries r) = [(0, 97280)]%Z /\
     bufferLength (monoBuffer (repeat 0 (Z.to_nat 100000)) 44100) = 100000%Z) /\
  (exists r,
     settled (detectSongStructure doubleHost failingCore failingCore
                (monoBuffer (repeat 0 (Z.to_nat 10240)) 44100)
                (mkStructureOptions None None true)) = Resolved r /\
     map (fun b => (startSample b, endSample b)) (boundaries r) = [(0, 7679)]%Z /\
     bufferLength (monoBuffer (repeat 0 (Z.to_nat 10240)) 44100) = 10240%Z).
Proof.
  split.
  - destruct (silent_structure 190 100000) as (r & H1 & H2 & H3);
      [reflexivity|reflexivity|lia|].
    exists r. split; [exact H1|]. split; [|exact H3]. rewrite H2. reflexivity.
  - destruct (silent_structure 15 10240) as (r & H1 & H2 & H3);
      [reflexivity|reflexivity|lia|].
    exists r. split; [exact H1|]. split; [|exact H3]. rewrite H2. reflexivity.
Qed.

(** ** The budget (lines 790-829) *)

(** For a budget that is not negative, at most [maxSections] sections are
    returned. *)
Lemma detectBoundaries_budget (S : list (list Q)) (energy : list Q) (sr : Q) (hop : Z)
    (dur : Q) (maxS : Z) (ms : Q) :
  (0 <= maxS)%Z ->
  (len (detectBoundaries S energy sr hop dur maxS ms) <= maxS)%Z.
Proof.
  intro HmaxS. unfold detectBoundaries, toSections, mergeBoundaries.
  set (bs := candidateBoundaries S sr hop dur ms).
  destruct (mergeLoop_budget maxS HmaxS (List.length bs) bs (Nat.le_refl _)) as [H _].
  unfold len in *. rewrite length_map, range_length. lia.
Qed.

Lemma candidates_of_two_blocks :
  candidateBoundaries (twoBlocks 97 50) 8000 512 (51712 # 8000) 3 = [0; 49; 96]%Z.
Proof. vm_compute. reflexivity. Qed.

(** C4 at the failing input: 97 frames at 8000 Hz (51712 samples) whose
    chroma changes at the silent frame 50, minSectionDuration 3 s,
    maxSections 1.  The candidates are the frames 0, 49 and 96; the shortest
    gap is the last one (index 1), and the loop deletes the boundary that
    ends it, the final boundary 96, not the interior boundary 49: the single
    section returned stops at sample 25088 = 49 * 512. *)
Theorem budget_loop_deletes_final_boundary :
  candidateBoundaries (twoBlocks 97 50) 8000 512 (51712 # 8000) 3 = [0; 49; 96]%Z /\
  shortestGap [0; 49; 96]%Z = 1%Z /\
  mergeBoundaries [0; 49; 96]%Z 1 = [0; 49]%Z /\
  map (fun b => (startSample b, endSample b))
      (detectBoundaries (twoBlocks 97 50) [] 8000 512 (51712 # 8000) 1 3)
  = [(0, 25088)]%Z.
Proof.
  split; [exact candidates_of_two_blocks|].
  split; [reflexivity|]. split; [reflexivity|].
  unfold detectBoundaries. rewrite candidates_of_two_blocks.
  vm_compute. reflexivity.
Qed.

(** ** Labels and confidence (lines 835-901) *)

(** C9 at the failing input: 1500 frames at 44100 Hz cut at the frames 0,
    501, 1001 and 1499, loud (energy 10) in the first and third section and
    quiet (energy 1) in the second.  The code averages over the frames
    [floor(44.1 * time)], that is 0-255, 256-511 and 512-766, and returns
    the confidences 1, 2461/2560 and 1/10 with the labels Intro 1, Chorus 2
    and Bridge 3; the means over the frame ranges of the sections,
    normalized by their maximum, are 1, 1/10 and 1657/1660 (the third
    section starts at sample 1001 * 512 - 1, in frame 1000, which is
    quiet). *)
Theorem confidence_uses_scaled_frame_range :
  let sections := toSections [0; 501; 1001; 1499]%Z 44100 512 in
  let energy := repeat 10 501 ++ repeat 1 500 ++ repeat 10 499 in
  let duration := 770048 # 44100 in
  map (fun b => (label b, option_map Qred (sectionConfidence b)))
      (labelSections sections energy duration)
  = [("Intro 1"%string, Some 1); ("Chorus 2"%string, Some (2461 # 2560));
     ("Bridge 3"%string, Some (1 # 10))] /\
  map (fun k => Qred (specConfidence sections energy 512 k)) [0; 1; 2]%Z
  = [1; 1 # 10; 1657 # 1660].
Proof.
  split; vm_compute; reflexivity.
Qed.

(** * Further properties of the analysis core *)

(** ** Lifecycle (lines 193-312) *)

(** X1: after [cleanup] the core is not available, whatever it was before:
    every analysis call rejects without reporting progress and leaves the
    core as it is; [cleanup] keeps the window cache and a second [cleanup]
    changes nothing. *)
Theorem cleanup_disables_analysis (h : Host) (c cAtTempo : Core) (audioBuffer : AudioBuffer)
    (onsetOptions : OnsetOptions) (structureOptions : StructureOptions) :
  let c' := cleanup c in
  isAvailable c' = false /\
  cleanup c' = c' /\
  windowCache c' = windowCache c /\
  (exists m, detectOnsets h c' audioBuffer onsetOptions = (c', mkRun [] (Rejected m))) /\
  (exists m, detectBPM c' audioBuffer = Rejected m) /\
  (exists m, detectSongStructure h c' cAtTempo audioBuffer structureOptions
             = mkRun [] (Rejected m)).
Proof.
  intro c'. subst c'. unfold cleanup, isAvailable, detectOnsets, detectBPM,
    detectSongStructure, ensureInitialized.
  destruct c as [[e|] init promise cache]; cbn [essentia isInitialized windowCache].
  - repeat split; eauto.
  - rewrite andb_false_r. destruct init; repeat split; eauto.
Qed.

(** X2: on a core that is not initialized and holds no promise (a new
    core, a core after [cleanup]): a successful [initialize] makes it
    available, with the window cache it had; [initialize] on an initialized
    core does nothing, whatever the host has become; an [initialize] that
    fails after something was awaited (an import that fails, an [init]
    whose promise rejects) leaves the core as it was, so that it can be
    retried; an [initialize] that fails before anything was awaited (no
    global scope, no WebAssembly, a loaded module whose [init] or
    constructor throws) leaves the rejected promise in the core: every
    later [initialize] rejects with the same error, whatever the host has
    become, and [cleanup] does not reset it, as a core without an engine is
    left as it is; and after [cleanup] of an initialized core a successful
    [initialize] makes it available again. *)
Theorem initialize_lifecycle (env env' late early : Environment) (c : Core)
    (e : Essentia) (m m' : string) :
  snd (loadEngine env) = Resolved e ->
  loadEngine late = (true, Rejected m) ->
  loadEngine early = (false, Rejected m') ->
  essentia c = None -> isInitialized c = false -> initializationPromise c = None ->
  let c1 := fst (initialize env c) in
  let stuck := fst (initialize early c) in
  (initialize env c
   = (mkCore (Some e) true (Some (Resolved tt)) (windowCache c), Resolved tt) /\
   isAvailable c1 = true) /\
  initialize env' c1 = (c1, Resolved tt) /\
  initialize late c = (c, Rejected m) /\
  (initialize early c = (stuck, Rejected m') /\
   isAvailable stuck = false /\
   initialize env' stuck = (stuck, Rejected m') /\
   cleanup stuck = stuck) /\
  initialize env (cleanup c1)
  = (mkCore (Some e) true (Some (Resolved tt)) (windowCache c), Resolved tt).
Proof.
  intros He Hlate Hearly Hn Hi Hp c1 stuck. subst c1 stuck.
  destruct c as [en init promise cache]. cbn in Hn, Hi, Hp. subst en init promise.
  unfold initialize. cbn [isInitialized initializationPromise essentia windowCache].
  rewrite Hlate, Hearly.
  destruct (loadEngine env) as [[|] r]; cbn [snd] in He; subst r;
    cbn [fst snd isInitialized initializationPromise essentia windowCache cleanup
         isAvailable andb];
    repeat split.
Qed.

Lemma initialize_lifecycle_witness :
  let env := loadingBrowser bandEssentia in
  let env' := browserWithoutWebAssembly in
  let late := mkEnvironment true true None (Rejected "Cannot find module") in
  let early := browserWithoutWebAssembly in
  let c1 := fst (initialize env newCore) in
  let stuck := fst (initialize early newCore) in
  (initialize env newCore
   = (mkCore (Some bandEssentia) true (Some (Resolved tt)) (windowCache newCore),
      Resolved tt) /\
   isAvailable c1 = true) /\
  initialize env' c1 = (c1, Resolved tt) /\
  initialize late newCore
  = (newCore, Rejected "Failed to import Essentia.js: Cannot find module") /\
  (initialize early newCore
   = (stuck, Rejected "WebAssembly is not supported in this browser") /\
   isAvailable stuck = false /\
   initialize env' stuck = (stuck, Rejected "WebAssembly is not supported in this browser") /\
   cleanup stuck = stuck) /\
  initialize env (cleanup c1)
  = (mkCore (Some bandEssentia) true (Some (Resolved tt)) (windowCache newCore),
     Resolved tt).
Proof.
  apply (initialize_lifecycle (loadingBrowser bandEssentia) browserWithoutWebAssembly
           (mkEnvironment true true None (Rejected "Cannot find module"))
           browserWithoutWebAssembly newCore bandEssentia
           "Failed to import Essentia.js: Cannot find module"
           "WebAssembly is not supported in this browser"); reflexivity.
Defined.

(** ** The window cache (lines 922-934) *)

Lemma getHannWindow_again (h : Host) (c : Core) (size : Z) :
  getHannWindow h (snd (getHannWindow h c size)) size = getHannWindow h c size
  \/ getHannWindow h (snd (getHannWindow h c size)) size
     = (fst (getHannWindow h c size), snd (getHannWindow h c size)).
Proof.
  right. unfold getHannWindow.
  destruct (cacheGet (windowCache c) size) as [w|] eqn:E; cbn [fst snd].
  - rewrite E. reflexivity.
  - cbn [windowCache cacheGet]. rewrite Z.eqb_refl. reflexivity.
Qed.

Lemma getHannWindow_cached (h : Host) (c : Core) (size : Z) :
  let w := fst (getHannWindow h c size) in
  let c1 := snd (getHannWindow h c size) in
  getHannWindow h c1 size = (w, c1) /\
  cacheGet (windowCache c1) size = Some w /\
  essentia c1 = essentia c /\
  isInitialized c1 = isInitialized c /\
  (forall size', size' <> size ->
     cacheGet (windowCache c1) size' = cacheGet (windowCache c) size').
Proof.
  intros w c1. subst w c1.
  split; [destruct (getHannWindow_again h c size) as [H|H]; [|exact H];
          rewrite H; now destruct (getHannWindow h c size)|].
  unfold getHannWindow.
  destruct (cacheGet (windowCache c) size) as [w|] eqn:E; cbn [fst snd].
  - repeat split; auto.
  - cbn [windowCache essentia isInitialized cacheGet]. rewrite Z.eqb_refl.
    repeat split; auto.
    intros size' Hne. replace (size =? size')%Z with false; [reflexivity|].
    symmetry. apply Z.eqb_neq. congruence.
Qed.

(** X3: a second request for a window of the same size returns the same
    coefficients and leaves the core as the first request left it; the first
    request changes neither the engine, nor the initialized flag, nor the
    cached windows of other sizes. *)
Theorem window_cache_hit (h : Host) (c : Core) (size : Z) :
  let w := fst (getHannWindow h c size) in
  let c1 := snd (getHannWindow h c size) in
  getHannWindow h c1 size = (w, c1) /\
  cacheGet (windowCache c1) size = Some w /\
  essentia c1 = essentia c /\
  isInitialized c1 = isInitialized c /\
  (forall size', size' <> size ->
     cacheGet (windowCache c1) size' = cacheGet (windowCache c) size').
Proof. exact (getHannWindow_cached h c size). Qed.

(** X4: detectOnsets keeps no state between calls beyond the window cache:
    calling it again on the core the first call returned, with the same
    buffer and options, gives the same progress values and the same outcome
    and returns that core unchanged. *)
Theorem detectOnsets_repeatable (h : Host) (c : Core) (audioBuffer : AudioBuffer)
    (options : OnsetOptions) :
  let first := detectOnsets h c audioBuffer options in
  detectOnsets h (fst first) audioBuffer options = (fst first, snd first).
Proof.
  intro first. subst first. unfold detectOnsets.
  destruct (ensureInitialized c) as [e|m] eqn:He; cbn [fst snd].
  2:{ rewrite He. reflexivity. }
  destruct (getHannWindow_cached h c frameSize) as (Hhit & _ & Hen & Hin & _).
  destruct (getHannWindow h c frameSize) as [w c1] eqn:Hw. cbn [fst snd] in *.
  assert (He1 : ensureInitialized c1 = Resolved e).
  { unfold ensureInitialized in *. rewrite Hen, Hin. exact He. }
  destruct (onsetLoop _ e w _ _ _ 0 0 _) as [p [st|]] eqn:Hl; cbn [fst snd];
    rewrite He1, Hhit, Hl; reflexivity.
Qed.

(** ** Downmix (lines 317-335) *)

Lemma get_map_range (f : Z -> Q) (n j : Z) :
  (0 <= j < n)%Z -> get (map f (range 0 n)) j = f j.
Proof.
  intro Hj. unfold get.
  replace (j <? 0)%Z with false by (symmetry; apply Z.ltb_ge; lia).
  rewrite (nth_indep _ 0 (f 0%Z)) by (rewrite length_map, range_length; lia).
  rewrite map_nth. f_equal. unfold range.
  rewrite (nth_indep _ 0%Z (0 + Z.of_nat 0)%Z) by (rewrite length_map, length_seq; lia).
  rewrite (map_nth (fun k => (0 + Z.of_nat k)%Z)), seq_nth by lia. lia.
Qed.

(** The two samples of frame [j] through the two passes of the loop. *)
Lemma downmix_core_stereo (sr dur : Q) (left right : list Q) (j : Z) :
  (0 <= j < len left)%Z ->
  get (audioBufferToMono (mkAudioBuffer sr dur [left; right])) j
  = Math_fround
      (toDouble (Math_fround (toDouble (0 + toDouble (get left j / 2)))
                 + toDouble (get right j / 2))).
Proof.
  intro Hj.
  unfold audioBufferToMono, numberOfChannels, bufferLength, getChannelData.
  cbn [channels List.length len Z.of_nat Z.eqb Pos.of_succ_nat Pos.succ Pos.eqb].
  change (range 0 2) with [0%Z; 1%Z].
  cbn [fold_left Z.to_nat Pos.to_nat Pos.iter_op nth Nat.add].
  rewrite !get_map_range by exact Hj.
  change (Pos.to_nat 1) with 1%nat. cbv iota.
  reflexivity.
Qed.

(** X5: downmix keeps the length of the buffer for any number of channels
    and returns a mono buffer as it is.  A stereo buffer gives, sample by
    sample, the single-precision value left by the two passes of the loop:
    half the left sample stored in single precision, then that plus half the
    right sample, stored in single precision again.  That is not always the
    average: two samples 2^-149 give 0. *)
Theorem downmix_mono_and_stereo (b : AudioBuffer) (sr dur : Q) (left right : list Q)
    (j : Z) :
  len right = len left ->
  (0 <= j < len left)%Z ->
  len (audioBufferToMono b) = bufferLength b /\
  audioBufferToMono (mkAudioBuffer sr dur [left]) = left /\
  get (audioBufferToMono (mkAudioBuffer sr dur [left; right])) j
  = Math_fround
      (toDouble (Math_fround (toDouble (0 + toDouble (get left j / 2)))
                 + toDouble (get right j / 2))) /\
  get (audioBufferToMono (mkAudioBuffer sr dur [[pow2 (-149)]; [pow2 (-149)]])) 0 == 0.
Proof.
  intros _ Hj. split; [apply audioBufferToMono_length|]. split; [reflexivity|].
  split; [now apply downmix_core_stereo|].
  rewrite downmix_core_stereo by (vm_compute; intuition congruence).
  vm_compute. reflexivity.
Qed.

Lemma downmix_mono_and_stereo_witness :
  let b := mkAudioBuffer 44100 1 [[1; 3]; [5; 1]; [0; 0]] in
  len (audioBufferToMono b) = bufferLength b /\
  audioBufferToMono (mkAudioBuffer 44100 1 [[1; 3]]) = [1; 3] /\
  get (audioBufferToMono (mkAudioBuffer 44100 1 [[1; 3]; [5; 1]])) 1
  = Math_fround
      (toDouble (Math_fround (toDouble (0 + toDouble (get [1; 3] 1 / 2)))
                 + toDouble (get [5; 1] 1 / 2))) /\
  get (audioBufferToMono (mkAudioBuffer 44100 1 [[pow2 (-149)]; [pow2 (-149)]])) 0 == 0.
Proof.
  intro b.
  apply (downmix_mono_and_stereo b 44100 1 [1; 3] [5; 1] 1); vm_compute; intuition congruence.
Defined.

(** ** What the peak loop reports (lines 408-434) *)

Lemma isPeak_spec (f : list Q) (th : Q) (k : Z) :
  isPeak f th k = true <->
  th < get f k /\ get f (k - 1) < get f k /\ get f (k + 1) < get f k.
Proof.
  unfold isPeak. rewrite !andb_true_iff, !Qgtb_gt. tauto.
Qed.




(** X7: a flux sequence without a strict local maximum (constant, rising or
    falling throughout, or shorter than three frames) gives no onset,
    whatever the sensitivity and the minimum distance. *)
Theorem no_local_maximum_no_onset (onsetFunction : list Q) (sensitivity minDistance sr : Q) :
  (forall k, (1 <= k <= len onsetFunction - 2)%Z ->
             get onsetFunction k <= get onsetFunction (k - 1)
             \/ get onsetFunction k <= get onsetFunction (k + 1)) ->
  pickOnsets onsetFunction sensitivity minDistance sr = mkOnsetResult [] [].
Proof.
  intro Hflat. unfold pickOnsets.
  set (th := calculateThreshold onsetFunction sensitivity).
  set (mdf := Math_floor (toDouble (toDouble (minDistance * sr) / inject_Z hopSize))).
  assert (G : fold_left (peakStep onsetFunction th mdf sr)
                        (range 1 (len onsetFunction - 1)) (mkPeakState [] [] None)
              = mkPeakState [] [] None).
  { apply (fold_range_inv' (fun (_ : Z) st => st = mkPeakState [] [] None)).
    - reflexivity.
    - intros i st Hi ->. unfold peakStep.
      destruct (isPeak onsetFunction th i) eqn:Hp; [|reflexivity].
      apply isPeak_spec in Hp. destruct Hp as (_ & H1 & H2).
      destruct (Hflat i) as [H|H]; [lia| |]; exfalso.
      + exact (Qlt_not_le _ _ H1 H).
      + exact (Qlt_not_le _ _ H2 H). }
  rewrite G. reflexivity.
Qed.

Lemma no_local_maximum_no_onset_witness :
  pickOnsets [0; 1; 2; 2; 7] (1 # 2) (1 # 20) 44100 = mkOnsetResult [] [].
Proof.
  apply (no_local_maximum_no_onset [0; 1; 2; 2; 7] (1 # 2) (1 # 20) 44100).
  intros k Hk.
  assert (Hc : k = 1%Z \/ k = 2%Z \/ k = 3%Z) by (unfold len in Hk; simpl in Hk; lia).
  destruct Hc as [-> | [-> | ->]]; [right|right|right]; vm_compute; discriminate.
Defined.

(** ** The frame loop of detectOnsets, continued (lines 361-406) *)

Lemma spectralFlux_fold_nonneg (m previous : list Q) (l : list Z) :
  forall acc, 0 <= acc ->
    0 <= fold_left (fun fluxValue j =>
                      let diff := get m j - get previous j in
                      if Qgtb diff 0 then fluxValue + diff else fluxValue) l acc.
Proof.
  induction l as [|j l IH]; intros acc Hacc; simpl; [exact Hacc|].
  apply IH. destruct (Qgtb (get m j - get previous j) 0) eqn:E; [|exact Hacc].
  apply Qgtb_gt in E.
  setoid_replace 0 with (0 + 0) by ring.
  apply Qplus_le_compat; [exact Hacc|now apply Qlt_le_weak].
Qed.

(** X8: the spectral flux of a frame is never negative; it is 0 for the
    first frame, which has no previous spectrum, and 0 for a frame whose
    spectrum equals the previous one. *)
Theorem spectral_flux_nonnegative (previous : option (list Q)) (magnitudeArray : list Q) :
  0 <= spectralFlux previous magnitudeArray /\
  spectralFlux None magnitudeArray = 0 /\
  spectralFlux (Some magnitudeArray) magnitudeArray = 0.
Proof.
  split; [|split; [reflexivity|]].
  - destruct previous as [prev|]; [|apply Qle_refl].
    apply spectralFlux_fold_nonneg. apply Qle_refl.
  - unfold spectralFlux.
    generalize (range 0 (Z.min (len magnitudeArray) (len magnitudeArray))).
    induction l as [|j l IH]; [reflexivity|]. simpl.
    replace (Qgtb (get magnitudeArray j - get magnitudeArray j) 0) with false; [exact IH|].
    symmetry. destruct (Qgtb _ 0) eqn:E; [|reflexivity].
    apply Qgtb_gt in E. exfalso. apply (Qlt_irrefl 0).
    setoid_replace (get magnitudeArray j - get magnitudeArray j) with 0 in E by ring.
    exact E.
Qed.

(** X9: on a buffer of at least frameSize samples whose spectrum calls
    return, the frame loop of detectOnsets completes within the fuel
    detectOnsets gives it (more fuel changes nothing) and has computed the
    flux of exactly [floor((N - frameSize) / hopSize) + 1] frames. *)
Theorem onset_pass_processes_every_frame (e : Essentia) (w av : list Q) (onp : bool)
    (total : Z) :
  (frameSize <= len av)%Z ->
  (forall i, exists m, frameMagnitudes e w av i = Some m) ->
  exists p st,
    onsetLoop (S (List.length av)) e w av onp total 0 0 (mkOnsetPass [] None [])
    = (p, Some st) /\
    onsetLoop (S (S (List.length av))) e w av onp total 0 0 (mkOnsetPass [] None [])
    = (p, Some st) /\
    len (onsetFunction st) = ((len av - frameSize) / hopSize + 1)%Z.
Proof.
  intros HN He.
  destruct (onsetLoop_completes e w av onp total He (S (List.length av)) 0 0
              (mkOnsetPass [] None [])) as (p & st & Hrun).
  exists p, st. split; [exact Hrun|]. split.
  - rewrite onsetLoop_fuel; [exact Hrun|lia|].
    unfold len, hopSize, frameSize in *. lia.
  - now apply (onset_pass_frame_count e w av onp total p st).
Qed.

Lemma onset_pass_processes_every_frame_witness :
  let av := pulses [0; 5; 1; 9; 2; 5; 3] 5120 in
  let w := hannApprox frameSize in
  exists p st,
    onsetLoop (S (List.length av)) headEssentia w av true 6 0 0 (mkOnsetPass [] None [])
    = (p, Some st) /\
    onsetLoop (S (S (List.length av))) headEssentia w av true 6 0 0 (mkOnsetPass [] None [])
    = (p, Some st) /\
    len (onsetFunction st) = ((len av - frameSize) / hopSize + 1)%Z.
Proof.
  apply (onset_pass_processes_every_frame headEssentia (hannApprox frameSize)
           (pulses [0; 5; 1; 9; 2; 5; 3] 5120) true 6).
  - vm_compute. discriminate.
  - intro i. eexists. reflexivity.
Defined.



(** The progress values of the frame loop (line 374). *)
Lemma onsetLoop_progress (e : Essentia) (w av : list Q) (total : Z) :
  (0 < total)%Z ->
  forall (fuel : nat) (i fi : Z) (st : OnsetPass),
    (0 <= fi)%Z ->
    Sorted Qle (passProgress st) ->
    Forall (fun p => p <= Qmin 1 (inject_Z fi / inject_Z total)) (passProgress st) ->
    Sorted Qle (fst (onsetLoop fuel e w av true total i fi st)) /\
    Forall (fun p => p <= 1) (fst (onsetLoop fuel e w av true total i fi st)).
Proof.
  intros Htotal.
  assert (Hmono : forall a b : Z, (a <= b)%Z ->
            Qmin 1 (inject_Z a / inject_Z total) <= Qmin 1 (inject_Z b / inject_Z total)).
  { intros a b Hab. apply Q.min_le_compat_l.
    unfold Qdiv. apply Qmult_le_compat_r; [now rewrite <- Zle_Qle|].
    apply Qlt_le_weak. apply Qinv_lt_0_compat. now rewrite <- (Zlt_Qlt 0). }
  assert (Hone : forall (l : list Q) (b : Z),
            Forall (fun p => p <= Qmin 1 (inject_Z b / inject_Z total)) l ->
            Forall (fun p => p <= 1) l).
  { intros l b Hl. eapply Forall_impl; [|exact Hl]. simpl. intros p Hp.
    eapply Qle_trans; [exact Hp|]. apply Q.le_min_l. }
  induction fuel as [|fuel IH]; intros i fi st Hfi Hs Hb.
  - simpl. split; [exact Hs|]. now apply (Hone _ fi).
  - cbn [onsetLoop]. destruct (i <=? len av - frameSize)%Z.
    2:{ simpl. split; [exact Hs|]. now apply (Hone _ fi). }
    set (p := if ((0 <? fi)%Z && (fi mod 10 =? 0)%Z)%bool
              then report true (Qmin 1 (inject_Z fi / inject_Z total)) else []).
    assert (Hp : Sorted Qle (passProgress st ++ p)
                 /\ Forall (fun x => x <= Qmin 1 (inject_Z fi / inject_Z total))
                           (passProgress st ++ p)).
    { subst p. destruct ((0 <? fi)%Z && (fi mod 10 =? 0)%Z)%bool; cbn [report].
      - split; [now apply Sorted_Qle_snoc|].
        apply Forall_app. split; [exact Hb|]. repeat constructor. apply Qle_refl.
      - rewrite app_nil_r. now split. }
    destruct Hp as [Hs' Hb'].
    destruct (frameMagnitudes e w av i) as [m|].
    + apply IH; [lia|exact Hs'|].
      eapply Forall_impl; [|exact Hb']. simpl. intros x Hx.
      eapply Qle_trans; [exact Hx|]. apply Hmono. lia.
    + cbn [fst]. split; [exact Hs'|]. now apply (Hone _ fi).
Qed.

(** X11: the progress values detectOnsets reports to a callback are
    non-decreasing and never above 1, whether the call resolves or rejects,
    and the last value before it resolves is 1. *)
Theorem onset_progress_terminates (h : Host) (c : Core) (audioBuffer : AudioBuffer)
    (options : OnsetOptions) :
  onsetProgress options = true ->
  let run := snd (detectOnsets h c audioBuffer options) in
  Sorted Qle (emitted run) /\
  Forall (fun p => p <= 1) (emitted run) /\
  (forall r, settled run = Resolved r -> exists before, emitted run = before ++ [1]).
Proof.
  intros Hp run. subst run. unfold detectOnsets.
  destruct (ensureInitialized c) as [e|m].
  2:{ cbn [snd emitted settled]. split; [constructor|]. split; [constructor|discriminate]. }
  destruct (getHannWindow h c frameSize) as [w c1]. rewrite Hp.
  set (av := audioBufferToMono audioBuffer).
  set (total := Z.max 1 ((len av - frameSize) / hopSize)).
  destruct (onsetLoop_progress e w av total ltac:(lia) (S (List.length av)) 0 0
              (mkOnsetPass [] None []) (Z.le_refl 0) (Sorted_nil _) (Forall_nil _))
    as [Hs Hb].
  destruct (onsetLoop _ e w av true total 0 0 _) as [p [st|]];
    cbn [fst snd emitted settled report] in *.
  - split; [now apply Sorted_Qle_snoc|]. split.
    + apply Forall_app. split; [exact Hb|]. repeat constructor. apply Qle_refl.
    + intros r _. eauto.
  - split; [exact Hs|]. split; [exact Hb|discriminate].
Qed.

Lemma onset_progress_terminates_witness :
  let run := snd (detectOnsets doubleHost headCore
                    (monoBuffer (pulses [0; 5; 1; 9; 2; 5; 3] 5120) 44100)
                    (mkOnsetOptions None None true)) in
  Sorted Qle (emitted run) /\
  Forall (fun p => p <= 1) (emitted run) /\
  (forall r, settled run = Resolved r -> exists before, emitted run = before ++ [1]).
Proof.
  apply (onset_progress_terminates doubleHost headCore
           (monoBuffer (pulses [0; 5; 1; 9; 2; 5; 3] 5120) 44100)
           (mkOnsetOptions None None true)).
  reflexivity.
Defined.

(** * Further properties of the structure segmenter *)

(** ** The budget loop, continued (lines 790-808) *)

Lemma mergeLoop_length (maxS : Z) :
  (0 <= maxS)%Z ->
  forall (fuel : nat) (bs : list Z),
    (List.length bs <= fuel)%nat ->
    len (mergeLoop fuel bs maxS) = Z.min (len bs) (maxS + 1).
Proof.
  intros HmaxS. induction fuel as [|fuel IH]; intros bs Hfuel.
  - destruct bs; [|simpl in Hfuel; lia]. simpl. unfold len. simpl. lia.
  - destruct (Z_lt_ge_dec (maxS + 1) (len bs)) as [Hgt|Hle].
    + rewrite mergeLoop_step by lia.
      destruct (shortestGap_spec bs) as (Hm & _); [lia|].
      assert (Hl : len (splice1 bs (shortestGap bs + 1)) = (len bs - 1)%Z)
        by (apply splice1_length; lia).
      rewrite IH by (unfold len in Hl; lia). lia.
    + cbn [mergeLoop]. replace (maxS + 1 <? len bs)%Z with false
        by (symmetry; apply Z.ltb_ge; lia). lia.
Qed.

Lemma candidateBoundaries_two (S : list (list Q)) (sr : Q) (hop : Z) (dur ms : Q) :
  (2 <= len (candidateBoundaries S sr hop dur ms))%Z.
Proof.
  unfold candidateBoundaries.
  set (K := Math_floor (3 * sr / inject_Z hop)).
  set (nov := noveltyFunction S K).
  set (step := boundaryStep nov (calculateThreshold nov (3 # 10)) K hop sr dur ms).
  assert (G : (1 <= len (fold_left step (range 1 (len nov - 1)) [0%Z]))%Z).
  { apply (fold_range_inv' (fun (_ : Z) bs => (1 <= len bs)%Z)).
    - unfold len. simpl. lia.
    - intros i bs _ Hbs. unfold step, boundaryStep.
      destruct (isPeak _ _ _); [|exact Hbs].
      destruct (_ && _); [|exact Hbs].
      unfold len in *. rewrite length_app. cbn [List.length]. lia. }
  unfold len in *. rewrite length_app. cbn [List.length]. lia.
Qed.

(** X12: for a budget [maxSections >= 0] a structure result holds exactly
    [min(candidates - 1, maxSections)] sections, where [candidates] counts
    the candidate boundaries (always at least two): never more than
    [maxSections], and at least one when [maxSections >= 1]. *)
Theorem structure_section_count (h : Host) (c cAtTempo : Core) (e : Essentia)
    (audioBuffer : AudioBuffer) (options : StructureOptions) (r : SongStructureResult) :
  ensureInitialized c = Resolved e ->
  settled (detectSongStructure h c cAtTempo audioBuffer options) = Resolved r ->
  (0 <= maxSectionsOf options)%Z ->
  len (boundaries r)
  = Z.min (len (structureCandidates h e audioBuffer options) - 1) (maxSectionsOf options) /\
  (len (boundaries r) <= maxSectionsOf options)%Z /\
  ((1 <= maxSectionsOf options)%Z -> (1 <= len (boundaries r))%Z).
Proof.
  intros He Hrun Hmax.
  destruct (detectSongStructure_resolved h c cAtTempo audioBuffer options r Hrun)
    as (e' & He' & Hb).
  rewrite He in He'. apply Resolved_inj in He'. subst e'.
  assert (Hlen : len (boundaries r)
                 = Z.min (len (structureCandidates h e audioBuffer options) - 1)
                         (maxSectionsOf options)).
  { unfold len at 1. rewrite Hb, labelSections_length.
    unfold structureSections, toSections. rewrite length_map, range_length.
    unfold mergeBoundaries.
    rewrite (mergeLoop_length _ Hmax) by apply Nat.le_refl.
    pose proof (candidateBoundaries_two (structureMatrix h e audioBuffer options)
                  (sampleRate audioBuffer) hopSize (duration audioBuffer)
                  (orDefault (minSectionDuration options) 5)) as H2.
    fold (structureCandidates h e audioBuffer options) in H2. lia. }
  pose proof (candidateBoundaries_two (structureMatrix h e audioBuffer options)
                (sampleRate audioBuffer) hopSize (duration audioBuffer)
                (orDefault (minSectionDuration options) 5)) as H2.
  fold (structureCandidates h e audioBuffer options) in H2.
  split; [exact Hlen|]. split; lia.
Qed.

(** X13: while more than [maxSections + 1] boundaries are left, one round
    of the budget loop removes the boundary that ends the shortest gap, and
    of several shortest gaps the first; the first boundary is never the one
    removed, the last one can be. *)
Theorem budget_round_removes_end_of_first_shortest_gap (fuel : nat) (bs : list Z)
    (maxS : Z) :
  (2 <= len bs)%Z -> (maxS + 1 < len bs)%Z ->
  let k := shortestGap bs in
  (0 <= k < len bs - 1)%Z /\
  (forall j, (0 <= j < len bs - 1)%Z -> (gap bs k <= gap bs j)%Z) /\
  (forall j, (0 <= j < k)%Z -> (gap bs k < gap bs j)%Z) /\
  mergeLoop (S fuel) bs maxS = mergeLoop fuel (splice1 bs (k + 1)) maxS /\
  len (splice1 bs (k + 1)) = (len bs - 1)%Z /\
  getZ (splice1 bs (k + 1)) 0 = getZ bs 0.
Proof.
  intros H2 Hmax k. subst k.
  destruct (shortestGap_spec bs H2) as (Hk & Hmin & Hfirst).
  split; [exact Hk|]. split; [exact Hmin|]. split; [exact Hfirst|].
  split; [now apply mergeLoop_step|]. split; [apply splice1_length; lia|].
  destruct bs as [|a bs]; [unfold len in H2; simpl in H2; lia|].
  rewrite splice1_cons by lia. reflexivity.
Qed.

Lemma budget_round_removes_end_of_first_shortest_gap_witness :
  let bs := [0; 40; 60; 80; 120]%Z in
  let k := shortestGap bs in
  (0 <= k < len bs - 1)%Z /\
  (forall j, (0 <= j < len bs - 1)%Z -> (gap bs k <= gap bs j)%Z) /\
  (forall j, (0 <= j < k)%Z -> (gap bs k < gap bs j)%Z) /\
  mergeLoop 5 bs 3 = mergeLoop 4 (splice1 bs (k + 1)) 3 /\
  len (splice1 bs (k + 1)) = (len bs - 1)%Z /\
  getZ (splice1 bs (k + 1)) 0 = getZ bs 0.
Proof.
  apply (budget_round_removes_end_of_first_shortest_gap 4 [0; 40; 60; 80; 120]%Z 3);
    vm_compute; intuition congruence.
Defined.

Lemma structure_section_count_witness :
  len (boundaries silence3072Result)
  = Z.min (len (structureCandidates doubleHost failingEssentia silence3072
                                    defaultStructureOptions) - 1)
          (maxSectionsOf defaultStructureOptions) /\
  (len (boundaries silence3072Result) <= maxSectionsOf defaultStructureOptions)%Z /\
  ((1 <= maxSectionsOf defaultStructureOptions)%Z ->
   (1 <= len (boundaries silence3072Result))%Z).
Proof.
  apply (structure_section_count doubleHost failingCore failingCore failingEssentia
           silence3072 defaultStructureOptions silence3072Result).
  - reflexivity.
  - vm_compute. reflexivity.
  - vm_compute. discriminate.
Defined.

(** ** Order of the sections (lines 766-829) *)

Lemma StronglySorted_splice {A : Type} (R : A -> A -> Prop) (l : list A) :
  StronglySorted R l ->
  forall k : nat, StronglySorted R (firstn k l ++ skipn (S k) l).
Proof.
  induction 1 as [|a l Hs IH Ha]; intro k.
  - destruct k; constructor.
  - destruct k as [|k].
    + exact Hs.
    + change (firstn (S k) (a :: l) ++ skipn (S (S k)) (a :: l))
        with (a :: (firstn k l ++ skipn (S k) l)).
      constructor; [apply IH|].
      rewrite <- (firstn_skipn k l) in Ha. apply Forall_app in Ha.
      destruct Ha as [H1 H2]. apply Forall_app. split; [exact H1|].
      destruct (skipn k l) as [|x t] eqn:E.
      * replace (skipn (S k) l) with (@nil A); [constructor|].
        symmetry. apply skipn_all_iff. apply skipn_all_iff in E. lia.
      * replace (skipn (S k) l) with t; [now inversion H2|].
        change (S k) with (1 + k)%nat. rewrite <- skipn_skipn, E. reflexivity.
Qed.

Lemma mergeLoop_sorted (maxS : Z) :
  forall (fuel : nat) (bs : list Z),
    StronglySorted Z.lt bs -> StronglySorted Z.lt (mergeLoop fuel bs maxS).
Proof.
  induction fuel as [|fuel IH]; intros bs Hs; cbn [mergeLoop]; [exact Hs|].
  destruct (maxS + 1 <? len bs)%Z; [|exact Hs].
  destruct (0 <=? shortestGap bs)%Z; [|exact Hs].
  apply IH. unfold splice1. now apply StronglySorted_splice.
Qed.

(** The candidates of at least two frames are strictly increasing. *)
Lemma candidateBoundaries_sorted (S : list (list Q)) (sr : Q) (hop : Z) (dur ms : Q) :
  0 < sr -> (0 < hop)%Z -> (2 <= len S)%Z ->
  StronglySorted Z.lt (candidateBoundaries S sr hop dur ms).
Proof.
  intros Hsr Hhop Hn. apply Sorted_StronglySorted; [exact Z.lt_trans|].
  unfold candidateBoundaries.
  set (K := Math_floor (3 * sr / inject_Z hop)).
  assert (HK : (0 <= K)%Z) by now apply kernelSize_nonneg.
  set (nov := noveltyFunction S K).
  assert (Hnov : len nov = Z.max 0 (len S - K - K)) by apply noveltyFunction_length.
  set (step := boundaryStep nov (calculateThreshold nov (3 # 10)) K hop sr dur ms).
  assert (G : Sorted Z.lt (fold_left step (range 1 (len nov - 1)) [0%Z]) /\
              Forall (fun x => (x < len S - 1)%Z)
                     (fold_left step (range 1 (len nov - 1)) [0%Z])).
  { assert (G' : Sorted Z.lt (fold_left step (range 1 (len nov - 1)) [0%Z]) /\
                 Forall (fun x => (x < Z.max 1 (len nov - 1) + K)%Z
                                  /\ (x < len S - 1)%Z)
                        (fold_left step (range 1 (len nov - 1)) [0%Z])).
    { apply (fold_range_inv'
               (fun (i : Z) bs =>
                  Sorted Z.lt bs /\
                  Forall (fun x => (x < i + K)%Z /\ (x < len S - 1)%Z) bs)).
      - split; [repeat constructor|]. repeat constructor; lia.
      - intros i bs Hi [Hs Hb].
        assert (Hb' : Forall (fun x => (x < i + 1 + K)%Z /\ (x < len S - 1)%Z) bs).
        { eapply Forall_impl; [|exact Hb]. simpl. intros x Hx. lia. }
        unfold step, boundaryStep.
        destruct (isPeak _ _ _); [|now split].
        destruct (_ && _); [|now split].
        split.
        + apply Sorted_snoc; [exact Hs|]. intros y Hy. apply lastOpt_In in Hy.
          rewrite Forall_forall in Hb. specialize (Hb y Hy). lia.
        + apply Forall_app. split; [exact Hb'|]. repeat constructor; lia. }
    destruct G' as [Hs Hb]. split; [exact Hs|].
    eapply Forall_impl; [|exact Hb]. simpl. tauto. }
  destruct G as [Hs Hb].
  apply Sorted_snoc; [exact Hs|]. intros y Hy. apply lastOpt_In in Hy.
  rewrite Forall_forall in Hb. now apply Hb.
Qed.

Lemma getZ_nth (l : list Z) (k : nat) : getZ l (Z.of_nat k) = nth k l 0%Z.
Proof.
  unfold getZ. replace (Z.of_nat k <? 0)%Z with false by (symmetry; apply Z.ltb_ge; lia).
  now rewrite Nat2Z.id.
Qed.

(** Section [k] of a result, read off the boundaries left by the budget
    loop. *)
Lemma result_section (h : Host) (c cAtTempo : Core) (e : Essentia)
    (audioBuffer : AudioBuffer) (options : StructureOptions) (r : SongStructureResult)
    (k : nat) (lb : SectionBoundary) :
  0 < sampleRate audioBuffer ->
  ensureInitialized c = Resolved e ->
  settled (detectSongStructure h c cAtTempo audioBuffer options) = Resolved r ->
  nth_error (boundaries r) k = Some lb ->
  let bs := mergeBoundaries (structureCandidates h e audioBuffer options)
                            (maxSectionsOf options) in
  (Z.of_nat k + 1 < len bs)%Z /\
  startSample lb = frameSample (sampleRate audioBuffer) (getZ bs (Z.of_nat k)) /\
  endSample lb = frameSample (sampleRate audioBuffer) (getZ bs (Z.of_nat k + 1)) /\
  startTime lb = frameTime (sampleRate audioBuffer) (getZ bs (Z.of_nat k)) /\
  endTime lb = frameTime (sampleRate audioBuffer) (getZ bs (Z.of_nat k + 1)) /\
  label lb
  = (sectionLabel (Z.of_nat k) (len (boundaries r))
       (normalizedEnergy (structureSections h e audioBuffer options)
          (energyProfile (structureFeatures h e audioBuffer options)) (Z.of_nat k))
       (startTime lb / duration audioBuffer)
     ++ " " ++ decimal (Z.of_nat k + 1))%string /\
  sectionConfidence lb
  = Some (normalizedEnergy (structureSections h e audioBuffer options)
            (energyProfile (structureFeatures h e audioBuffer options)) (Z.of_nat k)).
Proof.
  intros Hsr He Hrun Hk bs.
  destruct (detectSongStructure_resolved h c cAtTempo audioBuffer options r Hrun)
    as (e' & He' & Hb).
  rewrite He in He'. apply Resolved_inj in He'. subst e'.
  assert (Hlen : len (boundaries r) = len (structureSections h e audioBuffer options)).
  { unfold len. rewrite Hb. now rewrite labelSections_length. }
  rewrite Hb in Hk. apply labelSections_nth in Hk.
  destruct Hk as (b0 & Hk & Hs & Hen & Hst & Het & Hconf & Hlab).
  unfold structureSections in Hk at 1. fold bs in Hk.
  apply toSections_nth in Hk.
  destruct Hk as (Hlt & Hs0 & He0 & Ht0 & Ht1).
  split; [exact Hlt|]. split; [now rewrite Hs|]. split; [now rewrite Hen|].
  split; [now rewrite Hst|]. split; [now rewrite Het|].
  split; [|exact Hconf]. rewrite Hlab, Hlen, Hst. reflexivity.
Qed.

(** X14: when the feature pass has analysed at least two frames (a buffer
    of at least [frameSize + 2 * hopSize] samples), every section of a
    structure result starts at or after sample 0 and ends strictly after it
    starts, in samples and in seconds.  The sample rate is a finite double
    and the buffer length below 2^51, as every buffer's is: the start and
    end of a section are computed in doubles. *)
Theorem structure_sections_not_empty (h : Host) (c cAtTempo : Core)
    (audioBuffer : AudioBuffer) (options : StructureOptions) (r : SongStructureResult) :
  0 < sampleRate audioBuffer ->
  sampleRate audioBuffer < pow2 1024 ->
  (bufferLength audioBuffer <= 2 ^ 51)%Z ->
  (frameSize + 2 * hopSize <= bufferLength audioBuffer)%Z ->
  settled (detectSongStructure h c cAtTempo audioBuffer options) = Resolved r ->
  Forall (fun b => (0 <= startSample b < endSample b)%Z /\ startTime b < endTime b)
         (boundaries r).
Proof.
  intros Hsr Hfin Hmax HN Hrun.
  destruct (detectSongStructure_resolved h c cAtTempo audioBuffer options r Hrun)
    as (e & He & _).
  set (bs := mergeBoundaries (structureCandidates h e audioBuffer options)
                             (maxSectionsOf options)).
  assert (Hsorted : StronglySorted Z.lt bs).
  { subst bs. unfold mergeBoundaries. apply mergeLoop_sorted.
    unfold structureCandidates.
    apply (candidateBoundaries_sorted (structureMatrix h e audioBuffer options)
             (sampleRate audioBuffer) hopSize (duration audioBuffer)
             (orDefault (minSectionDuration options) 5) Hsr eq_refl).
    rewrite structureMatrix_length. unfold frameSize, hopSize in *.
    assert ((2 <= (bufferLength audioBuffer - 2048) / 512)%Z)
      by (apply Z.div_le_lower_bound; lia).
    lia. }
  destruct (merged_shape h e audioBuffer options Hsr) as (rest & Hm & Hrest).
  fold bs in Hm.
  assert (Hbound : forall k : nat, (Z.of_nat k < len bs)%Z ->
                     (getZ bs (Z.of_nat k) * hopSize <= 2 ^ 51)%Z).
  { intros k Hk. rewrite getZ_nth, Hm. rewrite Hm in Hk. unfold len in Hk.
    destruct k as [|k]; [cbn [nth]; lia|]. cbn [nth].
    rewrite Forall_forall in Hrest.
    assert (Hx : (nth k rest 0 <= Z.max 0 ((bufferLength audioBuffer - frameSize) / hopSize) - 1)%Z).
    { apply Hrest. apply nth_In. simpl in Hk. lia. }
    unfold frameSize, hopSize in *.
    assert (Hd : (512 * ((bufferLength audioBuffer - 2048) / 512)
                  <= bufferLength audioBuffer - 2048)%Z)
      by (apply Z.mul_div_le; lia).
    lia. }
  apply Forall_forall. intros b Hin. apply In_nth_error in Hin. destruct Hin as [k Hk].
  destruct (result_section h c cAtTempo e audioBuffer options r k b Hsr He Hrun Hk)
    as (Hlt & Hs0 & He0 & Ht0 & Ht1 & _).
  fold bs in Hlt, Hs0, He0, Ht0, Ht1.
  rewrite Hs0, He0, Ht0, Ht1.
  assert (Hadj : (getZ bs (Z.of_nat k) < getZ bs (Z.of_nat k + 1))%Z).
  { replace (Z.of_nat k + 1)%Z with (Z.of_nat (S k)) by lia. rewrite !getZ_nth.
    apply (Sorted_adjacent Z.lt bs 0%Z k); [now apply StronglySorted_Sorted|].
    unfold len in Hlt. lia. }
  assert (Hfirst : (0 <= getZ bs (Z.of_nat k))%Z).
  { destruct k as [|k]; [rewrite Hm; cbn [Z.of_nat]; unfold getZ; cbn; lia|].
    assert (H0k : (getZ bs 0 < getZ bs (Z.of_nat (S k)))%Z).
    { change 0%Z with (Z.of_nat 0). rewrite !getZ_nth.
      clear -Hsorted Hlt. unfold len in Hlt.
      assert (Hk : (S k < List.length bs)%nat) by lia. clear Hlt.
      destruct bs as [|a l]; [simpl in Hk; lia|].
      inversion Hsorted as [|? ? _ Ha]; subst. cbn [nth].
      rewrite Forall_forall in Ha. apply Ha. apply nth_In. simpl in Hk. lia. }
    assert (H00 : getZ bs 0 = 0%Z) by (rewrite Hm; reflexivity).
    lia. }
  assert (Hb0 : (getZ bs (Z.of_nat k) * hopSize <= 2 ^ 51)%Z) by (apply Hbound; lia).
  assert (Hb1 : (getZ bs (Z.of_nat k + 1) * hopSize <= 2 ^ 51)%Z).
  { replace (Z.of_nat k + 1)%Z with (Z.of_nat (S k)) by lia. apply Hbound. lia. }
  pose proof (frameSample_near (sampleRate audioBuffer) Hsr Hfin
                (getZ bs (Z.of_nat k)) Hfirst Hb0) as Hn0.
  assert (Hnext : (0 <= getZ bs (Z.of_nat k + 1))%Z) by lia.
  pose proof (frameSample_near (sampleRate audioBuffer) Hsr Hfin
                (getZ bs (Z.of_nat k + 1)) Hnext Hb1) as Hn1.
  split.
  - split.
    + destruct (Z.eq_dec (getZ bs (Z.of_nat k)) 0) as [E|E].
      * rewrite E, frameSample_zero. lia.
      * clear -Hn0 Hfirst E. unfold hopSize in *. lia.
    + clear -Hn0 Hn1 Hadj. unfold hopSize in *. lia.
  - apply (frameTime_increasing (sampleRate audioBuffer) Hsr Hfin); [lia|exact Hb1].
Qed.

Lemma structure_sections_not_empty_witness :
  Forall (fun b => (0 <= startSample b < endSample b)%Z /\ startTime b < endTime b)
         (boundaries silence3072Result).
Proof.
  apply (structure_sections_not_empty doubleHost failingCore failingCore
           silence3072 defaultStructureOptions silence3072Result).
  - reflexivity.
  - reflexivity.
  - vm_compute. discriminate.
  - vm_compute. discriminate.
  - vm_compute. reflexivity.
Defined.

(** ** Labels and confidence, continued (lines 835-901) *)

(** X15: in every structure result of a buffer with a positive sample rate
    and duration, the first section starts at time 0 and is labelled
    "Intro 1", whatever its energy. *)
Theorem first_section_is_intro (h : Host) (c cAtTempo : Core) (e : Essentia)
    (audioBuffer : AudioBuffer) (options : StructureOptions) (r : SongStructureResult)
    (b : SectionBoundary) :
  0 < sampleRate audioBuffer ->
  0 < duration audioBuffer ->
  ensureInitialized c = Resolved e ->
  settled (detectSongStructure h c cAtTempo audioBuffer options) = Resolved r ->
  nth_error (boundaries r) 0 = Some b ->
  label b = "Intro 1"%string /\ startSample b = 0%Z /\ startTime b == 0.
Proof.
  intros Hsr Hdur He Hrun Hb.
  destruct (result_section h c cAtTempo e audioBuffer options r 0 b Hsr He Hrun Hb)
    as (_ & Hs & _ & Ht & _ & Hl & _).
  destruct (merged_shape h e audioBuffer options Hsr) as (rest & Hm & _).
  rewrite Hm in Hs, Ht. cbn [Z.of_nat] in Hs, Ht.
  change (getZ (0%Z :: rest) 0) with 0%Z in Hs, Ht.
  assert (Ht0 : startTime b == 0) by (rewrite Ht, frameTime_zero; reflexivity).
  assert (Hs0 : startSample b = 0%Z) by (rewrite Hs; apply frameSample_zero).
  split; [|split; [exact Hs0|exact Ht0]].
  rewrite Hl. unfold sectionLabel. cbn [Z.of_nat Z.eqb andb].
  replace (Qltb (startTime b / duration audioBuffer) (1 # 10)) with true; [reflexivity|].
  symmetry. apply Qltb_lt. rewrite Ht0. unfold Qdiv. rewrite Qmult_0_l. reflexivity.
Qed.

Lemma first_section_is_intro_witness :
  label (mkSectionBoundary 0 512 0 (toDouble (512 # 44100)) "Intro 1" (Some 0))
  = "Intro 1"%string /\
  startSample (mkSectionBoundary 0 512 0 (toDouble (512 # 44100)) "Intro 1" (Some 0)) = 0%Z /\
  startTime (mkSectionBoundary 0 512 0 (toDouble (512 # 44100)) "Intro 1" (Some 0)) == 0.
Proof.
  apply (first_section_is_intro doubleHost failingCore failingCore failingEssentia
           silence3072 defaultStructureOptions silence3072Result).
  - reflexivity.
  - reflexivity.
  - reflexivity.
  - vm_compute. reflexivity.
  - reflexivity.
Defined.

Lemma sectionEnergy_nonneg (energy : list Q) (b : SectionBoundary) :
  Forall (fun x => 0 <= x) energy -> 0 <= sectionEnergy energy b.
Proof.
  intro He. unfold sectionEnergy.
  set (l := range _ _).
  match goal with |- context [fold_left ?f l _] => set (step := f) end.
  assert (G : forall (acc : Q * Z), 0 <= fst acc -> (0 <= snd acc)%Z ->
            0 <= fst (fold_left step l acc) /\ (0 <= snd (fold_left step l acc))%Z).
  { induction l as [|i l IH]; intros [s n] Hs Hn; simpl in *; [now split|].
    apply IH; simpl; [|lia].
    setoid_replace 0 with (0 + 0) by ring. apply Qplus_le_compat; [exact Hs|].
    apply (get_Forall (fun x => 0 <= x)); [apply Qle_refl|exact He]. }
  destruct (G (0, 0%Z) (Qle_refl 0) (Z.le_refl 0)) as [Hsum Hcount].
  destruct (fold_left step l (0, 0%Z)) as [sum count]. simpl in Hsum, Hcount.
  destruct (0 <? count)%Z eqn:E; [|apply Qle_refl].
  apply Z.ltb_lt in E. apply Qle_shift_div_l; [now rewrite <- (Zlt_Qlt 0)|].
  now rewrite Qmult_0_l.
Qed.

Lemma Math_max_fold (l : list Q) :
  forall x : Q,
    exists m, fold_left (fun m v => match m with
                                    | None => Some v
                                    | Some x => Some (if Qltb x v then v else x)
                                    end) l (Some x) = Some m
              /\ x <= m /\ Forall (fun v => v <= m) l.
Proof.
  induction l as [|v l IH]; intro x; simpl.
  - exists x. split; [reflexivity|]. split; [apply Qle_refl|constructor].
  - destruct (Qltb x v) eqn:E.
    + apply Qltb_lt in E. destruct (IH v) as (m & Hm & Hv & Hl).
      exists m. split; [exact Hm|]. split.
      * apply Qle_trans with v; [now apply Qlt_le_weak|exact Hv].
      * now constructor.
    + destruct (IH x) as (m & Hm & Hx & Hl).
      exists m. split; [exact Hm|]. split; [exact Hx|]. constructor; [|exact Hl].
      apply Qle_trans with x; [|exact Hx].
      apply Qnot_lt_le. intro H. apply Qltb_lt in H. congruence.
Qed.

Lemma Math_max_upper (l : list Q) (m : Q) :
  Math_max l = Some m -> Forall (fun v => v <= m) l.
Proof.
  unfold Math_max. destruct l as [|x l]; [discriminate|]. simpl.
  destruct (Math_max_fold l x) as (m' & Hm & Hx & Hl). rewrite Hm.
  intro H. injection H as <-. now constructor.
Qed.

Lemma normalizeEnergy_unit (maxEnergy : option Q) (e : Q) :
  0 <= e -> (forall m, maxEnergy = Some m -> e <= m) ->
  0 <= normalizeEnergy maxEnergy e <= 1.
Proof.
  intros He Hm. unfold normalizeEnergy.
  destruct maxEnergy as [m|]; [|split; [apply Qle_refl|discriminate]].
  destruct (Qgtb m 0) eqn:E; [|split; [apply Qle_refl|discriminate]].
  apply Qgtb_gt in E. split.
  - apply Qle_shift_div_l; [exact E|]. now rewrite Qmult_0_l.
  - apply Qle_shift_div_r; [exact E|]. rewrite Qmult_1_l. now apply Hm.
Qed.

(** X16: when no energy of the profile is negative, the confidence of
    every labelled section is a number between 0 and 1. *)
Theorem confidence_between_0_and_1 (bs : list SectionBoundary) (energy : list Q)
    (dur : Q) :
  Forall (fun x => 0 <= x) energy ->
  Forall (fun lb => exists q, sectionConfidence lb = Some q /\ 0 <= q <= 1)
         (labelSections bs energy dur).
Proof.
  intro He. apply Forall_forall. intros lb Hin.
  apply In_nth_error in Hin. destruct Hin as [k Hk].
  apply labelSections_nth in Hk. destruct Hk as (b & _ & _ & _ & _ & _ & Hc & _).
  exists (normalizedEnergy bs energy (Z.of_nat k)). split; [exact Hc|].
  unfold normalizedEnergy.
  apply (get_Forall (fun q => 0 <= q <= 1)); [split; [apply Qle_refl|discriminate]|].
  apply Forall_forall. intros q Hq. apply in_map_iff in Hq.
  destruct Hq as (x & <- & Hx).
  apply normalizeEnergy_unit.
  - apply in_map_iff in Hx. destruct Hx as (b' & <- & _). now apply sectionEnergy_nonneg.
  - intros m Hm. apply Math_max_upper in Hm. rewrite Forall_forall in Hm. now apply Hm.
Qed.

Lemma confidence_between_0_and_1_witness :
  Forall (fun lb => exists q, sectionConfidence lb = Some q /\ 0 <= q <= 1)
         (labelSections (toSections [0; 40; 90]%Z 44100 512) (repeat 3 50 ++ repeat 1 50)
                        (48128 # 44100)).
Proof.
  apply (confidence_between_0_and_1 (toSections [0; 40; 90]%Z 44100 512)
           (repeat 3 50 ++ repeat 1 50) (48128 # 44100)).
  apply Forall_app. split; apply Forall_forall; intros x Hx;
    apply repeat_spec in Hx; subst x; discriminate.
Defined.

Lemma sectionLabel_cases (index count : Z) (energy position : Q) :
  In (sectionLabel index count energy position)
     ["Intro"; "Outro"; "Chorus"; "Verse"; "Bridge"; "Break"]%string /\
  (sectionLabel index count energy position = "Intro"%string ->
   index = 0%Z /\ position < 1 # 10) /\
  (sectionLabel index count energy position = "Outro"%string ->
   index = (count - 1)%Z /\ 8 # 10 < position) /\
  (sectionLabel index count energy position = "Chorus"%string -> 7 # 10 < energy).
Proof.
  unfold sectionLabel.
  destruct ((index =? 0)%Z && Qltb position (1 # 10)) eqn:EI.
  { apply andb_true_iff in EI. destruct EI as [A B].
    apply Z.eqb_eq in A. apply Qltb_lt in B.
    split; [simpl; tauto|]. split; [intros _; now split|].
    split; intro H; discriminate H. }
  destruct ((index =? count - 1)%Z && Qgtb position (8 # 10)) eqn:EO.
  { apply andb_true_iff in EO. destruct EO as [A B].
    apply Z.eqb_eq in A. apply Qgtb_gt in B.
    split; [simpl; tauto|]. split; [intro H; discriminate H|].
    split; [intros _; now split|intro H; discriminate H]. }
  destruct (Qgtb energy (7 # 10)) eqn:EC.
  { apply Qgtb_gt in EC.
    split; [simpl; tauto|]. split; [intro H; discriminate H|].
    split; [intro H; discriminate H|intros _; exact EC]. }
  destruct (Qgtb energy (4 # 10)); [|destruct (Qltb energy (3 # 10));
                                      [destruct (Qgtb position (1 # 2))|]];
    (split; [simpl; tauto|]); (split; [intro H; discriminate H|]);
    split; intro H; discriminate H.
Qed.

(** X17: every label that labelSections writes is one of the six words
    Intro, Outro, Chorus, Verse, Bridge and Break followed by a space and the
    1-based index of the section.  Only the first section can be an Intro,
    only the last one an Outro, and a Chorus has a confidence above 0.7. *)
Theorem section_label_vocabulary (bs : list SectionBoundary) (energy : list Q)
    (dur : Q) (k : nat) (lb : SectionBoundary) :
  nth_error (labelSections bs energy dur) k = Some lb ->
  exists w : string,
    In w ["Intro"; "Outro"; "Chorus"; "Verse"; "Bridge"; "Break"]%string /\
    label lb = (w ++ " " ++ decimal (Z.of_nat k + 1))%string /\
    (w = "Intro"%string -> k = 0%nat) /\
    (w = "Outro"%string -> S k = List.length bs) /\
    (w = "Chorus"%string ->
     exists q, sectionConfidence lb = Some q /\ 7 # 10 < q).
Proof.
  intro H. apply labelSections_nth in H.
  destruct H as (b & _ & _ & _ & _ & _ & Hc & Hl).
  destruct (sectionLabel_cases (Z.of_nat k) (len bs)
              (normalizedEnergy bs energy (Z.of_nat k)) (startTime b / dur))
    as (Hin & Hintro & Houtro & Hchorus).
  exists (sectionLabel (Z.of_nat k) (len bs) (normalizedEnergy bs energy (Z.of_nat k))
                       (startTime b / dur)).
  split; [exact Hin|]. split; [exact Hl|]. split; [|split].
  - intro Hw. destruct (Hintro Hw) as [Hk _]. lia.
  - intro Hw. destruct (Houtro Hw) as [Hk _]. unfold len in Hk. lia.
  - intro Hw. exists (normalizedEnergy bs energy (Z.of_nat k)).
    split; [exact Hc|exact (Hchorus Hw)].
Qed.

Lemma section_label_vocabulary_witness :
  exists w : string,
    In w ["Intro"; "Outro"; "Chorus"; "Verse"; "Bridge"; "Break"]%string /\
    label (mkSectionBoundary 20480 46080 (toDouble (20480 # 44100))
                             (toDouble (46080 # 44100)) "Chorus 2"
                             (Some (1560 # 1560)))
    = (w ++ " " ++ decimal (Z.of_nat 1 + 1))%string /\
    (w = "Intro"%string -> 1%nat = 0%nat) /\
    (w = "Outro"%string ->
     2%nat = List.length (toSections [0; 40; 90]%Z 44100 512)) /\
    (w = "Chorus"%string ->
     exists q, sectionConfidence
                 (mkSectionBoundary 20480 46080 (toDouble (20480 # 44100))
                             (toDouble (46080 # 44100)) "Chorus 2"
                                    (Some (1560 # 1560))) = Some q /\ 7 # 10 < q).
Proof.
  apply (section_label_vocabulary (toSections [0; 40; 90]%Z 44100 512)
           (repeat 3 50 ++ repeat 1 50) (48128 # 44100) 1).
  vm_compute. reflexivity.
Defined.

(** ** The feature loop and the tempo stage (lines 508-697) *)

Lemma frameChroma_length (e : Essentia) (frameVector : VectorFloat) (sr : Q) :
  List.length (frameChroma e frameVector sr) = 12%nat.
Proof.
  unfold frameChroma.
  destruct (Chromagram e frameVector sr) as [r|]; [|reflexivity].
  destruct (vectorToArray e r) as [chroma|]; [|reflexivity].
  destruct (List.length chroma =? 12)%nat eqn:E; [|reflexivity].
  now apply Nat.eqb_eq.
Qed.

Lemma frameMfcc_not_empty (e : Essentia) (frameVector : VectorFloat) (sr : Q) :
  frameMfcc e frameVector sr <> [].
Proof.
  unfold frameMfcc.
  match goal with |- context [(0 <? List.length ?m)%nat] => set (mfcc := m) end.
  destruct (0 <? List.length mfcc)%nat eqn:E; [|discriminate].
  apply Nat.ltb_lt in E. intro H. rewrite H in E. simpl in E. lia.
Qed.

Lemma featureStep_shapes (h : Host) (e : Essentia) (av : list Q) (sr : Q)
    (onp : bool) (nf : Z) (st : Features) (i : Z) :
  Forall (fun v => List.length v = 12%nat) (chromaFeatures st) ->
  Forall (fun v => v <> []) (mfccFeatures st) ->
  Forall (fun v => List.length v = 12%nat)
         (chromaFeatures (featureStep h e av sr onp nf st i)) /\
  Forall (fun v => v <> []) (mfccFeatures (featureStep h e av sr onp nf st i)).
Proof.
  intros Hc Hm. unfold featureStep.
  destruct (arrayToVector e _) as [frameVector|]; cbn [chromaFeatures mfccFeatures];
    split; apply Forall_app; (split; [assumption|]); (constructor; [|constructor]).
  - apply frameChroma_length.
  - apply frameMfcc_not_empty.
  - rewrite length_map. reflexivity.
  - discriminate.
Qed.

(** X19: whatever the engine returns or throws, every chroma vector that
    the feature loop collects has exactly 12 bins and no MFCC vector is
    empty, so the similarity matrix is always built from vectors of one
    length. *)
Theorem feature_vectors_well_formed (h : Host) (e : Essentia) (audioVector : list Q)
    (sr : Q) (onProgress : bool) :
  Forall (fun v => List.length v = 12%nat)
         (chromaFeatures (extractFeatures h e audioVector sr onProgress)) /\
  Forall (fun v => v <> [])
         (mfccFeatures (extractFeatures h e audioVector sr onProgress)).
Proof.
  unfold extractFeatures.
  set (nf := ((len audioVector - frameSize) / hopSize)%Z).
  generalize (range 0 nf).
  assert (G : forall (l : list Z) (st : Features),
             Forall (fun v => List.length v = 12%nat) (chromaFeatures st) ->
             Forall (fun v => v <> []) (mfccFeatures st) ->
             Forall (fun v => List.length v = 12%nat)
                    (chromaFeatures (fold_left (featureStep h e audioVector sr onProgress nf)
                                               l st)) /\
             Forall (fun v => v <> [])
                    (mfccFeatures (fold_left (featureStep h e audioVector sr onProgress nf)
                                             l st))).
  { induction l as [|i l IH]; intros st Hc Hm; cbn [fold_left]; [now split|].
    destruct (featureStep_shapes h e audioVector sr onProgress nf st i Hc Hm) as [Hc' Hm'].
    now apply IH. }
  intro l. apply G; constructor.
Qed.

Lemma detectBPM_available (c : Core) (audioBuffer : AudioBuffer) :
  (exists b, detectBPM c audioBuffer = Resolved b) <-> isAvailable c = true.
Proof.
  unfold detectBPM, isAvailable, ensureInitialized.
  destruct (isInitialized c), (essentia c) as [e|]; cbn [andb].
  - split; [reflexivity|]. intros _.
    destruct (arrayToVector e (audioBufferToMono audioBuffer)) as [v|].
    + destruct (rhythmEstimate e v (sampleRate audioBuffer)) as [bpm confidence].
      now eexists.
    + now eexists.
  - split; [intros [b H]; discriminate H|discriminate].
  - split; [intros [b H]; discriminate H|discriminate].
  - split; [intros [b H]; discriminate H|discriminate].
Qed.

(** X18: on an initialized core, no failure of the engine during the
    feature, similarity, boundary and label stages can make
    detectSongStructure reject: the call resolves exactly when the engine is
    still there at the final tempo stage, and otherwise rejects with the
    error of ensureInitialized. *)
Theorem structure_rejects_only_without_engine (h : Host) (c cAtTempo : Core)
    (audioBuffer : AudioBuffer) (options : StructureOptions) :
  isAvailable c = true ->
  ((exists r, settled (detectSongStructure h c cAtTempo audioBuffer options) = Resolved r)
   <-> isAvailable cAtTempo = true) /\
  (isAvailable cAtTempo = false ->
   exists m, ensureInitialized cAtTempo = Rejected m /\
             settled (detectSongStructure h c cAtTempo audioBuffer options) = Rejected m).
Proof.
  intro Hc. destruct (ensureInitialized_available c Hc) as (e & He & _).
  assert (Hrej : isAvailable cAtTempo = false ->
                 exists m, ensureInitialized cAtTempo = Rejected m /\
                           settled (detectSongStructure h c cAtTempo audioBuffer options)
                           = Rejected m).
  { intro Hn. unfold detectSongStructure. rewrite He. cbv zeta.
    unfold detectBPM.
    destruct (ensureInitialized cAtTempo) as [e'|m] eqn:E.
    - exfalso. unfold ensureInitialized in E. unfold isAvailable in Hn.
      destruct (isInitialized cAtTempo), (essentia cAtTempo); discriminate.
    - exists m. split; reflexivity. }
  split; [|exact Hrej]. split.
  - intros [r Hr]. destruct (isAvailable cAtTempo) eqn:E; [reflexivity|].
    destruct (Hrej eq_refl) as (m & _ & Hm). rewrite Hm in Hr. discriminate Hr.
  - intro Ht. apply (detectBPM_available cAtTempo audioBuffer) in Ht.
    destruct Ht as [b Hb]. eexists.
    exact (detectSongStructure_resolves h c cAtTempo e audioBuffer options b He Hb).
Qed.

Lemma structure_rejects_only_without_engine_witness :
  ((exists r, settled (detectSongStructure doubleHost failingCore (cleanup failingCore)
                         silence3072 defaultStructureOptions) = Resolved r)
   <-> isAvailable (cleanup failingCore) = true) /\
  (isAvailable (cleanup failingCore) = false ->
   exists m, ensureInitialized (cleanup failingCore) = Rejected m /\
             settled (detectSongStructure doubleHost failingCore (cleanup failingCore)
                        silence3072 defaultStructureOptions) = Rejected m).
Proof.
  apply (structure_rejects_only_without_engine doubleHost failingCore (cleanup failingCore)
           silence3072 defaultStructureOptions).
  reflexivity.
Defined.

(** * The media library *)

Section JsMapFacts.
Context {K V : Type}.
Variable eqb : K -> K -> bool.
Hypothesis eqb_eq : forall a b, eqb a b = true <-> a = b.

Lemma eqb_same (k : K) : eqb k k = true.
Proof. now apply eqb_eq. Qed.

Lemma eqb_other (a b : K) : a <> b -> eqb a b = false.
Proof.
  intro H. destruct (eqb a b) eqn:E; [|reflexivity]. apply eqb_eq in E. contradiction.
Qed.

Lemma mapGet_mapSet_same (m : list (K * V)) (k : K) (v : V) :
  MediaLibrary.mapGet eqb (MediaLibrary.mapSet eqb m k v) k = Some v.
Proof.
  induction m as [|[k' v'] m IH]; simpl.
  - now rewrite eqb_same.
  - destruct (eqb k' k) eqn:E; simpl; rewrite E; [reflexivity|exact IH].
Qed.

Lemma mapGet_mapSet_other (m : list (K * V)) (k k' : K) (v : V) :
  k <> k' ->
  MediaLibrary.mapGet eqb (MediaLibrary.mapSet eqb m k v) k' = MediaLibrary.mapGet eqb m k'.
Proof.
  intro Hk. induction m as [|[a b] m IH]; simpl.
  - now rewrite (eqb_other k k' Hk).
  - destruct (eqb a k) eqn:E; simpl.
    + apply eqb_eq in E. subst a. now rewrite (eqb_other k k' Hk).
    + destruct (eqb a k'); [reflexivity|exact IH].
Qed.

Lemma mapGet_keys (m : list (K * V)) (k : K) (v : V) :
  MediaLibrary.mapGet eqb m k = Some v -> In (k, v) m.
Proof.
  induction m as [|[a b] m IH]; simpl; [discriminate|].
  destruct (eqb a k) eqn:E.
  - apply eqb_eq in E. subst a. intro H. injection H as ->. now left.
  - intro H. right. now apply IH.
Qed.

Lemma mapGet_absent (m : list (K * V)) (k : K) :
  ~ In k (map fst m) -> MediaLibrary.mapGet eqb m k = None.
Proof.
  induction m as [|[a b] m IH]; simpl; [reflexivity|].
  intro H. rewrite eqb_other by (intro Hab; apply H; now left).
  apply IH. intro Hin. apply H. now right.
Qed.

Lemma mapGet_present (m : list (K * V)) (k : K) :
  In k (map fst m) -> exists v, MediaLibrary.mapGet eqb m k = Some v.
Proof.
  induction m as [|[a b] m IH]; simpl; [contradiction|].
  intro H. destruct (eqb a k) eqn:E; [now exists b|].
  destruct H as [H|H]; [|now apply IH].
  subst a. now rewrite eqb_same in E.
Qed.

Lemma mapSet_present (m : list (K * V)) (k : K) (v : V) :
  In k (map fst m) -> map fst (MediaLibrary.mapSet eqb m k v) = map fst m.
Proof.
  induction m as [|[a b] m IH]; simpl; [contradiction|].
  intro H. destruct (eqb a k) eqn:E; simpl; [reflexivity|].
  f_equal. apply IH. destruct H as [H|H]; [|exact H].
  subst a. now rewrite eqb_same in E.
Qed.

Lemma mapSet_absent (m : list (K * V)) (k : K) (v : V) :
  ~ In k (map fst m) -> MediaLibrary.mapSet eqb m k v = m ++ [(k, v)].
Proof.
  induction m as [|[a b] m IH]; simpl; [reflexivity|].
  intro H. rewrite eqb_other by (intro Hab; apply H; now left).
  f_equal. apply IH. intro Hin. apply H. now right.
Qed.

Lemma key_present_or_absent (m : list (K * V)) (k : K) :
  In k (map fst m) \/ ~ In k (map fst m).
Proof.
  induction m as [|[a b] m IH]; simpl; [right; tauto|].
  destruct (eqb a k) eqn:E.
  - apply eqb_eq in E. left. now left.
  - destruct IH as [Hin|Hout]; [left; now right|].
    right. intros [Hab|Hin]; [|contradiction]. subst a. now rewrite eqb_same in E.
Qed.

Lemma mapSet_NoDup (m : list (K * V)) (k : K) (v : V) :
  NoDup (map fst m) -> NoDup (map fst (MediaLibrary.mapSet eqb m k v)).
Proof.
  intro H. destruct (key_present_or_absent m k) as [Hin|Hout].
  - now rewrite mapSet_present.
  - rewrite mapSet_absent by exact Hout. rewrite map_app. simpl.
    apply NoDup_app; [exact H|repeat constructor; intros []|].
    intros x Hx [Hk|[]]. subst x. contradiction.
Qed.

Lemma mapSet_entries (m : list (K * V)) (k : K) (v : V) (entry : K * V) :
  In entry (MediaLibrary.mapSet eqb m k v) -> entry = (k, v) \/ In entry m.
Proof.
  induction m as [|[a b] m IH]; simpl.
  - intros [H|[]]. now left.
  - destruct (eqb a k) eqn:E; simpl.
    + apply eqb_eq in E. subst a. intros [H|H]; [now left|right; now right].
    + intros [H|H]; [right; now left|].
      destruct (IH H) as [G|G]; [now left|right; now right].
Qed.

Lemma mapDelete_entries (m : list (K * V)) (k : K) (entry : K * V) :
  In entry (MediaLibrary.mapDelete eqb m k) -> In entry m.
Proof.
  induction m as [|[a b] m IH]; simpl; [tauto|].
  destruct (eqb a k); simpl; [now right|].
  intros [H|H]; [now left|right; now apply IH].
Qed.

Lemma mapDelete_NoDup (m : list (K * V)) (k : K) :
  NoDup (map fst m) -> NoDup (map fst (MediaLibrary.mapDelete eqb m k)).
Proof.
  induction m as [|[a b] m IH]; simpl; [trivial|].
  intro H. inversion H; subst. destruct (eqb a k); simpl; [assumption|].
  constructor; [|now apply IH].
  intro Hin. apply H2. apply in_map_iff in Hin. destruct Hin as ([x y] & Hx & Hin).
  simpl in Hx. subst x. apply mapDelete_entries in Hin.
  apply in_map_iff. now exists (a, y).
Qed.

Lemma mapGet_mapDelete_same (m : list (K * V)) (k : K) :
  NoDup (map fst m) -> MediaLibrary.mapGet eqb (MediaLibrary.mapDelete eqb m k) k = None.
Proof.
  induction m as [|[a b] m IH]; simpl; [reflexivity|].
  intro H. inversion H; subst. destruct (eqb a k) eqn:E; simpl.
  - apply eqb_eq in E. subst a. now apply mapGet_absent.
  - rewrite E. now apply IH.
Qed.

Lemma mapGet_mapDelete_other (m : list (K * V)) (k k' : K) :
  k <> k' ->
  MediaLibrary.mapGet eqb (MediaLibrary.mapDelete eqb m k) k' = MediaLibrary.mapGet eqb m k'.
Proof.
  intro Hk. induction m as [|[a b] m IH]; simpl; [reflexivity|].
  destruct (eqb a k) eqn:E; simpl.
  - apply eqb_eq in E. subst a. now rewrite (eqb_other k k' Hk).
  - destruct (eqb a k'); [reflexivity|exact IH].
Qed.

End JsMapFacts.

Ltac concrete_wellFormed :=
  unfold MediaLibrary.wellFormed; cbn;
  repeat match goal with
         | |- _ /\ _ => split
         | |- NoDup _ => constructor
         | |- Forall _ _ => constructor
         | |- ~ In _ _ => cbn; intuition discriminate
         | |- _ <> _ => discriminate
         | |- _ = _ => reflexivity
         end.

Lemma string_eqb_eq (a b : string) : String.eqb a b = true <-> a = b.
Proof. apply String.eqb_eq. Qed.

Lemma wellFormed_entry (lib : MediaLibrary.State) (k : string)
    (media : MediaLibrary.MediaItem) :
  MediaLibrary.wellFormed lib ->
  MediaLibrary.getMedia lib k = Some media ->
  MediaLibrary.id media = k /\ k <> ""%string /\ In k (map fst (MediaLibrary.items lib)).
Proof.
  intros (_ & _ & Hf) Hg. unfold MediaLibrary.getMedia in Hg.
  apply (mapGet_keys String.eqb string_eqb_eq) in Hg.
  rewrite Forall_forall in Hf. destruct (Hf _ Hg) as [Hid Hne]. simpl in Hid, Hne.
  split; [exact Hid|]. split; [exact Hne|].
  apply in_map_iff. now exists (k, media).
Qed.

Lemma assignToSlice_wellFormed (lib : MediaLibrary.State) (mediaId : string) (sliceId : Z) :
  MediaLibrary.wellFormed lib ->
  MediaLibrary.wellFormed (MediaLibrary.assignToSlice lib mediaId sliceId).
Proof.
  intro Hwf. unfold MediaLibrary.assignToSlice.
  destruct (MediaLibrary.mapGet String.eqb (MediaLibrary.items lib) mediaId) as [media|] eqn:E;
    [|exact Hwf].
  destruct (wellFormed_entry lib mediaId media Hwf E) as (Hid & Hne & _).
  destruct Hwf as (H1 & H2 & H3).
  split; [|split]; cbn [MediaLibrary.items MediaLibrary.sliceMediaMap].
  - now apply (mapSet_NoDup String.eqb string_eqb_eq).
  - now apply (mapSet_NoDup Z.eqb Z.eqb_eq).
  - apply Forall_forall. intros entry Hin.
    apply (mapSet_entries String.eqb string_eqb_eq) in Hin. destruct Hin as [->|Hin].
    + simpl. now split.
    + rewrite Forall_forall in H3. now apply H3.
Qed.

Lemma removeMedia_wellFormed (lib : MediaLibrary.State) (id : string) :
  MediaLibrary.wellFormed lib -> MediaLibrary.wellFormed (MediaLibrary.removeMedia lib id).
Proof.
  intro Hwf. unfold MediaLibrary.removeMedia.
  destruct (MediaLibrary.mapGet String.eqb (MediaLibrary.items lib) id) as [media|];
    [|exact Hwf].
  destruct Hwf as (H1 & H2 & H3).
  split; [|split]; cbn [MediaLibrary.items MediaLibrary.sliceMediaMap].
  - now apply mapDelete_NoDup.
  - destruct (MediaLibrary.sliceId media); [now apply mapDelete_NoDup|exact H2].
  - apply Forall_forall. intros entry Hin. apply mapDelete_entries in Hin.
    rewrite Forall_forall in H3. now apply H3.
Qed.

Lemma addMedia_wellFormed (env : MediaLibrary.Browser) (lib : MediaLibrary.State)
    (file : MediaLibrary.File) (type : MediaLibrary.MediaType) :
  MediaLibrary.wellFormed lib ->
  MediaLibrary.wellFormed (fst (MediaLibrary.addMedia env lib file type)).
Proof.
  intro Hwf. unfold MediaLibrary.addMedia.
  destruct (MediaLibrary.generateThumbnail env type) as [thumbnail|]; [|exact Hwf].
  match goal with |- context [match ?d with Some _ => _ | None => (lib, None) end] =>
    destruct d as [duration|] end; [|exact Hwf].
  destruct Hwf as (H1 & H2 & H3).
  split; [|split]; cbn [fst MediaLibrary.items MediaLibrary.sliceMediaMap].
  - now apply (mapSet_NoDup String.eqb string_eqb_eq).
  - exact H2.
  - apply Forall_forall. intros entry Hin.
    apply (mapSet_entries String.eqb string_eqb_eq) in Hin. destruct Hin as [->|Hin].
    + simpl. split; [reflexivity|discriminate].
    + rewrite Forall_forall in H3. now apply H3.
Qed.

Lemma perform_wellFormed (lib : MediaLibrary.State) (call : MediaLibrary.Call) :
  MediaLibrary.wellFormed lib -> MediaLibrary.wellFormed (MediaLibrary.perform lib call).
Proof.
  intro Hwf. destruct call; simpl.
  - now apply addMedia_wellFormed.
  - now apply assignToSlice_wellFormed.
  - now apply removeMedia_wellFormed.
  - repeat split; constructor.
Qed.

Lemma calls_wellFormed (calls : list MediaLibrary.Call) :
  forall lib, MediaLibrary.wellFormed lib ->
              MediaLibrary.wellFormed (fold_left MediaLibrary.perform calls lib).
Proof.
  induction calls as [|call calls IH]; intros lib Hwf; simpl; [exact Hwf|].
  apply IH. now apply perform_wellFormed.
Qed.

Lemma getMedia_assignToSlice (lib : MediaLibrary.State) (mediaId : string) (sliceId : Z)
    (media : MediaLibrary.MediaItem) :
  MediaLibrary.getMedia lib mediaId = Some media ->
  MediaLibrary.getMedia (MediaLibrary.assignToSlice lib mediaId sliceId) mediaId
  = Some (assigned media sliceId) /\
  (forall other, other <> mediaId ->
     MediaLibrary.getMedia (MediaLibrary.assignToSlice lib mediaId sliceId) other
     = MediaLibrary.getMedia lib other) /\
  MediaLibrary.mapGet Z.eqb
    (MediaLibrary.sliceMediaMap (MediaLibrary.assignToSlice lib mediaId sliceId)) sliceId
  = Some mediaId /\
  (forall other, other <> sliceId ->
     MediaLibrary.mapGet Z.eqb
       (MediaLibrary.sliceMediaMap (MediaLibrary.assignToSlice lib mediaId sliceId)) other
     = MediaLibrary.mapGet Z.eqb (MediaLibrary.sliceMediaMap lib) other) /\
  MediaLibrary.revoked (MediaLibrary.assignToSlice lib mediaId sliceId)
  = MediaLibrary.revoked lib.
Proof.
  intro Hg. unfold MediaLibrary.getMedia in *. unfold MediaLibrary.assignToSlice.
  rewrite Hg. cbn [MediaLibrary.items MediaLibrary.sliceMediaMap MediaLibrary.revoked].
  split; [apply (mapGet_mapSet_same String.eqb string_eqb_eq)|].
  split; [intros other Ho; apply (mapGet_mapSet_other String.eqb string_eqb_eq); congruence|].
  split; [apply (mapGet_mapSet_same Z.eqb Z.eqb_eq)|].
  split; [intros other Ho; apply (mapGet_mapSet_other Z.eqb Z.eqb_eq); congruence|].
  reflexivity.
Qed.

Lemma getMediaForSlice_mapped (lib : MediaLibrary.State) (sliceId : Z) (mediaId : string) :
  MediaLibrary.mapGet Z.eqb (MediaLibrary.sliceMediaMap lib) sliceId = Some mediaId ->
  mediaId <> ""%string ->
  MediaLibrary.getMediaForSlice lib sliceId = MediaLibrary.getMedia lib mediaId.
Proof.
  intros Hs Hne. unfold MediaLibrary.getMediaForSlice, MediaLibrary.getMedia. rewrite Hs.
  destruct (String.eqb mediaId "") eqn:E; [|reflexivity].
  apply String.eqb_eq in E. contradiction.
Qed.

(** X20: assigning a stored item to a slice and looking the slice up
    returns that item, now carrying the slice id; the item is the one that
    getMedia returns, every other item and every other slice is as before,
    and getAllMedia keeps its order. *)
Theorem assign_then_lookup (lib : MediaLibrary.State) (mediaId : string) (sliceId : Z)
    (media : MediaLibrary.MediaItem) :
  MediaLibrary.wellFormed lib ->
  MediaLibrary.getMedia lib mediaId = Some media ->
  let lib' := MediaLibrary.assignToSlice lib mediaId sliceId in
  MediaLibrary.getMediaForSlice lib' sliceId = Some (assigned media sliceId) /\
  MediaLibrary.getMedia lib' mediaId = Some (assigned media sliceId) /\
  (forall other, other <> mediaId ->
     MediaLibrary.getMedia lib' other = MediaLibrary.getMedia lib other) /\
  (forall other, other <> sliceId ->
     MediaLibrary.mapGet Z.eqb (MediaLibrary.sliceMediaMap lib') other
     = MediaLibrary.mapGet Z.eqb (MediaLibrary.sliceMediaMap lib) other) /\
  map MediaLibrary.id (MediaLibrary.getAllMedia lib')
  = map MediaLibrary.id (MediaLibrary.getAllMedia lib).
Proof.
  intros Hwf Hg lib'.
  destruct (wellFormed_entry lib mediaId media Hwf Hg) as (Hid & Hne & Hin).
  destruct (getMedia_assignToSlice lib mediaId sliceId media Hg)
    as (G1 & G2 & G3 & G4 & _).
  split; [|split; [exact G1|split; [exact G2|split; [exact G4|]]]].
  - subst lib'. rewrite (getMediaForSlice_mapped _ sliceId mediaId G3 Hne). exact G1.
  - assert (Hwf' : MediaLibrary.wellFormed lib') by now apply assignToSlice_wellFormed.
    assert (Hkeys : forall l : MediaLibrary.State, MediaLibrary.wellFormed l ->
              map MediaLibrary.id (MediaLibrary.getAllMedia l)
              = map fst (MediaLibrary.items l)).
    { intros l (_ & _ & Hf). unfold MediaLibrary.getAllMedia. rewrite map_map.
      apply map_ext_in. intros entry He. rewrite Forall_forall in Hf.
      now destruct (Hf entry He). }
    rewrite (Hkeys lib' Hwf'), (Hkeys lib Hwf). subst lib'.
    unfold MediaLibrary.assignToSlice. unfold MediaLibrary.getMedia in Hg. rewrite Hg.
    cbn [MediaLibrary.items].
    now apply (mapSet_present String.eqb string_eqb_eq).
Qed.

Lemma assign_then_lookup_witness :
  let lib' := MediaLibrary.assignToSlice MediaLibrary.twoItems "media-1700000000001-b2" 3 in
  let media := MediaLibrary.mkMediaItem "media-1700000000001-b2" MediaLibrary.image
                 (MediaLibrary.mkFile "still.png") "blob:b2" "blob:thumb-b2" None None
                 "still.png" in
  MediaLibrary.getMediaForSlice lib' 3 = Some (assigned media 3) /\
  MediaLibrary.getMedia lib' "media-1700000000001-b2" = Some (assigned media 3) /\
  (forall other, other <> "media-1700000000001-b2"%string ->
     MediaLibrary.getMedia lib' other = MediaLibrary.getMedia MediaLibrary.twoItems other) /\
  (forall other, other <> 3%Z ->
     MediaLibrary.mapGet Z.eqb (MediaLibrary.sliceMediaMap lib') other
     = MediaLibrary.mapGet Z.eqb (MediaLibrary.sliceMediaMap MediaLibrary.twoItems) other) /\
  map MediaLibrary.id (MediaLibrary.getAllMedia lib')
  = map MediaLibrary.id (MediaLibrary.getAllMedia MediaLibrary.twoItems).
Proof.
  apply (assign_then_lookup MediaLibrary.twoItems "media-1700000000001-b2" 3).
  - concrete_wellFormed.
  - reflexivity.
Defined.

Lemma mapDelete_values (m : list (string * MediaLibrary.MediaItem)) (k : string) :
  NoDup (map fst m) ->
  Forall (fun entry => MediaLibrary.id (snd entry) = fst entry /\ fst entry <> ""%string) m ->
  map snd (MediaLibrary.mapDelete String.eqb m k)
  = filter (fun media => negb (String.eqb (MediaLibrary.id media) k)) (map snd m).
Proof.
  induction m as [|[a b] m IH]; simpl; [reflexivity|].
  intros Hn Hf. apply NoDup_cons_iff in Hn. destruct Hn as [Hout Hn].
  apply Forall_cons_iff in Hf. destruct Hf as [[Hid _] Hf]. simpl in Hid.
  rewrite Hid.
  destruct (String.eqb a k) eqn:E; simpl.
  - apply String.eqb_eq in E. subst a.
    symmetry. apply forallb_filter_id. apply forallb_forall. intros media Hin.
    apply in_map_iff in Hin. destruct Hin as ([x y] & Hy & Hin). simpl in Hy. subst y.
    rewrite Forall_forall in Hf. destruct (Hf _ Hin) as [Hx _]. simpl in Hx. rewrite Hx.
    destruct (String.eqb x k) eqn:Ex; [|reflexivity].
    apply String.eqb_eq in Ex. exfalso. apply Hout.
    apply in_map_iff. exists (x, media). split; [simpl; congruence|exact Hin].
  - f_equal. now apply IH.
Qed.

(** X21: removing a stored item makes getMedia of its id undefined, leaves
    every other item as it was, takes exactly that item out of getAllMedia,
    revokes the item's object URL, and no slice lookup returns the item any
    more. *)
Theorem removeMedia_forgets_item (lib : MediaLibrary.State) (id : string)
    (media : MediaLibrary.MediaItem) :
  MediaLibrary.wellFormed lib ->
  MediaLibrary.getMedia lib id = Some media ->
  let lib' := MediaLibrary.removeMedia lib id in
  MediaLibrary.getMedia lib' id = None /\
  (forall other, other <> id ->
     MediaLibrary.getMedia lib' other = MediaLibrary.getMedia lib other) /\
  MediaLibrary.getAllMedia lib'
  = filter (fun m => negb (String.eqb (MediaLibrary.id m) id)) (MediaLibrary.getAllMedia lib) /\
  MediaLibrary.revoked lib' = MediaLibrary.revoked lib ++ [MediaLibrary.url media] /\
  (forall sliceId found,
     MediaLibrary.getMediaForSlice lib' sliceId = Some found -> MediaLibrary.id found <> id).
Proof.
  intros Hwf Hg lib'.
  assert (Hwf' : MediaLibrary.wellFormed lib') by now apply removeMedia_wellFormed.
  assert (Hitems : MediaLibrary.items lib'
                   = MediaLibrary.mapDelete String.eqb (MediaLibrary.items lib) id).
  { subst lib'. unfold MediaLibrary.removeMedia. unfold MediaLibrary.getMedia in Hg.
    now rewrite Hg. }
  assert (Hnone : MediaLibrary.getMedia lib' id = None).
  { unfold MediaLibrary.getMedia. rewrite Hitems.
    apply (mapGet_mapDelete_same String.eqb string_eqb_eq). now destruct Hwf. }
  split; [exact Hnone|]. split; [|split; [|split]].
  - intros other Ho. unfold MediaLibrary.getMedia. rewrite Hitems.
    apply (mapGet_mapDelete_other String.eqb string_eqb_eq). congruence.
  - unfold MediaLibrary.getAllMedia. rewrite Hitems.
    destruct Hwf as (H1 & _ & H3). now apply mapDelete_values.
  - subst lib'. unfold MediaLibrary.removeMedia. unfold MediaLibrary.getMedia in Hg.
    now rewrite Hg.
  - intros sliceId found Hf Hid. unfold MediaLibrary.getMediaForSlice in Hf.
    destruct (MediaLibrary.mapGet Z.eqb (MediaLibrary.sliceMediaMap lib') sliceId)
      as [mediaId|]; [|discriminate].
    destruct (String.eqb mediaId ""); [discriminate|].
    destruct (wellFormed_entry lib' mediaId found Hwf' Hf) as (Hk & _).
    rewrite Hid in Hk. subst mediaId.
    unfold MediaLibrary.getMedia in Hnone. congruence.
Qed.

Lemma removeMedia_forgets_item_witness :
  let lib := MediaLibrary.assignToSlice MediaLibrary.twoItems "media-1700000000000-a1" 2 in
  let lib' := MediaLibrary.removeMedia lib "media-1700000000000-a1" in
  MediaLibrary.getMedia lib' "media-1700000000000-a1" = None /\
  (forall other, other <> "media-1700000000000-a1"%string ->
     MediaLibrary.getMedia lib' other = MediaLibrary.getMedia lib other) /\
  MediaLibrary.getAllMedia lib'
  = filter (fun m => negb (String.eqb (MediaLibrary.id m) "media-1700000000000-a1"))
           (MediaLibrary.getAllMedia lib) /\
  MediaLibrary.revoked lib' = MediaLibrary.revoked lib ++ ["blob:a1"%string] /\
  (forall sliceId found,
     MediaLibrary.getMediaForSlice lib' sliceId = Some found ->
     MediaLibrary.id found <> "media-1700000000000-a1"%string).
Proof.
  apply (removeMedia_forgets_item
           (MediaLibrary.assignToSlice MediaLibrary.twoItems "media-1700000000000-a1" 2)
           "media-1700000000000-a1"
           (assigned (MediaLibrary.mkMediaItem "media-1700000000000-a1" MediaLibrary.video
                        (MediaLibrary.mkFile "clip.mp4") "blob:a1" "data:image/jpeg;base64,"
                        (Some 12) None "clip.mp4") 2)).
  - concrete_wellFormed.
  - reflexivity.
Defined.

(** X22: an item keeps the slice id of its last assignment even after the
    slice has gone to another item.  Removing the first item then deletes
    the slice's entry, so the slice lookup returns nothing although the
    second item is still stored and still records the slice. *)
Theorem remove_after_reassignment_unassigns_other (lib : MediaLibrary.State)
    (first second : string) (sliceId : Z) (a b : MediaLibrary.MediaItem) :
  MediaLibrary.wellFormed lib ->
  first <> second ->
  MediaLibrary.getMedia lib first = Some a ->
  MediaLibrary.getMedia lib second = Some b ->
  let shared := MediaLibrary.assignToSlice (MediaLibrary.assignToSlice lib first sliceId)
                                           second sliceId in
  MediaLibrary.getMediaForSlice shared sliceId = Some (assigned b sliceId) /\
  MediaLibrary.getMedia shared first = Some (assigned a sliceId) /\
  MediaLibrary.getMediaForSlice (MediaLibrary.removeMedia shared first) sliceId = None /\
  MediaLibrary.getMedia (MediaLibrary.removeMedia shared first) second
  = Some (assigned b sliceId).
Proof.
  intros Hwf Hne Ha Hb shared.
  set (lib1 := MediaLibrary.assignToSlice lib first sliceId).
  assert (Hwf1 : MediaLibrary.wellFormed lib1) by now apply assignToSlice_wellFormed.
  destruct (getMedia_assignToSlice lib first sliceId a Ha) as (A1 & A2 & _).
  fold lib1 in A1, A2.
  assert (Hb1 : MediaLibrary.getMedia lib1 second = Some b).
  { rewrite A2 by congruence. exact Hb. }
  assert (Hwf2 : MediaLibrary.wellFormed shared) by now apply assignToSlice_wellFormed.
  destruct (getMedia_assignToSlice lib1 second sliceId b Hb1) as (B1 & B2 & B3 & _).
  fold shared in B1, B2, B3.
  destruct (wellFormed_entry lib1 second b Hwf1 Hb1) as (_ & Hne2 & _).
  assert (Hfirst : MediaLibrary.getMedia shared first = Some (assigned a sliceId)).
  { rewrite B2 by exact Hne. exact A1. }
  split; [|split; [exact Hfirst|split]].
  - rewrite (getMediaForSlice_mapped shared sliceId second B3 Hne2). exact B1.
  - unfold MediaLibrary.getMediaForSlice, MediaLibrary.removeMedia.
    unfold MediaLibrary.getMedia in Hfirst. rewrite Hfirst.
    cbn [MediaLibrary.sliceMediaMap assigned MediaLibrary.sliceId].
    rewrite (mapGet_mapDelete_same Z.eqb Z.eqb_eq); [reflexivity|]. now destruct Hwf2.
  - unfold MediaLibrary.getMedia, MediaLibrary.removeMedia.
    unfold MediaLibrary.getMedia in Hfirst. rewrite Hfirst. cbn [MediaLibrary.items].
    rewrite (mapGet_mapDelete_other String.eqb string_eqb_eq) by exact Hne. exact B1.
Qed.

Lemma remove_after_reassignment_unassigns_other_witness :
  let a := MediaLibrary.mkMediaItem "media-1700000000000-a1" MediaLibrary.video
             (MediaLibrary.mkFile "clip.mp4") "blob:a1" "data:image/jpeg;base64,"
             (Some 12) None "clip.mp4" in
  let b := MediaLibrary.mkMediaItem "media-1700000000001-b2" MediaLibrary.image
             (MediaLibrary.mkFile "still.png") "blob:b2" "blob:thumb-b2" None None
             "still.png" in
  let shared := MediaLibrary.assignToSlice
                  (MediaLibrary.assignToSlice MediaLibrary.twoItems
                     "media-1700000000000-a1" 4)
                  "media-1700000000001-b2" 4 in
  MediaLibrary.getMediaForSlice shared 4 = Some (assigned b 4) /\
  MediaLibrary.getMedia shared "media-1700000000000-a1" = Some (assigned a 4) /\
  MediaLibrary.getMediaForSlice (MediaLibrary.removeMedia shared "media-1700000000000-a1") 4
  = None /\
  MediaLibrary.getMedia (MediaLibrary.removeMedia shared "media-1700000000000-a1")
                        "media-1700000000001-b2"
  = Some (assigned b 4).
Proof.
  apply (remove_after_reassignment_unassigns_other MediaLibrary.twoItems
           "media-1700000000000-a1" "media-1700000000001-b2" 4).
  - concrete_wellFormed.
  - discriminate.
  - reflexivity.
  - reflexivity.
Defined.

(** X23: assignToSlice never deletes an entry of the slice map: an item
    assigned to one slice and then to another is returned for both slices,
    and records the second one only. *)
Theorem moved_item_stays_on_old_slice (lib : MediaLibrary.State) (mediaId : string)
    (old new : Z) (media : MediaLibrary.MediaItem) :
  MediaLibrary.wellFormed lib ->
  MediaLibrary.getMedia lib mediaId = Some media ->
  old <> new ->
  let moved := MediaLibrary.assignToSlice (MediaLibrary.assignToSlice lib mediaId old)
                                          mediaId new in
  MediaLibrary.getMediaForSlice moved old = Some (assigned media new) /\
  MediaLibrary.getMediaForSlice moved new = Some (assigned media new).
Proof.
  intros Hwf Hg Hne moved.
  set (lib1 := MediaLibrary.assignToSlice lib mediaId old).
  destruct (wellFormed_entry lib mediaId media Hwf Hg) as (_ & Hid & _).
  destruct (getMedia_assignToSlice lib mediaId old media Hg) as (A1 & _ & A3 & _).
  fold lib1 in A1, A3.
  destruct (getMedia_assignToSlice lib1 mediaId new (assigned media old) A1)
    as (B1 & _ & B3 & B4 & _).
  fold moved in B1, B3, B4.
  change (assigned (assigned media old) new) with (assigned media new) in B1.
  split.
  - rewrite (getMediaForSlice_mapped moved old mediaId); [exact B1| |exact Hid].
    rewrite B4 by exact Hne. exact A3.
  - rewrite (getMediaForSlice_mapped moved new mediaId B3 Hid). exact B1.
Qed.

Lemma moved_item_stays_on_old_slice_witness :
  let media := MediaLibrary.mkMediaItem "media-1700000000001-b2" MediaLibrary.image
                 (MediaLibrary.mkFile "still.png") "blob:b2" "blob:thumb-b2" None None
                 "still.png" in
  let moved := MediaLibrary.assignToSlice
                 (MediaLibrary.assignToSlice MediaLibrary.twoItems
                    "media-1700000000001-b2" 1)
                 "media-1700000000001-b2" 5 in
  MediaLibrary.getMediaForSlice moved 1 = Some (assigned media 5) /\
  MediaLibrary.getMediaForSlice moved 5 = Some (assigned media 5).
Proof.
  apply (moved_item_stays_on_old_slice MediaLibrary.twoItems "media-1700000000001-b2" 1 5).
  - concrete_wellFormed.
  - reflexivity.
  - discriminate.
Defined.

(** X24: whatever sequence of addMedia, assignToSlice, removeMedia and clear
    calls is made on a new library, every stored item is held once, under
    its own non-empty id, and an item that a slice lookup returns is the
    item that getMedia returns for its id. *)
Theorem library_stays_well_formed (calls : list MediaLibrary.Call) :
  let lib := fold_left MediaLibrary.perform calls MediaLibrary.empty in
  MediaLibrary.wellFormed lib /\
  (forall sliceId found,
     MediaLibrary.getMediaForSlice lib sliceId = Some found ->
     MediaLibrary.getMedia lib (MediaLibrary.id found) = Some found /\
     In found (MediaLibrary.getAllMedia lib)).
Proof.
  intro lib.
  assert (Hwf : MediaLibrary.wellFormed lib).
  { apply calls_wellFormed. repeat split; constructor. }
  split; [exact Hwf|]. intros sliceId found Hf.
  unfold MediaLibrary.getMediaForSlice in Hf.
  destruct (MediaLibrary.mapGet Z.eqb (MediaLibrary.sliceMediaMap lib) sliceId)
    as [mediaId|]; [|discriminate].
  destruct (String.eqb mediaId ""); [discriminate|].
  destruct (wellFormed_entry lib mediaId found Hwf Hf) as (Hid & _).
  rewrite Hid. split; [exact Hf|].
  apply (mapGet_keys String.eqb string_eqb_eq) in Hf.
  unfold MediaLibrary.getAllMedia. apply in_map_iff. now exists (mediaId, found).
Qed.

(** X25: an addMedia call that returns has stored the returned item under
    its id, unassigned and named after the file, with a duration exactly
    when it is a video; when the id is new the item comes last in
    getAllMedia.  A video whose first frame never loads stores nothing. *)
Theorem addMedia_then_getMedia (env : MediaLibrary.Browser) (lib lib' : MediaLibrary.State)
    (file : MediaLibrary.File) (type : MediaLibrary.MediaType)
    (media : MediaLibrary.MediaItem) :
  MediaLibrary.addMedia env lib file type = (lib', Some media) ->
  MediaLibrary.getMedia lib' (MediaLibrary.id media) = Some media /\
  MediaLibrary.sliceId media = None /\
  MediaLibrary.name media = MediaLibrary.file_name file /\
  (MediaLibrary.duration media <> None <-> type = MediaLibrary.video) /\
  (forall other, other <> MediaLibrary.id media ->
     MediaLibrary.getMedia lib' other = MediaLibrary.getMedia lib other) /\
  (MediaLibrary.getMedia lib (MediaLibrary.id media) = None ->
   MediaLibrary.getAllMedia lib' = MediaLibrary.getAllMedia lib ++ [media]) /\
  (MediaLibrary.firstFrame env = None ->
   forall l f, MediaLibrary.addMedia env l f MediaLibrary.video = (l, None)).
Proof.
  intro H. unfold MediaLibrary.addMedia in H.
  destruct (MediaLibrary.generateThumbnail env type) as [thumbnail|]; [|discriminate].
  assert (Hd : exists d,
             match type with
             | MediaLibrary.video =>
                 match MediaLibrary.getVideoDuration env with
                 | Some d => Some (Some d)
                 | None => None
                 end
             | MediaLibrary.image => Some None
             end = Some d /\ (d <> None <-> type = MediaLibrary.video)).
  { destruct type.
    - destruct (MediaLibrary.getVideoDuration env) as [d|]; [|discriminate].
      exists (Some d). split; [reflexivity|]. split; [reflexivity|discriminate].
    - exists None. split; [reflexivity|]. split; [congruence|discriminate]. }
  destruct Hd as (d & Hd & Hv). rewrite Hd in H.
  injection H as <- <-. cbn [MediaLibrary.id MediaLibrary.sliceId MediaLibrary.name
                               MediaLibrary.duration].
  unfold MediaLibrary.getMedia, MediaLibrary.getAllMedia. cbn [MediaLibrary.items].
  split; [apply (mapGet_mapSet_same String.eqb string_eqb_eq)|].
  split; [reflexivity|]. split; [reflexivity|]. split; [exact Hv|].
  split; [intros other Ho; apply (mapGet_mapSet_other String.eqb string_eqb_eq);
          congruence|].
  split.
  - intros Hnew. rewrite (mapSet_absent String.eqb string_eqb_eq).
    + rewrite map_app. reflexivity.
    + intro Hin. apply (mapGet_present String.eqb string_eqb_eq) in Hin.
      destruct Hin as [v Hv']. congruence.
  - intros Hnever l f. unfold MediaLibrary.addMedia, MediaLibrary.generateThumbnail.
    now rewrite Hnever.
Qed.

Lemma addMedia_then_getMedia_witness :
  let env := MediaLibrary.browser "1700000000002" "c3" in
  let media := MediaLibrary.mkMediaItem "media-1700000000002-c3" MediaLibrary.video
                 (MediaLibrary.mkFile "loop.webm") "blob:c3" "data:image/jpeg;base64,"
                 (Some 12) None "loop.webm" in
  let lib' := fst (MediaLibrary.addMedia env MediaLibrary.twoItems
                     (MediaLibrary.mkFile "loop.webm") MediaLibrary.video) in
  MediaLibrary.getMedia lib' (MediaLibrary.id media) = Some media /\
  MediaLibrary.sliceId media = None /\
  MediaLibrary.name media = "loop.webm"%string /\
  (MediaLibrary.duration media <> None <-> MediaLibrary.video = MediaLibrary.video) /\
  (forall other, other <> MediaLibrary.id media ->
     MediaLibrary.getMedia lib' other = MediaLibrary.getMedia MediaLibrary.twoItems other) /\
  (MediaLibrary.getMedia MediaLibrary.twoItems (MediaLibrary.id media) = None ->
   MediaLibrary.getAllMedia lib' = MediaLibrary.getAllMedia MediaLibrary.twoItems ++ [media]) /\
  (MediaLibrary.firstFrame env = None ->
   forall l f, MediaLibrary.addMedia env l f MediaLibrary.video = (l, None)).
Proof.
  apply (addMedia_then_getMedia (MediaLibrary.browser "1700000000002" "c3")
           MediaLibrary.twoItems _ (MediaLibrary.mkFile "loop.webm") MediaLibrary.video).
  reflexivity.
Defined.

(** * The worker *)

Lemma postRun_shape {A : Type} (id : Z) (payload : A -> Payload) (run : Run A) :
  exists progress last,
    EssentiaWorker.postRun id payload run = progress ++ [last] /\
    EssentiaWorker.isTerminal last = true /\
    Forall (fun m => EssentiaWorker.isTerminal m = false) progress /\
    Forall (fun m => responseId m = id) (progress ++ [last]) /\
    List.length progress = List.length (emitted run).
Proof.
  unfold EssentiaWorker.postRun.
  exists (map (EssentiaWorker.postProgress id) (emitted run)). eexists.
  split; [reflexivity|]. split; [now destruct (settled run)|].
  split; [|split].
  - apply Forall_forall. intros m Hm. apply in_map_iff in Hm.
    now destruct Hm as (q & <- & _).
  - apply Forall_app. split.
    + apply Forall_forall. intros m Hm. apply in_map_iff in Hm.
      now destruct Hm as (q & <- & _).
    + constructor; [now destruct (settled run)|constructor].
  - apply length_map.
Qed.

Lemma single_reply_shape (id : Z) (last : WorkerResponse) :
  EssentiaWorker.isTerminal last = true -> responseId last = id ->
  exists progress last',
    [last] = progress ++ [last'] /\
    EssentiaWorker.isTerminal last' = true /\
    Forall (fun m => EssentiaWorker.isTerminal m = false) progress /\
    Forall (fun m => responseId m = id) (progress ++ [last']).
Proof.
  intros Ht Hi. exists [], last. split; [reflexivity|]. split; [exact Ht|].
  split; [constructor|]. constructor; [exact Hi|constructor].
Qed.

(** X26: whatever the request, the state of the worker and the engine, the
    worker answers a request with messages that all carry the id of the
    request: progress messages, if any, and then exactly one message that is
    not a progress message (a result, an error or the initialized event). *)
Theorem worker_replies_once (h : Host) (env : Environment) (core : option Core)
    (request : WorkerRequest) :
  exists progress last,
    snd (EssentiaWorker.onmessage h env core request) = progress ++ [last] /\
    EssentiaWorker.isTerminal last = true /\
    Forall (fun m => EssentiaWorker.isTerminal m = false) progress /\
    Forall (fun m => responseId m = requestId request) (progress ++ [last]).
Proof.
  unfold EssentiaWorker.onmessage.
  destruct (requestCommand request) as [|samples sr s d|samples sr|samples sr dur ms md| |name].
  - destruct (EssentiaWorker.ensureCore env core) as [core' [c|m]]; cbn [snd];
      now apply single_reply_shape.
  - destruct (EssentiaWorker.ensureCore env core) as [core' [c|m]]; cbn [snd];
      [|now apply single_reply_shape].
    destruct (detectOnsets h c _ _) as [c' run]. cbn [snd].
    destruct (postRun_shape (requestId request) onsetPayload run)
      as (progress & last & H1 & H2 & H3 & H4 & _).
    now exists progress, last.
  - destruct (EssentiaWorker.ensureCore env core) as [core' [c|m]]; cbn [snd];
      [|now apply single_reply_shape].
    match goal with |- context [EssentiaWorker.postRun ?i ?p ?r] =>
      destruct (postRun_shape i p r) as (progress & last & H1 & H2 & H3 & H4 & _) end.
    now exists progress, last.
  - destruct (EssentiaWorker.ensureCore env core) as [core' [c|m]]; cbn [snd];
      [|now apply single_reply_shape].
    match goal with |- context [EssentiaWorker.postRun ?i ?p ?r] =>
      destruct (postRun_shape i p r) as (progress & last & H1 & H2 & H3 & H4 & _) end.
    now exists progress, last.
  - cbn [snd]. now apply single_reply_shape.
  - cbn [snd]. now apply single_reply_shape.
Qed.

Lemma initialize_rejected (env : Environment) (c : Core) (m : string) :
  snd (initialize env c) = Rejected m ->
  essentia (fst (initialize env c)) = essentia c /\
  isInitialized (fst (initialize env c)) = isInitialized c /\
  windowCache (fst (initialize env c)) = windowCache c.
Proof.
  unfold initialize. destruct (isInitialized c) eqn:Ei; [discriminate|].
  destruct (initializationPromise c); [intros _; cbn; now rewrite Ei|].
  destruct (loadEngine env) as [[|] [e|m0]]; cbn; try discriminate;
    intros _; now rewrite ?Ei.
Qed.

(** X27: a worker whose first initialization fails keeps the core that
    failed, a core without an engine.  Until a CLEANUP request, a further
    INIT is answered with the initialized event although no engine is there,
    and every detection request is answered with one error message, even
    once the engine could be loaded; after CLEANUP the next INIT loads it. *)
Theorem worker_failed_init_sticks (h : Host) (env env' : Environment) (m : string)
    (e : Essentia) (id : Z) (samples : list Q) (sr : Q) (s d : option Q) :
  snd (initialize env newCore) = Rejected m ->
  snd (loadEngine env') = Resolved e ->
  let failed := fst (EssentiaWorker.onmessage h env None (mkWorkerRequest id INIT)) in
  (failed = Some (fst (initialize env newCore)) /\
   exists promise, failed = Some (mkCore None false promise [])) /\
  EssentiaWorker.onmessage h env' failed (mkWorkerRequest id INIT)
  = (failed, [mkWorkerResponse id evInitialized noPayload None]) /\
  (exists m', EssentiaWorker.onmessage h env' failed
                (mkWorkerRequest id (DETECT_ONSETS samples sr s d))
              = (failed, [EssentiaWorker.postError id m'])) /\
  (exists m', EssentiaWorker.onmessage h env' failed
                (mkWorkerRequest id (DETECT_BPM samples sr))
              = (failed, [EssentiaWorker.postError id m'])) /\
  (let cleaned := fst (EssentiaWorker.onmessage h env' failed (mkWorkerRequest id CLEANUP)) in
   exists c, EssentiaWorker.onmessage h env' cleaned (mkWorkerRequest id INIT)
             = (Some c, [mkWorkerResponse id evInitialized noPayload None]) /\
             isAvailable c = true).
Proof.
  intros Hfail He failed.
  assert (Hf : failed = Some (fst (initialize env newCore))).
  { subst failed. unfold EssentiaWorker.onmessage, EssentiaWorker.ensureCore.
    cbn [requestCommand requestId].
    destruct (initialize env newCore) as [c r]. cbn [fst snd] in *. subst r.
    reflexivity. }
  destruct (initialize_rejected env newCore m Hfail) as (H1 & H2 & H3).
  destruct (fst (initialize env newCore)) as [en init promise cache].
  cbn in H1, H2, H3. subst en init cache.
  rewrite Hf. split; [split; [reflexivity|now exists promise]|].
  split; [reflexivity|].
  split; [now eexists|]. split; [now eexists|].
  cbn zeta. unfold EssentiaWorker.onmessage, EssentiaWorker.ensureCore, initialize, newCore.
  cbn [requestCommand requestId fst isInitialized initializationPromise windowCache].
  destruct (loadEngine env') as [[|] r]; cbn [snd] in He; subst r;
    eexists; split; reflexivity.
Qed.

Lemma worker_failed_init_sticks_witness :
  let failed := fst (EssentiaWorker.onmessage doubleHost browserWithoutWebAssembly None
                       (mkWorkerRequest 1 INIT)) in
  (failed = Some (fst (initialize browserWithoutWebAssembly newCore)) /\
   exists promise, failed = Some (mkCore None false promise [])) /\
  EssentiaWorker.onmessage doubleHost (loadingBrowser failingEssentia) failed
    (mkWorkerRequest 1 INIT)
  = (failed, [mkWorkerResponse 1 evInitialized noPayload None]) /\
  (exists m', EssentiaWorker.onmessage doubleHost
                (loadingBrowser failingEssentia) failed
                (mkWorkerRequest 1 (DETECT_ONSETS [] 44100 None None))
              = (failed, [EssentiaWorker.postError 1 m'])) /\
  (exists m', EssentiaWorker.onmessage doubleHost
                (loadingBrowser failingEssentia) failed
                (mkWorkerRequest 1 (DETECT_BPM [] 44100))
              = (failed, [EssentiaWorker.postError 1 m'])) /\
  (let cleaned := fst (EssentiaWorker.onmessage doubleHost
                         (loadingBrowser failingEssentia) failed
                         (mkWorkerRequest 1 CLEANUP)) in
   exists c, EssentiaWorker.onmessage doubleHost
               (loadingBrowser failingEssentia) cleaned
               (mkWorkerRequest 1 INIT)
             = (Some c, [mkWorkerResponse 1 evInitialized noPayload None]) /\
             isAvailable c = true).
Proof.
  apply (worker_failed_init_sticks doubleHost browserWithoutWebAssembly
           (loadingBrowser failingEssentia)
           "WebAssembly is not supported in this browser" failingEssentia 1 [] 44100
           None None); reflexivity.
Defined.

Lemma mono_buffer_shape (audioBuffer : AudioBuffer) :
  numberOfChannels audioBuffer = 1%Z ->
  exists samples,
    audioBuffer = mkAudioBuffer (sampleRate audioBuffer) (duration audioBuffer) [samples] /\
    WorkerClient.audioBufferToMono audioBuffer = samples /\
    audioBufferToMono audioBuffer = samples.
Proof.
  destruct audioBuffer as [sr dur chans]. unfold numberOfChannels, len. cbn [channels].
  destruct chans as [|samples [|other chans]]; cbn [List.length]; try lia.
  intros _. exists samples. now repeat split.
Qed.

Lemma detectOnsets_reads (h : Host) (c : Core) (a b : AudioBuffer) (o o' : OnsetOptions) :
  audioBufferToMono a = audioBufferToMono b ->
  sampleRate a = sampleRate b ->
  orDefault (sensitivity o) (1 # 2) = orDefault (sensitivity o') (1 # 2) ->
  orDefault (minDistance o) (toDouble (1 # 20))
  = orDefault (minDistance o') (toDouble (1 # 20)) ->
  onsetProgress o = onsetProgress o' ->
  detectOnsets h c a o = detectOnsets h c b o'.
Proof.
  intros Hm Hs H1 H2 H3. unfold detectOnsets. now rewrite Hm, Hs, H1, H2, H3.
Qed.

(** X28: for a one-channel buffer, the requests that the client builds make
    the worker run the core on that very signal: the worker's answer to the
    client's onset, tempo and structure requests is the messages of the
    core's own detectOnsets, detectBPM and detectSongStructure on the buffer,
    with the client's defaults being the core's.  For a two-channel buffer
    the client sends the half of the sum of the two samples, stored in
    single precision, which is not always the core's own downmix: of two
    samples 2^-149 the client sends 2^-149, where the core's downmix is 0. *)
Theorem worker_path_matches_core (h : Host) (env : Environment) (c : Core)
    (audioBuffer : AudioBuffer) (onsetOptions : OnsetOptions)
    (structureOptions : StructureOptions) (id : Z) :
  numberOfChannels audioBuffer = 1%Z ->
  let direct :=
    detectOnsets h c audioBuffer
      (mkOnsetOptions (sensitivity onsetOptions) (minDistance onsetOptions) true) in
  EssentiaWorker.onmessage h env (Some c)
    (mkWorkerRequest id (WorkerClient.detectOnsetsCommand audioBuffer onsetOptions))
  = (Some (fst direct), EssentiaWorker.postRun id onsetPayload (snd direct)) /\
  EssentiaWorker.onmessage h env (Some c)
    (mkWorkerRequest id (WorkerClient.detectBPMCommand audioBuffer))
  = (Some c, EssentiaWorker.postRun id bpmPayload (mkRun [] (detectBPM c audioBuffer))) /\
  EssentiaWorker.onmessage h env (Some c)
    (mkWorkerRequest id (WorkerClient.detectSongStructureCommand audioBuffer structureOptions))
  = (Some c,
     EssentiaWorker.postRun id structurePayload
       (detectSongStructure h c c audioBuffer
          (mkStructureOptions (maxSections structureOptions)
                              (minSectionDuration structureOptions) true))) /\
  (forall (sr dur : Q) (left right : list Q) (j : Z),
     len right = len left -> (0 <= j < len left)%Z ->
     len (WorkerClient.audioBufferToMono (mkAudioBuffer sr dur [left; right])) = len left /\
     get (WorkerClient.audioBufferToMono (mkAudioBuffer sr dur [left; right])) j
     = Math_fround (toDouble (toDouble (get left j + get right j) / 2))) /\
  (let quiet := mkAudioBuffer 44100 (toDouble (1 # 44100)) [[pow2 (-149)]; [pow2 (-149)]] in
   get (WorkerClient.audioBufferToMono quiet) 0 == pow2 (-149) /\
   get (audioBufferToMono quiet) 0 == 0).
Proof.
  intros Hmono direct.
  destruct (mono_buffer_shape audioBuffer Hmono) as (samples & Hb & Hclient & Hcore).
  split; [|split; [|split; [|split]]].
  - unfold EssentiaWorker.onmessage, WorkerClient.detectOnsetsCommand,
      EssentiaWorker.ensureCore.
    cbn [requestCommand requestId]. rewrite Hclient.
    rewrite (detectOnsets_reads h c
               (EssentiaWorker.createMonoBuffer samples (sampleRate audioBuffer) None)
               audioBuffer _
               (mkOnsetOptions (sensitivity onsetOptions) (minDistance onsetOptions) true));
      [fold direct; now destruct direct| | | | |].
    + now rewrite Hcore.
    + reflexivity.
    + reflexivity.
    + reflexivity.
    + reflexivity.
  - unfold EssentiaWorker.onmessage, WorkerClient.detectBPMCommand,
      EssentiaWorker.ensureCore.
    cbn [requestCommand requestId]. rewrite Hclient.
    assert (Hbpm : detectBPM c (EssentiaWorker.createMonoBuffer samples
                                  (sampleRate audioBuffer) None)
                   = detectBPM c audioBuffer).
    { unfold detectBPM. now rewrite Hcore. }
    now rewrite Hbpm.
  - unfold EssentiaWorker.onmessage, WorkerClient.detectSongStructureCommand,
      EssentiaWorker.ensureCore.
    cbn [requestCommand requestId]. rewrite Hclient.
    unfold EssentiaWorker.createMonoBuffer. rewrite <- Hb.
    assert (Hs : forall o o',
               match maxSections o with Some m => m | None => 8%Z end
               = match maxSections o' with Some m => m | None => 8%Z end ->
               orDefault (minSectionDuration o) 5 = orDefault (minSectionDuration o') 5 ->
               structureProgress o = structureProgress o' ->
               detectSongStructure h c c audioBuffer o
               = detectSongStructure h c c audioBuffer o').
    { intros o o' H1 H2 H3. unfold detectSongStructure. now rewrite H1, H2, H3. }
    rewrite (Hs _ (mkStructureOptions (maxSections structureOptions)
                     (minSectionDuration structureOptions) true));
      reflexivity.
  - intros sr dur left right j _ Hj.
    unfold WorkerClient.audioBufferToMono, numberOfChannels, bufferLength, getChannelData.
    cbn [channels List.length len Z.of_nat Z.eqb Pos.of_succ_nat Pos.succ Pos.eqb
         Z.to_nat Pos.to_nat Pos.iter_op nth Nat.add].
    change (Pos.to_nat 1) with 1%nat. cbv iota.
    split.
    + unfold len at 1. rewrite length_map, range_length. unfold len. lia.
    + rewrite get_map_range by exact Hj. reflexivity.
  - split; vm_compute; reflexivity.
Qed.

Lemma worker_path_matches_core_witness :
  let env := loadingBrowser failingEssentia in
  let onsetOptions := mkOnsetOptions None (Some (1 # 10)) false in
  let direct :=
    detectOnsets doubleHost failingCore silence3072
      (mkOnsetOptions (sensitivity onsetOptions) (minDistance onsetOptions) true) in
  EssentiaWorker.onmessage doubleHost env (Some failingCore)
    (mkWorkerRequest 7 (WorkerClient.detectOnsetsCommand silence3072 onsetOptions))
  = (Some (fst direct), EssentiaWorker.postRun 7 onsetPayload (snd direct)) /\
  EssentiaWorker.onmessage doubleHost env (Some failingCore)
    (mkWorkerRequest 7 (WorkerClient.detectBPMCommand silence3072))
  = (Some failingCore,
     EssentiaWorker.postRun 7 bpmPayload (mkRun [] (detectBPM failingCore silence3072))) /\
  EssentiaWorker.onmessage doubleHost env (Some failingCore)
    (mkWorkerRequest 7
       (WorkerClient.detectSongStructureCommand silence3072 defaultStructureOptions))
  = (Some failingCore,
     EssentiaWorker.postRun 7 structurePayload
       (detectSongStructure doubleHost failingCore failingCore silence3072
          (mkStructureOptions (maxSections defaultStructureOptions)
                              (minSectionDuration defaultStructureOptions) true))) /\
  (forall (sr dur : Q) (left right : list Q) (j : Z),
     len right = len left -> (0 <= j < len left)%Z ->
     len (WorkerClient.audioBufferToMono (mkAudioBuffer sr dur [left; right])) = len left /\
     get (WorkerClient.audioBufferToMono (mkAudioBuffer sr dur [left; right])) j
     = Math_fround (toDouble (toDouble (get left j + get right j) / 2))) /\
  (let quiet := mkAudioBuffer 44100 (toDouble (1 # 44100)) [[pow2 (-149)]; [pow2 (-149)]] in
   get (WorkerClient.audioBufferToMono quiet) 0 == pow2 (-149) /\
   get (audioBufferToMono quiet) 0 == 0).
Proof.
  intros env onsetOptions.
  apply (worker_path_matches_core doubleHost env failingCore silence3072 onsetOptions
           defaultStructureOptions 7).
  reflexivity.
Defined.

(** * The client of the worker *)

Lemma settledIds_snoc (history : list WorkerClient.Notice) (n : WorkerClient.Notice) :
  WorkerClient.settledIds (history ++ [n])
  = WorkerClient.settledIds history
    ++ match WorkerClient.settledId n with Some id => [id] | None => [] end.
Proof.
  unfold WorkerClient.settledIds. rewrite flat_map_app. simpl. now rewrite app_nil_r.
Qed.

Lemma postedIds_snoc (history : list WorkerClient.Notice) (n : WorkerClient.Notice) :
  WorkerClient.postedIds (history ++ [n])
  = WorkerClient.postedIds history
    ++ match n with WorkerClient.posted id _ => [id] | _ => [] end.
Proof.
  unfold WorkerClient.postedIds. rewrite flat_map_app. simpl. now rewrite app_nil_r.
Qed.

Lemma settledIds_notice (history : list WorkerClient.Notice) (n : WorkerClient.Notice)
    (id : Z) :
  In n history -> WorkerClient.settledId n = Some id ->
  In id (WorkerClient.settledIds history).
Proof.
  intros Hin Hs. unfold WorkerClient.settledIds. apply in_flat_map.
  exists n. split; [exact Hin|]. rewrite Hs. now left.
Qed.

Lemma silentOnceSettled_snoc (history : list WorkerClient.Notice)
    (x : WorkerClient.Notice) :
  silentOnceSettled history ->
  (forall id, In id (WorkerClient.settledIds history) -> noticeId x <> id) ->
  silentOnceSettled (history ++ [x]).
Proof.
  intros Hs Hx before n after id Heq Hn.
  induction after as [|y after' _] using rev_ind.
  - constructor.
  - rewrite app_comm_cons, app_assoc in Heq. apply app_inj_tail in Heq.
    destruct Heq as [Hh <-]. apply Forall_app. split.
    + exact (Hs before n after' id Hh Hn).
    + constructor; [|constructor]. apply Hx.
      apply (settledIds_notice history n id); [|exact Hn].
      rewrite Hh. apply in_or_app. right. now left.
Qed.

Lemma keys_mapDelete {V : Type} (m : list (Z * V)) (id k : Z) :
  NoDup (map fst m) ->
  In k (map fst (MediaLibrary.mapDelete Z.eqb m id)) ->
  k <> id /\ In k (map fst m).
Proof.
  intros Hn Hin. split.
  - intros ->. apply (mapGet_present Z.eqb Z.eqb_eq) in Hin. destruct Hin as [v Hv].
    rewrite (mapGet_mapDelete_same Z.eqb Z.eqb_eq) in Hv by exact Hn. discriminate.
  - apply in_map_iff in Hin. destruct Hin as (entry & <- & Hin).
    apply mapDelete_entries in Hin. now apply in_map.
Qed.

Lemma keys_mapSet {V : Type} (m : list (Z * V)) (id k : Z) (v : V) :
  In k (map fst (MediaLibrary.mapSet Z.eqb m id v)) -> k = id \/ In k (map fst m).
Proof.
  intro Hin. apply in_map_iff in Hin. destruct Hin as (entry & <- & Hin).
  apply (mapSet_entries Z.eqb Z.eqb_eq) in Hin. destruct Hin as [->|Hin].
  - now left.
  - right. now apply in_map.
Qed.

Lemma settle_invariant (c : WorkerClient.Client) (id : Z) (onProgress : bool)
    (n : WorkerClient.Notice) :
  clientInvariant c ->
  MediaLibrary.mapGet Z.eqb (WorkerClient.pending c) id = Some onProgress ->
  WorkerClient.settledId n = Some id -> noticeId n = id ->
  clientInvariant
    (WorkerClient.mkClient (WorkerClient.worker c) (WorkerClient.initialized c)
       (WorkerClient.nextId c) (MediaLibrary.mapDelete Z.eqb (WorkerClient.pending c) id)
       (WorkerClient.history c ++ [n])).
Proof.
  intros (H0 & H1 & H2 & H3 & H4 & H5 & H6 & H7) Hp Hs Hid.
  assert (Hkey : In id (map fst (WorkerClient.pending c))).
  { apply (mapGet_keys Z.eqb Z.eqb_eq) in Hp. apply in_map_iff. now exists (id, onProgress). }
  destruct (H3 id Hkey) as [Hrange Hfresh].
  unfold clientInvariant.
  cbn [WorkerClient.nextId WorkerClient.history WorkerClient.pending WorkerClient.worker].
  rewrite settledIds_snoc, postedIds_snoc, Hs.
  split; [exact H0|]. split.
  { destruct n; try discriminate Hs; now rewrite app_nil_r. }
  split; [now apply mapDelete_NoDup|]. split.
  { intros k Hk. destruct (keys_mapDelete _ id k H2 Hk) as [Hne Hin].
    destruct (H3 k Hin) as [Hr Hf]. split; [exact Hr|].
    intro Hin'. apply in_app_or in Hin'. destruct Hin' as [Hin'|[Hin'|[]]]; congruence. }
  split.
  { intros k Hk. apply in_app_or in Hk. destruct Hk as [Hk|[<-|[]]]; [now apply H4|exact Hrange]. }
  split.
  { apply NoDup_app; [exact H5|repeat constructor; intros []|].
    intros k Hk [<-|[]]. contradiction. }
  split.
  { apply silentOnceSettled_snoc; [exact H6|]. intros k Hk. rewrite Hid. congruence. }
  intro Hne. apply H7. intro He. rewrite He in Hkey. contradiction.
Qed.

Lemma step_invariant (c : WorkerClient.Client) (s : WorkerClient.Step) :
  clientInvariant c -> clientInvariant (WorkerClient.step c s).
Proof.
  intro Hinv. destruct s as [command onProgress|response| |]; cbn [WorkerClient.step].
  - destruct Hinv as (H0 & H1 & H2 & H3 & H4 & H5 & H6 & H7).
    unfold WorkerClient.sendRequest, clientInvariant.
    cbn [fst WorkerClient.nextId WorkerClient.history WorkerClient.pending
         WorkerClient.worker].
    rewrite settledIds_snoc, postedIds_snoc. cbn [WorkerClient.settledId].
    rewrite app_nil_r.
    split; [lia|]. split.
    { rewrite H1. symmetry. apply range_snoc. lia. }
    split; [now apply (mapSet_NoDup Z.eqb Z.eqb_eq)|]. split.
    { intros k Hk. apply keys_mapSet in Hk. destruct Hk as [->|Hk].
      - split; [lia|]. intro Hin. apply H4 in Hin. lia.
      - destruct (H3 k Hk) as [Hr Hf]. split; [lia|exact Hf]. }
    split; [intros k Hk; apply H4 in Hk; lia|]. split; [exact H5|]. split.
    { apply silentOnceSettled_snoc; [exact H6|]. intros k Hk. cbn [noticeId].
      apply H4 in Hk. lia. }
    reflexivity.
  - unfold WorkerClient.onmessage.
    destruct (MediaLibrary.mapGet Z.eqb (WorkerClient.pending c) (responseId response))
      as [onProgress|] eqn:Hp; [|exact Hinv].
    destruct (responseEvent response).
    + now apply (settle_invariant c _ onProgress).
    + now apply (settle_invariant c _ onProgress).
    + destruct onProgress; [|exact Hinv].
      destruct Hinv as (H0 & H1 & H2 & H3 & H4 & H5 & H6 & H7).
      assert (Hkey : In (responseId response) (map fst (WorkerClient.pending c))).
      { apply (mapGet_keys Z.eqb Z.eqb_eq) in Hp. apply in_map_iff.
        now exists (responseId response, true). }
      unfold clientInvariant.
      cbn [WorkerClient.nextId WorkerClient.history WorkerClient.pending
           WorkerClient.worker].
      rewrite settledIds_snoc, postedIds_snoc. cbn [WorkerClient.settledId].
      rewrite !app_nil_r.
      repeat (split; [assumption|]). split; [|exact H7].
      apply silentOnceSettled_snoc; [exact H6|]. intros k Hk. cbn [noticeId].
      intros <-. now destruct (H3 _ Hkey).
    + now apply (settle_invariant c _ onProgress).
  - destruct Hinv as (H0 & H1 & H2 & H3 & H4 & H5 & H6 & H7).
    unfold WorkerClient.finishInitialize, clientInvariant.
    cbn [WorkerClient.nextId WorkerClient.history WorkerClient.pending WorkerClient.worker].
    now repeat (split; [assumption|]).
  - destruct Hinv as (H0 & H1 & H2 & H3 & H4 & H5 & H6 & H7).
    unfold WorkerClient.finishCleanup, clientInvariant.
    cbn [WorkerClient.nextId WorkerClient.history WorkerClient.pending WorkerClient.worker].
    split; [exact H0|]. split; [exact H1|]. split; [constructor|].
    split; [intros k []|]. split; [exact H4|]. split; [exact H5|]. split; [exact H6|].
    intro Hne. now contradiction Hne.
Qed.

Lemma steps_invariant (steps : list WorkerClient.Step) :
  forall c, clientInvariant c -> clientInvariant (fold_left WorkerClient.step steps c).
Proof.
  induction steps as [|s steps IH]; intros c Hinv; simpl; [exact Hinv|].
  apply IH. now apply step_invariant.
Qed.

Lemma newClient_invariant : clientInvariant WorkerClient.newClient.
Proof.
  unfold clientInvariant, WorkerClient.newClient. simpl.
  split; [lia|]. split; [reflexivity|]. split; [constructor|].
  split; [intros k []|]. split; [intros k []|]. split; [constructor|].
  split; [|intro H; now contradiction H].
  intros before n after id Heq. destruct before; discriminate Heq.
Qed.

(** X29: in every run of the client, the requests posted to the worker
    carry the ids 1, 2, 3, ... in order, also across cleanups; only posted
    requests are settled, none is settled twice, and once a request is
    settled the client reports nothing more about it: later messages with
    its id, progress included, are dropped.  While a request is pending the
    client has a worker. *)
Theorem client_settles_each_request_once (steps : list WorkerClient.Step) :
  let c := fold_left WorkerClient.step steps WorkerClient.newClient in
  WorkerClient.postedIds (WorkerClient.history c) = range 1 (WorkerClient.nextId c + 1) /\
  NoDup (WorkerClient.settledIds (WorkerClient.history c)) /\
  (forall id, In id (WorkerClient.settledIds (WorkerClient.history c)) ->
              In id (WorkerClient.postedIds (WorkerClient.history c))) /\
  silentOnceSettled (WorkerClient.history c) /\
  (WorkerClient.pending c <> [] -> WorkerClient.worker c = true).
Proof.
  intro c.
  destruct (steps_invariant steps WorkerClient.newClient newClient_invariant)
    as (H0 & H1 & H2 & H3 & H4 & H5 & H6 & H7).
  fold c in H0, H1, H2, H3, H4, H5, H6, H7.
  split; [exact H1|]. split; [exact H5|]. split; [|split; [exact H6|exact H7]].
  intros id Hid. rewrite H1. apply range_In. apply H4 in Hid. lia.
Qed.

Lemma afterCleanup_step (N : Z) (S : list Z) (c : WorkerClient.Client)
    (s : WorkerClient.Step) :
  afterCleanup N S c -> afterCleanup N S (WorkerClient.step c s).
Proof.
  intros (H1 & H2 & H3).
  assert (Hsettle : forall id onProgress n,
             MediaLibrary.mapGet Z.eqb (WorkerClient.pending c) id = Some onProgress ->
             WorkerClient.settledId n = Some id ->
             afterCleanup N S
               (WorkerClient.mkClient (WorkerClient.worker c) (WorkerClient.initialized c)
                  (WorkerClient.nextId c)
                  (MediaLibrary.mapDelete Z.eqb (WorkerClient.pending c) id)
                  (WorkerClient.history c ++ [n]))).
  { intros id onProgress n Hp Hs. unfold afterCleanup.
    cbn [WorkerClient.nextId WorkerClient.history WorkerClient.pending].
    rewrite settledIds_snoc, Hs. split; [exact H1|]. split.
    - intros k Hk. apply H2. apply in_map_iff in Hk. destruct Hk as (entry & <- & Hk).
      apply mapDelete_entries in Hk. now apply in_map.
    - intros k Hk. apply in_app_or in Hk. destruct Hk as [Hk|[<-|[]]]; [now apply H3|].
      right. apply H2. apply (mapGet_keys Z.eqb Z.eqb_eq) in Hp.
      apply in_map_iff. now exists (id, onProgress). }
  destruct s as [command onProgress|response| |]; cbn [WorkerClient.step].
  - unfold WorkerClient.sendRequest, afterCleanup.
    cbn [fst WorkerClient.nextId WorkerClient.history WorkerClient.pending].
    rewrite settledIds_snoc. cbn [WorkerClient.settledId]. rewrite app_nil_r.
    split; [lia|]. split; [|exact H3].
    intros k Hk. apply keys_mapSet in Hk. destruct Hk as [->|Hk]; [lia|now apply H2].
  - unfold WorkerClient.onmessage.
    destruct (MediaLibrary.mapGet Z.eqb (WorkerClient.pending c) (responseId response))
      as [onProgress|] eqn:Hp; [|now repeat split].
    destruct (responseEvent response).
    + now apply (Hsettle _ onProgress).
    + now apply (Hsettle _ onProgress).
    + destruct onProgress; [|now repeat split].
      unfold afterCleanup.
      cbn [WorkerClient.nextId WorkerClient.history WorkerClient.pending].
      rewrite settledIds_snoc. cbn [WorkerClient.settledId]. rewrite app_nil_r.
      now repeat split.
    + now apply (Hsettle _ onProgress).
  - now repeat split.
  - unfold WorkerClient.finishCleanup, afterCleanup.
    cbn [WorkerClient.nextId WorkerClient.history WorkerClient.pending].
    split; [exact H1|]. split; [intros k []|exact H3].
Qed.

Lemma afterCleanup_steps (N : Z) (S : list Z) (steps : list WorkerClient.Step) :
  forall c, afterCleanup N S c -> afterCleanup N S (fold_left WorkerClient.step steps c).
Proof.
  induction steps as [|s steps IH]; intros c H; simpl; [exact H|].
  apply IH. now apply afterCleanup_step.
Qed.

(** X30: a request that is still open when a cleanup finishes is never
    settled: whatever the client and the worker do afterwards, its promise
    neither resolves nor rejects. *)
Theorem cleanup_abandons_open_requests (steps later : list WorkerClient.Step) (id : Z) :
  let c := fold_left WorkerClient.step steps WorkerClient.newClient in
  let c' := fold_left WorkerClient.step later (WorkerClient.finishCleanup c) in
  In id (WorkerClient.postedIds (WorkerClient.history c)) ->
  ~ In id (WorkerClient.settledIds (WorkerClient.history c)) ->
  ~ In id (WorkerClient.settledIds (WorkerClient.history c')).
Proof.
  intros c c' Hposted Hopen Hsettled.
  destruct (steps_invariant steps WorkerClient.newClient newClient_invariant)
    as (H0 & H1 & _).
  fold c in H0, H1. rewrite H1 in Hposted. apply range_In in Hposted.
  assert (Hafter : afterCleanup (WorkerClient.nextId c)
                     (WorkerClient.settledIds (WorkerClient.history c)) c').
  { apply afterCleanup_steps. unfold afterCleanup, WorkerClient.finishCleanup.
    cbn [WorkerClient.nextId WorkerClient.history WorkerClient.pending].
    split; [lia|]. split; [intros k []|]. intros k Hk. now left. }
  destruct Hafter as (_ & _ & H3). destruct (H3 id Hsettled) as [Hin|Hlt].
  - contradiction.
  - lia.
Qed.

Lemma cleanup_abandons_open_requests_witness :
  let c := fold_left WorkerClient.step
             [WorkerClient.stepSend (DETECT_BPM [0; 1] 44100) false;
              WorkerClient.stepSend CLEANUP false;
              WorkerClient.stepReceive (EssentiaWorker.postResult 2 emptyObject)]
             WorkerClient.newClient in
  let c' := fold_left WorkerClient.step
              [WorkerClient.stepReceive
                 (EssentiaWorker.postResult 1 (bpmPayload (mkBPMResult 120 0)))]
              (WorkerClient.finishCleanup c) in
  ~ In 1%Z (WorkerClient.settledIds (WorkerClient.history c')).
Proof.
  apply (cleanup_abandons_open_requests
           [WorkerClient.stepSend (DETECT_BPM [0; 1] 44100) false;
            WorkerClient.stepSend CLEANUP false;
            WorkerClient.stepReceive (EssentiaWorker.postResult 2 emptyObject)]
           [WorkerClient.stepReceive
              (EssentiaWorker.postResult 1 (bpmPayload (mkBPMResult 120 0)))] 1).
  - vm_compute. now left.
  - vm_compute. intros [H|[]]. discriminate H.
Defined.
